(** * Forensiq: a shallow embedding of the detection and scoring pipeline

    The development follows the JavaScript sources module by module:
    [GraphBuilder], [CycleDetector], [SmurfingDetector],
    [ShellNetworkDetector], [FalsePositiveFilter], [ScoringEngine] and the
    orchestrating [ForensicsEngine]; [Validation] is the check of the
    uploaded rows that the server runs before the analysis.

    Conventions of the embedding.
    - A JavaScript number that carries an amount, a ratio or a score is an
      exact rational ([Q]); a count or an index is a [nat]; a [Date] is its
      [getTime()] value, milliseconds as [Z].
    - A JavaScript [Map] is an association list in insertion order and a
      [Set] is a duplicate-free list in insertion order, because the code
      iterates over both and the iteration order reaches the output.
    - [sqrt(v) / m < c] is written [v < (c * m)^2] (for [0 < m], [0 <= c]),
      the same comparison without the square root.
    - [Date.prototype.getHours] depends on the time zone of the host; the
      detectors that read it take it as the parameter [getHours]. *)

From Stdlib Require Import ZArith QArith Qround Qminmax Qabs Lqa.
From Stdlib Require Import List String Ascii Bool Arith Lia DecimalString Sorted.
From Stdlib Require DecimalNat.
Import ListNotations.

Set Implicit Arguments.

(* ================================================================== *)
(** * JavaScript values and containers *)
(* ================================================================== *)

Module JS.

Local Open Scope Q_scope.

(** Comparisons on numbers, as booleans. *)
Definition Qleb (a b : Q) : bool := Qle_bool a b.
Definition Qltb (a b : Q) : bool := negb (Qle_bool b a).
Definition Qgtb (a b : Q) : bool := Qltb b a.
Definition Qgeb (a b : Q) : bool := Qleb b a.

(** [Math.round]: the nearest integer, halves going up. *)
Definition Math_round (x : Q) : Z := Qfloor (x + (1 # 2)).

(** [Math.round(x * 10) / 10]. *)
Definition round1 (x : Q) : Q := inject_Z (Math_round (x * 10)) / 10.

(** [Math.round(x * k) / k] for the other scales the code uses. *)
Definition roundTo (k : Z) (x : Q) : Q :=
  inject_Z (Math_round (x * inject_Z k)) / inject_Z k.

Definition Math_min (a b : Q) : Q := if Qleb a b then a else b.
Definition Math_max (a b : Q) : Q := if Qleb a b then b else a.

(** [a % 1] on a number: the part after the decimal point, with the sign
    of [a]. *)
Definition mod1 (a : Q) : Q :=
  if Qltb a 0 then a + inject_Z (Qfloor (- a)) else a - inject_Z (Qfloor a).

(** [xs.reduce((a, b) => a + b, 0)]. *)
Definition sumQ (xs : list Q) : Q := fold_left Qplus xs 0.

Definition nQ (n : nat) : Q := inject_Z (Z.of_nat n).

(** ** Strings *)

(** [hay.includes(needle)]. *)
Fixpoint includes (needle hay : string) : bool :=
  if String.prefix needle hay then true
  else match hay with
       | EmptyString => false
       | String _ rest => includes needle rest
       end.

(** ** [Map] with string keys, in insertion order *)

Definition Map (V : Type) : Type := list (string * V).

Fixpoint mget {V} (m : Map V) (k : string) : option V :=
  match m with
  | [] => None
  | (k', v) :: rest => if String.eqb k' k then Some v else mget rest k
  end.

Definition mhas {V} (m : Map V) (k : string) : bool :=
  match mget m k with Some _ => true | None => false end.

(** [m.set(k, v)]: an existing key keeps its place. *)
Fixpoint mset {V} (m : Map V) (k : string) (v : V) : Map V :=
  match m with
  | [] => [(k, v)]
  | (k', v') :: rest =>
      if String.eqb k' k then (k', v) :: rest else (k', v') :: mset rest k v
  end.

Definition mkeys {V} (m : Map V) : list string := map fst m.
Definition mvalues {V} (m : Map V) : list V := map snd m.

(** ** [Set] of strings, in insertion order *)

Definition shas (s : list string) (x : string) : bool :=
  existsb (String.eqb x) s.

Definition sadd (s : list string) (x : string) : list string :=
  if shas s x then s else s ++ [x].

Definition sdelete (s : list string) (x : string) : list string :=
  List.filter (fun y => negb (String.eqb x y)) s.

(** [new Set(xs)]. *)
Definition setOf (xs : list string) : list string := fold_left sadd xs [].

(** ** [Array.prototype.sort] with a comparator, which is stable *)

Section Sort.
Context {A : Type}.
(** [before x y]: the comparator puts [x] strictly before [y]. *)
Variable before : A -> A -> bool.

Fixpoint insertSorted (x : A) (l : list A) : list A :=
  match l with
  | [] => [x]
  | y :: rest =>
      if before y x then y :: insertSorted x rest else x :: y :: rest
  end.

Fixpoint sortWith (l : list A) : list A :=
  match l with
  | [] => []
  | x :: rest => insertSorted x (sortWith rest)
  end.
End Sort.

(** [ts.sort((a, b) => a - b)] on instants. *)
Definition sortZ (l : list Z) : list Z := sortWith Z.ltb l.

(** [xs.sort((a, b) => a - b)] on numbers. *)
Definition sortQ (l : list Q) : list Q := sortWith Qltb l.

(** [xs.sort()] on strings: code-unit order. *)
Definition sortStrings (l : list string) : list string := sortWith String.ltb l.

(** [xs[xs.length - 1]]. *)
Definition lastZ (l : list Z) : Z := last l 0%Z.

Definition headZ (l : list Z) : Z := hd 0%Z l.

(** Differences of neighbours: [xs[i] - xs[i-1]] for [i = 1 ..]. *)
Fixpoint deltasZ (l : list Z) : list Z :=
  match l with
  | a :: (b :: _) as rest => (b - a)%Z :: deltasZ rest
  | _ => []
  end.

Definition msPerHour : Q := 3600000.

(** [xs.reduce((s, a) => s + Math.pow(a - avg, 2), 0) / xs.length]. *)
Definition varianceQ (xs : list Q) (avg : Q) : Q :=
  fold_left (fun s a => s + (a - avg) * (a - avg)) xs 0 / nQ (List.length xs).

Definition sq (x : Q) : Q := x * x.

(** [Math.sqrt(variance) / avg < c], for [0 < avg] and [0 <= c]. *)
Definition sqrtRatioLt (variance avg c : Q) : bool := Qltb variance (sq (c * avg)).

(** [Math.sqrt(variance) / avg <= c], for [0 < avg] and [0 <= c]. *)
Definition sqrtRatioLe (variance avg c : Q) : bool := Qleb variance (sq (c * avg)).

(** [xs.join(sep)] on strings. *)
Definition join (sep : string) (xs : list string) : string := String.concat sep xs.

(** [String(n)] for a count. *)
Definition natToString (n : nat) : string :=
  NilEmpty.string_of_uint (Nat.to_uint n).

(** [(b - a) / (1000 * 60 * 60)]. *)
Definition hoursBetween (a b : Z) : Q := inject_Z (b - a) / msPerHour.

End JS.
Import JS.

(* ================================================================== *)
(** * graphBuilder.js *)
(* ================================================================== *)

(** A validated input record: [amount] already a number, [timestamp]
    already an instant. *)
Record Transaction : Type := mkTransaction {
  transaction_id : string;
  sender_id : string;
  receiver_id : string;
  amount : Q;
  timestamp : Z
}.

(** An adjacency entry [{to | from, amount, timestamp, txId}]; [peer] is the
    [to] of a forward entry and the [from] of a reverse entry. *)
Record AdjEdge : Type := mkAdjEdge {
  peer : string;
  e_amount : Q;
  e_timestamp : Z;
  txId : string
}.

(** An entry of [edges]: [{source, target, amount, timestamp, txId}]. *)
Record GraphEdge : Type := mkGraphEdge {
  source : string;
  target : string;
  g_amount : Q;
  g_timestamp : Z;
  g_txId : string
}.

(** Both [minTimeDeltaMs] and [throughputRatio] have the type of a field
    that can be unset; the builder stores [null] in the first when there
    are fewer than two timestamps, and always a number in the second. *)
Record NodeMeta : Type := mkNodeMeta {
  totalSent : Q;
  totalReceived : Q;
  uniqueSenders : nat;
  uniqueReceivers : nat;
  txCount : nat;
  outDegree : nat;
  inDegree : nat;
  allTimestamps : list Z;
  minTimeDeltaMs : option Z;
  throughputRatio : option Q
}.

Record Graph : Type := mkGraph {
  adjacencyList : Map (list AdjEdge);
  reverseAdjList : Map (list AdjEdge);
  nodeMetadata : Map NodeMeta;
  edges : list GraphEdge;
  nodes : list string
}.

Module GraphBuilder.

Definition AdjList : Type := Map (list AdjEdge).

(** [if (!m.has(k)) m.set(k, [])]. *)
Definition ensureKey (m : AdjList) (k : string) : AdjList :=
  if mhas m k then m else mset m k [].

(** [m.get(k).push(e)], after [ensureKey]. *)
Definition pushEdge (m : AdjList) (k : string) (e : AdjEdge) : AdjList :=
  match mget m k with
  | Some l => mset m k (l ++ [e])
  | None => m
  end.

(** [m.get(k) || []]. *)
Definition edgesOf (m : AdjList) (k : string) : list AdjEdge :=
  match mget m k with Some l => l | None => [] end.

Record BuildState : Type := mkBuildState {
  bs_adj : AdjList;
  bs_rev : AdjList;
  bs_edges : list GraphEdge
}.

(** The body of the loop over the transactions. *)
Definition addTransaction (st : BuildState) (tx : Transaction) : BuildState :=
  let s := sender_id tx in
  let r := receiver_id tx in
  let adj1 := pushEdge (ensureKey (bs_adj st) s) s
                (mkAdjEdge r (amount tx) (timestamp tx) (transaction_id tx)) in
  let rev1 := pushEdge (ensureKey (bs_rev st) r) r
                (mkAdjEdge s (amount tx) (timestamp tx) (transaction_id tx)) in
  let adj2 := ensureKey adj1 r in
  let rev2 := ensureKey rev1 s in
  mkBuildState adj2 rev2
    (bs_edges st ++
       [mkGraphEdge s r (amount tx) (timestamp tx) (transaction_id tx)]).

(** The loop that looks for the smallest gap, from [Infinity]. *)
Definition minTimeDelta (sorted : list Z) : option Z :=
  fold_left
    (fun acc delta =>
       match acc with
       | None => Some delta
       | Some m => if (delta <? m)%Z then Some delta else Some m
       end)
    (deltasZ sorted) None.

Definition buildMeta (adj rev : AdjList) (node : string) : NodeMeta :=
  let outEdges := edgesOf adj node in
  let inEdges := edgesOf rev node in
  let totalSent := fold_left (fun sum e => (sum + e_amount e)%Q) outEdges 0%Q in
  let totalReceived := fold_left (fun sum e => (sum + e_amount e)%Q) inEdges 0%Q in
  let allTimestamps :=
    sortZ (map e_timestamp outEdges ++ map e_timestamp inEdges) in
  {| totalSent := totalSent;
     totalReceived := totalReceived;
     uniqueSenders := List.length (setOf (map peer inEdges));
     uniqueReceivers := List.length (setOf (map peer outEdges));
     txCount := List.length outEdges + List.length inEdges;
     outDegree := List.length outEdges;
     inDegree := List.length inEdges;
     allTimestamps := allTimestamps;
     minTimeDeltaMs := minTimeDelta allTimestamps;
     throughputRatio :=
       Some (if Qltb 0 totalReceived then (totalSent / totalReceived)%Q
             else 0%Q) |}.

Definition build (transactions : list Transaction) : Graph :=
  let st := fold_left addTransaction transactions (mkBuildState [] [] []) in
  let adj := bs_adj st in
  let rev := bs_rev st in
  {| adjacencyList := adj;
     reverseAdjList := rev;
     nodeMetadata :=
       fold_left (fun m node => mset m node (buildMeta adj rev node))
         (mkeys adj) [];
     edges := bs_edges st;
     nodes := mkeys adj |}.

End GraphBuilder.

(* ================================================================== *)
(** * The records that flow through the pipeline *)
(* ================================================================== *)

(** [pattern_type] of a ring. *)
Inductive PatternType : Type :=
| cycle | fan_in | fan_out | fan_in_fan_out | shell_network.

Definition PatternType_eqb (a b : PatternType) : bool :=
  match a, b with
  | cycle, cycle | fan_in, fan_in | fan_out, fan_out
  | fan_in_fan_out, fan_in_fan_out | shell_network, shell_network => true
  | _, _ => false
  end.

(** The result of [_normalizePatternType]. *)
Inductive NormalizedType : Type := cycle_ring | layered_chain | smurf_cluster.

Inductive AmountPattern : Type := exact_passthrough | gradual_decay | mixed.

(** [inflow_outflow_ratio]: [null], a number or [Infinity]. *)
Inductive Ratio : Type := RatioNull | RatioNum (q : Q) | RatioInfinity.

Record RingFeatures : Type := mkRingFeatures {
  ring_size : nat;
  hop_length : Z;
  total_time_window_hours : Q;
  average_inter_txn_gap : Q;
  total_amount_moved : Q;
  shell_node_ratio : Q;
  inflow_outflow_ratio : Ratio
}.

(** [bonuses.shell_density] and [bonuses.hop_length] are the constant 0 in
    the source and are not stored. *)
Record RiskDetails : Type := mkRiskDetails {
  base_score : Q;
  pattern_type_normalized : NormalizedType;
  features : RingFeatures;
  time_compression : Q;
  flow_through : Q
}.

(** A fraud ring.  A field that only some rings have is an option ([None]:
    the object has no such property); a property that can hold [null] has
    an option inside. *)
Record Ring : Type := mkRing {
  ring_id : string;
  member_accounts : list string;
  pattern_type : PatternType;
  risk_score : Q;
  cycle_length : option nat;
  chain_length : option nat;
  amount_pattern : option AmountPattern;
  temporal_window_hours : option (option Q);
  aggregatorNode : option (option string);
  disperserNode : option (option string);
  risk_label : option string;
  risk_details : option RiskDetails
}.

Record ScoringDetails : Type := mkScoringDetails {
  acceleration_score : Q;
  stability_score : Q;
  ring_participation_bonus : Q;
  burst_ratio : Q;
  flow_ratio : Q;
  short_lifespan_factor : Q;
  velocity_ratio : Q;
  amount_diversity : Q;
  active_hours_spread : Q;
  sink_behavior : Q
}.

(** A suspicious account; [acc_ring_id] is its [ring_id] property. *)
Record Account : Type := mkAccount {
  account_id : string;
  suspicion_score : Q;
  detected_patterns : list string;
  acc_ring_id : option string;
  suspicion_label : option string;
  scoring_details : option ScoringDetails
}.

(* ================================================================== *)
(** * scoringEngine.js *)
(* ================================================================== *)

Module ScoringEngine.

Local Open Scope Q_scope.

Record SuspicionResult : Type := mkSuspicionResult {
  sr_score : Q;
  sr_label : string;
  sr_details : ScoringDetails
}.

Definition W1 : Q := 35.
Definition W2 : Q := 35.
Definition window72h : Z := (72 * 3600 * 1000)%Z.

(** The inner [while] of [_computeVelocity72h], started at [j = i] on the
    part of [sorted] from index [i]: how far [j] advances. *)
Fixpoint windowAdvance (windowEnd : Z) (fromI : list Z) : nat :=
  match fromI with
  | [] => 0%nat
  | t :: rest =>
      if (t <=? windowEnd)%Z then S (windowAdvance windowEnd rest) else 0%nat
  end.

(** The outer [for] of [_computeVelocity72h]; [fromI] is [sorted] from
    index [i] on. *)
Fixpoint velocityLoop (fromI : list Z) (maxInWindow : nat) : nat :=
  match fromI with
  | [] => maxInWindow
  | t :: rest =>
      velocityLoop rest
        (Nat.max maxInWindow (windowAdvance (t + window72h)%Z fromI))
  end.

Definition _computeVelocity72h (allTimestamps : list Z) : Q :=
  if (List.length allTimestamps <=? 1)%nat then 1
  else
    let sorted := sortZ allTimestamps in
    nQ (velocityLoop sorted 1%nat) / nQ (List.length sorted).

Record PMState : Type := mkPMState {
  pm : Q;
  hasCycle : bool;
  hasFanIn : bool;
  hasFanOut : bool;
  hasShell : bool
}.

(** The body of the loop of [_computePatternModifier]: four [if]s in a
    row on one pattern string. *)
Definition pmStep (meta : option NodeMeta) (st : PMState) (p : string)
  : PMState :=
  let st1 :=
    if negb (hasCycle st) && includes "cycle" p
    then mkPMState (pm st + 20) true (hasFanIn st) (hasFanOut st) (hasShell st)
    else st in
  let st2 :=
    if negb (hasFanIn st1) && String.eqb p "fan_in"
    then mkPMState (pm st1 + 25) (hasCycle st1) true (hasFanOut st1) (hasShell st1)
    else st1 in
  let st3 :=
    if negb (hasFanOut st2) && String.eqb p "fan_out"
    then mkPMState (pm st2 + 25) (hasCycle st2) (hasFanIn st2) true (hasShell st2)
    else st2 in
  if negb (hasShell st3)
     && (String.eqb p "shell_intermediary"
         || String.eqb p "shell_network_endpoint")
  then
    let bonus :=
      match meta with
      | Some m => if (txCount m <=? 3)%nat then 30 else 15
      | None => 15
      end in
    mkPMState (pm st3 + bonus) (hasCycle st3) (hasFanIn st3) (hasFanOut st3) true
  else st3.

Definition _computePatternModifier (detectedPatterns : list string)
  (meta : option NodeMeta) : Q :=
  pm (fold_left (pmStep meta) (setOf detectedPatterns)
        (mkPMState 0 false false false false)).

Definition suspicionLabel (s : Q) : string :=
  if Qgeb s 75 then "High Risk"
  else if Qgeb s 50 then "Suspicious"
  else if Qgeb s 20 then "Monitor"
  else "Stable / Merchant".

Definition _emptySuspicionResult : SuspicionResult :=
  mkSuspicionResult 0 "Stable / Merchant"
    (mkScoringDetails 0 0 0 0 0 0 0 0 0 0).

(** [PTR] as [computeSuspicionScore] computes it. *)
Definition passThroughRate (meta : NodeMeta) : Q :=
  let totalIn := totalReceived meta in
  let totalOut := totalSent meta in
  let maxIO := Math_max totalIn totalOut in
  if Qltb 0 maxIO then Math_min totalIn totalOut / maxIO else 0.

(** [FPP] as [computeSuspicionScore] computes it. *)
Definition falsePositivePenalty (meta : NodeMeta) (ptr : Q) : Q :=
  if (50 <? txCount meta)%nat && Qltb ptr (3 # 10) then 50 else 0.

Section Engine.

Variable transactions : list Transaction.
Variable adjList : Map (list AdjEdge).
Variable reverseAdjList : Map (list AdjEdge).
Variable nodeMetadata : Map NodeMeta.

Definition computeSuspicionScore (accountId : string)
  (detectedPatterns : list string) : SuspicionResult :=
  match mget nodeMetadata accountId with
  | None => _emptySuspicionResult
  | Some meta =>
      let ptr := passThroughRate meta in
      let velocity := _computeVelocity72h (allTimestamps meta) in
      let pm := _computePatternModifier detectedPatterns (Some meta) in
      let fpp := falsePositivePenalty meta ptr in
      let rawScore := (W1 * ptr) + (W2 * velocity) + pm - fpp in
      let score := Math_min 100 (Math_max 0 (round1 rawScore)) in
      mkSuspicionResult score (suspicionLabel score)
        {| acceleration_score := roundTo 1000 ptr;
           stability_score := if Qltb 0 fpp then 1 else 0;
           ring_participation_bonus := roundTo 1000 (pm / 100);
           burst_ratio := roundTo 1000 ptr;
           flow_ratio := roundTo 1000 velocity;
           short_lifespan_factor := roundTo 1000 (pm / 100);
           velocity_ratio := roundTo 1000 (fpp / 100);
           amount_diversity := roundTo 1000 ptr;
           active_hours_spread := roundTo 1000 velocity;
           sink_behavior := roundTo 1000 (1 - ptr) |}
  end.

Definition _normalizePatternType (p : PatternType) : NormalizedType :=
  match p with
  | shell_network => layered_chain
  | fan_in | fan_out | fan_in_fan_out => smurf_cluster
  | cycle => cycle_ring
  end.

Definition riskLabel (s : Q) : string :=
  if Qgeb s 80 then "Critical"
  else if Qgeb s 60 then "High"
  else if Qgeb s 40 then "Medium"
  else "Low".

(** [ring.chain_length ? a : b] and the like: a count is truthy when it is
    there and not 0. *)
Definition truthyCount (c : option nat) : option nat :=
  match c with
  | Some (S n) => Some (S n)
  | _ => None
  end.

Definition memberHas (members : list string) (x : string) : bool :=
  shas members x.

Definition _extractRingFeatures (ring : Ring)
  (ringTransactions : list Transaction) : RingFeatures :=
  let members := member_accounts ring in
  let ringSize := List.length members in
  let hopLength :=
    match truthyCount (chain_length ring) with
    | Some c => (Z.of_nat c - 1)%Z
    | None =>
        match truthyCount (cycle_length ring) with
        | Some c => Z.of_nat c
        | None => Z.of_nat (List.length members)
        end
    end in
  let timestamps := sortZ (map timestamp ringTransactions) in
  let totalTimeWindowHours :=
    if (2 <=? List.length timestamps)%nat
    then hoursBetween (headZ timestamps) (lastZ timestamps) else 0 in
  let avgInterTxnGap :=
    if (2 <=? List.length timestamps)%nat
    then
      let gaps := map (fun d => inject_Z d / msPerHour) (deltasZ timestamps) in
      sumQ gaps / nQ (List.length gaps)
    else 0 in
  let totalAmountMoved :=
    fold_left (fun sum tx => sum + amount tx) ringTransactions 0 in
  let shellNodeCount :=
    fold_left
      (fun c member =>
         match mget nodeMetadata member with
         | Some meta =>
             if (inDegree meta + outDegree meta <=? 2)%nat then S c else c
         | None => c
         end) members 0%nat in
  let shellNodeRatio :=
    if (0 <? ringSize)%nat then nQ shellNodeCount / nQ ringSize else 0 in
  let totalInflow :=
    fold_left
      (fun acc member =>
         fold_left
           (fun a e => if memberHas members (peer e) then a else a + e_amount e)
           (GraphBuilder.edgesOf reverseAdjList member) acc) members 0 in
  let totalOutflow :=
    fold_left
      (fun acc member =>
         fold_left
           (fun a e => if memberHas members (peer e) then a else a + e_amount e)
           (GraphBuilder.edgesOf adjList member) acc) members 0 in
  let inflowOutflowRatio :=
    if Qltb 0 totalOutflow then RatioNum (roundTo 100 (totalInflow / totalOutflow))
    else if Qltb 0 totalInflow then RatioInfinity
    else RatioNull in
  {| ring_size := ringSize;
     hop_length := hopLength;
     total_time_window_hours := roundTo 100 totalTimeWindowHours;
     average_inter_txn_gap := roundTo 100 avgInterTxnGap;
     total_amount_moved := roundTo 100 totalAmountMoved;
     shell_node_ratio := roundTo 100 shellNodeRatio;
     inflow_outflow_ratio := inflowOutflowRatio |}.

Record RiskResult : Type := mkRiskResult {
  rr_score : Q;
  rr_label : string;
  rr_details : RiskDetails
}.

Definition computeRiskScore (ring : Ring) (memberSuspicionScores : list Q)
  (ringTransactions : list Transaction) : RiskResult :=
  let avgAccountSuspicion :=
    if (0 <? List.length memberSuspicionScores)%nat
    then sumQ memberSuspicionScores / nQ (List.length memberSuspicionScores)
    else 0 in
  let timestamps := sortZ (map timestamp ringTransactions) in
  let tDensity :=
    if (2 <=? List.length timestamps)%nat
    then if Qleb (hoursBetween (headZ timestamps) (lastZ timestamps)) 72
         then 15 else 0
    else 15 in
  let patternType := _normalizePatternType (pattern_type ring) in
  let cSeverity :=
    match patternType with
    | cycle_ring => 10
    | layered_chain =>
        let hopLength :=
          match truthyCount (chain_length ring) with
          | Some c => (Z.of_nat c - 1)%Z
          | None => (Z.of_nat (List.length (member_accounts ring)) - 1)%Z
          end in
        if (3 <? hopLength)%Z then 15 else 10
    | smurf_cluster =>
        if (25 <=? List.length (member_accounts ring))%nat then 20 else 10
    end in
  let rawRisk := avgAccountSuspicion + tDensity + cSeverity in
  let score := Math_min 100 (Math_max 0 (round1 rawRisk)) in
  mkRiskResult score (riskLabel score)
    {| base_score := round1 avgAccountSuspicion;
       pattern_type_normalized := patternType;
       features := _extractRingFeatures ring ringTransactions;
       time_compression := tDensity;
       flow_through := cSeverity |}.

Definition findRingTransactions (txs : list Transaction)
  (memberAccounts : list string) : list Transaction :=
  let memberSet := setOf memberAccounts in
  List.filter
    (fun tx => shas memberSet (sender_id tx) && shas memberSet (receiver_id tx))
    txs.

(** The loop of [scoreAllAccounts], before the final sort. *)
Fixpoint scoreAccountsLoop (accounts : list Account)
  (processedIds : list string) : list Account :=
  match accounts with
  | [] => []
  | acc :: rest =>
      if shas processedIds (account_id acc)
      then scoreAccountsLoop rest processedIds
      else
        let scoring :=
          computeSuspicionScore (account_id acc) (detected_patterns acc) in
        {| account_id := account_id acc;
           suspicion_score := sr_score scoring;
           detected_patterns := detected_patterns acc;
           acc_ring_id := acc_ring_id acc;
           suspicion_label := Some (sr_label scoring);
           scoring_details := Some (sr_details scoring) |}
        :: scoreAccountsLoop rest (sadd processedIds (account_id acc))
  end.

(** [(a, b) => b.suspicion_score - a.suspicion_score]: the higher score
    first. *)
Definition byScoreDesc (a b : Account) : bool :=
  Qltb (suspicion_score b) (suspicion_score a).

Definition scoreAllAccounts (accounts : list Account) : list Account :=
  sortWith byScoreDesc (scoreAccountsLoop accounts []).

Definition scoreAllRings (fraudRings : list Ring)
  (scoredAccounts : list Account) : list Ring :=
  let suspicionLookup : Map Q :=
    fold_left (fun m acc => mset m (account_id acc) (suspicion_score acc))
      scoredAccounts [] in
  map
    (fun ring =>
       let memberScores :=
         map (fun m => match mget suspicionLookup m with
                       | Some s => s
                       | None => 0
                       end) (member_accounts ring) in
       let ringTxns := findRingTransactions transactions (member_accounts ring) in
       let scoring := computeRiskScore ring memberScores ringTxns in
       {| ring_id := ring_id ring;
          member_accounts := member_accounts ring;
          pattern_type := pattern_type ring;
          risk_score := rr_score scoring;
          cycle_length := cycle_length ring;
          chain_length := chain_length ring;
          amount_pattern := amount_pattern ring;
          temporal_window_hours := temporal_window_hours ring;
          aggregatorNode := aggregatorNode ring;
          disperserNode := disperserNode ring;
          risk_label := Some (rr_label scoring);
          risk_details := Some (rr_details scoring) |})
    fraudRings.

End Engine.

End ScoringEngine.

(* ================================================================== *)
(** * cycleDetector.js *)
(* ================================================================== *)

Module CycleDetector.

Local Open Scope Q_scope.

Definition MIN_CYCLE : nat := 3.
Definition MAX_CYCLE : nat := 5.
Definition MAX_RESULTS : nat := 500.
Definition MAX_OUT_DEGREE : nat := 30.

Section Detector.

Variable adjList : Map (list AdjEdge).
Variable nodeMetadata : Map NodeMeta.

(** [_dfs]; [results] is the array the source appends to, returned with the
    cycles found.  Each call lengthens [path] and no call is made from a
    path of [MAX_CYCLE] nodes, so [depth] starts at [S MAX_CYCLE]. *)
Fixpoint _dfs (depth : nat) (startNode currentNode : string)
  (path visitedInPath : list string) (results : list (list string))
  (maxResults : nat) : list (list string) :=
  match depth with
  | O => results
  | S depth' =>
      if (MAX_CYCLE <? List.length path)%nat then results
      else if (maxResults <=? List.length results)%nat then results
      else
        (fix neighbours (es : list AdjEdge) (results : list (list string))
           : list (list string) :=
           match es with
           | [] => results
           | edge :: rest =>
               if (maxResults <=? List.length results)%nat then results
               else
                 let next := peer edge in
                 if String.eqb next startNode
                    && (MIN_CYCLE <=? List.length path)%nat
                 then neighbours rest (results ++ [path])
                 else if negb (shas visitedInPath next)
                         && (List.length path <? MAX_CYCLE)%nat
                 then
                   if String.leb startNode next
                   then
                     if (30 <? List.length (GraphBuilder.edgesOf adjList next))%nat
                     then neighbours rest results
                     else
                       neighbours rest
                         (_dfs depth' startNode next (path ++ [next])
                            (sadd visitedInPath next) results maxResults)
                   else neighbours rest results
                 else neighbours rest results
           end) (GraphBuilder.edgesOf adjList currentNode) results
  end.

(** The loop of [_canonicalize] that finds the index of the smallest node. *)
Fixpoint minIndex (cyc : list string) (i minIdx : nat) (rest : list string)
  : nat :=
  match rest with
  | [] => minIdx
  | x :: rest' =>
      if String.ltb x (nth minIdx cyc EmptyString)
      then minIndex cyc (S i) i rest'
      else minIndex cyc (S i) minIdx rest'
  end.

Definition _canonicalize (cyc : list string) : list string :=
  let minIdx := minIndex cyc 1 0 (tl cyc) in
  skipn minIdx cyc ++ firstn minIdx cyc.

Fixpoint dedupLoop (cycles : list (list string)) (seen : list string)
  : list (list string) :=
  match cycles with
  | [] => []
  | cyc :: rest =>
      let key := join "|" (_canonicalize cyc) in
      if shas seen key then dedupLoop rest seen
      else cyc :: dedupLoop rest (sadd seen key)
  end.

Definition _deduplicateCycles (cycles : list (list string))
  : list (list string) := dedupLoop cycles [].

Fixpoint seedLoop (seeds : list string) (allCycles : list (list string))
  : list (list string) :=
  match seeds with
  | [] => allCycles
  | startNode :: rest =>
      if (MAX_RESULTS <=? List.length allCycles)%nat then allCycles
      else if (MAX_OUT_DEGREE
               <? List.length (GraphBuilder.edgesOf adjList startNode))%nat
      then seedLoop rest allCycles
      else
        seedLoop rest
          (_dfs (S MAX_CYCLE) startNode startNode [startNode] [startNode]
             allCycles MAX_RESULTS)
  end.

Definition detect : list (list string) :=
  _deduplicateCycles (seedLoop (sortStrings (mkeys adjList)) []).

(** [edges.find(e => e.to === to)] for each consecutive pair of the cycle,
    the last node paired with the first. *)
Definition cycleEdges (cyc : list string) : list AdjEdge :=
  let n := List.length cyc in
  flat_map
    (fun i =>
       let from := nth i cyc EmptyString in
       let to := nth (Nat.modulo (S i) n) cyc EmptyString in
       match List.find (fun e => String.eqb (peer e) to)
               (GraphBuilder.edgesOf adjList from) with
       | Some e => [e]
       | None => []
       end) (seq 0 n).

Definition _getCycleEdgeAmounts (cyc : list string) : list Q :=
  map e_amount (cycleEdges cyc).

Definition _getCycleTimestamps (cyc : list string) : list Z :=
  map e_timestamp (cycleEdges cyc).

Definition scoreCycle (cyc : list string) : Q :=
  let n := List.length cyc in
  let score0 := 50 in
  let score1 :=
    if (n =? 3)%nat then score0 + 15
    else if (n =? 4)%nat then score0 + 10 else score0 + 5 in
  let edgeAmounts := _getCycleEdgeAmounts cyc in
  let score2 :=
    if (0 <? List.length edgeAmounts)%nat then
      let avgAmount := sumQ edgeAmounts / nQ (List.length edgeAmounts) in
      let variance := varianceQ edgeAmounts avgAmount in
      let cvLt c := if Qltb 0 avgAmount then sqrtRatioLt variance avgAmount c
                    else true in
      if cvLt (1 # 10) then score1 + 15
      else if cvLt (3 # 10) then score1 + 10
      else if cvLt (5 # 10) then score1 + 5
      else score1
    else score1 in
  let timestamps := _getCycleTimestamps cyc in
  let score3 :=
    if (1 <? List.length timestamps)%nat then
      let sorted := sortZ timestamps in
      let hoursSpan := hoursBetween (headZ sorted) (lastZ sorted) in
      if Qltb hoursSpan 24 then score2 + 15
      else if Qltb hoursSpan 72 then score2 + 10
      else if Qltb hoursSpan 168 then score2 + 5
      else score2
    else score2 in
  let lowActivityCount :=
    fold_left
      (fun c node =>
         match mget nodeMetadata node with
         | Some meta => if (txCount meta <=? 5)%nat then S c else c
         | None => c
         end) cyc 0%nat in
  let score4 :=
    if Qltb (1 # 2) (nQ lowActivityCount / nQ n) then score3 + 10 else score3 in
  Math_min 100 score4.

End Detector.

End CycleDetector.

(* ================================================================== *)
(** * smurfingDetector.js *)
(* ================================================================== *)

Module SmurfingDetector.

Local Open Scope Z_scope.

Definition FAN_THRESHOLD : nat := 10.

(** The score a candidate needs to be emitted. *)
Definition EMIT_THRESHOLD : Z := 40.

(** [{counterparty, timestamp, amount}]. *)
Record SmurfTx : Type := mkSmurfTx {
  counterparty : string;
  s_timestamp : Z;
  s_amount : Q
}.

Definition toTx (e : AdjEdge) : SmurfTx :=
  mkSmurfTx (peer e) (e_timestamp e) (e_amount e).

(** An entry of [smurfingGroups]; a group of type [fan_out] has no
    [aggregatorNode] and a group of type [fan_in] no [disperserNode]. *)
Record SmurfGroup : Type := mkSmurfGroup {
  sg_type : PatternType;
  sg_aggregatorNode : option string;
  sg_disperserNode : option string;
  sg_members : list string;
  sg_score : Z;
  sg_temporalWindowHours : option Q
}.

Definition _scoreStructural (fanDegree : nat) : Z :=
  if (30 <=? fanDegree)%nat then 25
  else if (20 <=? fanDegree)%nat then 20
  else if (15 <=? fanDegree)%nat then 15
  else 10.

Definition deltasHours (timestamps : list Z) : list Q :=
  map (fun d => (inject_Z d / msPerHour)%Q) (deltasZ timestamps).

Definition windowHoursOf (timestamps : list Z) : Q :=
  hoursBetween (headZ timestamps) (lastZ timestamps).

Definition _scoreTemporalBurst (timestamps : list Z) : Z :=
  if (List.length timestamps <? 3)%nat then 0
  else
    let deltas := deltasHours timestamps in
    let mean := (sumQ deltas / nQ (List.length deltas))%Q in
    let variance := varianceQ deltas mean in
    let windowHours := windowHoursOf timestamps in
    let n := List.length timestamps in
    if Qltb windowHours 6 && (10 <=? n)%nat then 25
    else if Qltb windowHours 12 && (10 <=? n)%nat then 22
    else if Qltb 0 mean && sqrtRatioLt variance mean (3 # 10)
            && Qltb windowHours 24 then 20
    else if Qltb windowHours 24 then 12
    else if Qltb windowHours 72 then 6
    else 0.

Definition countIf {A} (f : A -> bool) (l : list A) : nat :=
  List.length (List.filter f l).

(** [count / total > bound]. *)
Definition fractionGt (count total : nat) (bound : Q) : bool :=
  Qltb bound (nQ count / nQ total).

Definition _scoreVelocity (amounts : list Q) (timestamps : list Z) : Z :=
  if (List.length timestamps <? 2)%nat then 0
  else
    let totalAmount := sumQ amounts in
    let windowHours := Math_max (windowHoursOf timestamps) (1 # 10) in
    let velocityPerHour := (totalAmount / windowHours)%Q in
    if Qltb 5000 velocityPerHour then 20
    else if Qltb 2000 velocityPerHour then 15
    else if Qltb 1000 velocityPerHour then 10
    else if Qltb 500 velocityPerHour then 5
    else 0.

(** [Math.round((a % 1) * 100) !== 0]. *)
Definition hasCents (a : Q) : bool :=
  negb (Math_round (mod1 a * 100) =? 0).

Definition _scoreBehavioralAmounts (amounts : list Q) : Z :=
  if (List.length amounts <? 5)%nat then 0
  else
    let n := List.length amounts in
    let avg := (sumQ amounts / nQ n)%Q in
    let variance := varianceQ amounts avg in
    let structuringCount :=
      countIf (fun a => Qgeb a 8000 && Qltb a 10000) amounts in
    let score1 := if fractionGt structuringCount n (3 # 10) then 8 else 0 in
    let cvInRange :=
      Qltb 0 avg
      && negb (sqrtRatioLt variance avg (2 # 10))
      && sqrtRatioLe variance avg (6 # 10) in
    let score2 :=
      if cvInRange then
        let midRange := countIf (fun a => Qgeb a 200 && Qleb a 3000) amounts in
        if fractionGt midRange n (6 # 10) then score1 + 5 else score1
      else score1 in
    let decimalAmounts := countIf hasCents amounts in
    let score3 :=
      if fractionGt decimalAmounts n (7 # 10) then score2 - 5 else score2 in
    Z.max 0 (Z.min 15 score3).

(** [freq.set(a, (freq.get(a) || 0) + 1)] on a [Map] keyed by numbers. *)
Fixpoint freqAdd (freq : list (Q * nat)) (a : Q) : list (Q * nat) :=
  match freq with
  | [] => [(a, 1%nat)]
  | (k, c) :: rest =>
      if Qeq_bool k a then (k, S c) :: rest else (k, c) :: freqAdd rest a
  end.

(** The test of rule C of [_legitimacyPenalty] for one interval. *)
Definition closeToInterval (lo hi : Q) (interval d : Z) : bool :=
  let ratio := (inject_Z d / inject_Z interval)%Q in
  Qltb lo ratio && Qltb ratio hi.

Definition dayMs : Z := 24 * 60 * 60 * 1000.

(** Rule C of [_legitimacyPenalty]: the loop over [commonIntervals] with
    its [break]. *)
Definition regularIntervals (timestamps : list Z) : bool :=
  let deltas := deltasZ timestamps in
  existsb
    (fun interval =>
       fractionGt (countIf (closeToInterval (8 # 10) (12 # 10) interval) deltas)
         (List.length deltas) (1 # 2))
    [dayMs; 7 * dayMs; 14 * dayMs; 30 * dayMs].

(** What rule C adds to the penalty. *)
Definition regularIntervalPenalty (timestamps : list Z) : Z :=
  if (5 <=? List.length timestamps)%nat then
    if regularIntervals timestamps then 15 else 0
  else 0.

Section Detector.

Variable getHours : Z -> Z.
Variable adjList : Map (list AdjEdge).
Variable reverseAdjList : Map (list AdjEdge).
Variable nodeMetadata : Map NodeMeta.

Definition _scoreOffHours (timestamps : list Z) : Z :=
  if (List.length timestamps <? 5)%nat then 0
  else
    let offHoursCount :=
      countIf (fun ts => (23 <=? getHours ts) || (getHours ts <=? 4))
        timestamps in
    let n := List.length timestamps in
    if fractionGt offHoursCount n (7 # 10) then 15
    else if fractionGt offHoursCount n (5 # 10) then 10
    else if fractionGt offHoursCount n (3 # 10) then 5
    else 0.

Definition _scoreThroughput (node : string) : Z :=
  match mget nodeMetadata node with
  | None => 0
  | Some meta =>
      match throughputRatio meta with
      | Some r =>
          if Qltb (7 # 10) r && Qltb r (13 # 10)
             && Qltb 0 (totalReceived meta) && Qltb 0 (totalSent meta)
          then 10 else 0
      | None => 0
      end
  end.

(** [overlap]: how many of [receivers] are in [senders]. *)
Definition overlapCount (receivers senders : list string) : nat :=
  countIf (shas senders) receivers.

Definition _legitimacyPenalty (node : string) (timestamps : list Z)
  (amounts : list Q) (patternType : PatternType) : Z :=
  match mget nodeMetadata node with
  | None => 0
  | Some meta =>
      let n := List.length timestamps in
      (* A. sustained activity *)
      let pA :=
        if (2 <=? n)%nat then
          let windowHours := windowHoursOf timestamps in
          (if Qltb 72 windowHours then 10 else 0)
          + (if Qltb 168 windowHours then 10 else 0)
          + (if Qltb 720 windowHours then 15 else 0)
        else 0 in
      (* B. business hours *)
      let pB :=
        if (5 <=? n)%nat then
          let businessHoursCount :=
            countIf (fun ts => (8 <=? getHours ts) && (getHours ts <=? 18))
              timestamps in
          if fractionGt businessHoursCount n (7 # 10) then 10 else 0
        else 0 in
      (* C. regular intervals *)
      let pC := regularIntervalPenalty timestamps in
      (* D. amount regularity *)
      let pD :=
        if (5 <=? List.length amounts)%nat then
          let rounded := map (roundTo 100) amounts in
          let freq := fold_left freqAdd rounded [] in
          let maxFreq := fold_left Nat.max (map snd freq) 0%nat in
          if fractionGt maxFreq (List.length amounts) (4 # 10) then 10 else 0
        else 0 in
      let senders := setOf (map peer (GraphBuilder.edgesOf reverseAdjList node)) in
      let receivers := setOf (map peer (GraphBuilder.edgesOf adjList node)) in
      (* E. merchant shape *)
      let pE :=
        match patternType with
        | fan_in =>
            if (List.length receivers <=? 5)%nat
               && (15 <=? List.length senders)%nat
            then
              if Qltb (nQ (overlapCount receivers senders)
                       / nQ (Nat.max (List.length senders) 1)) (1 # 10)
              then 15 else 0
            else 0
        | _ => 0
        end in
      (* F. payroll shape *)
      let pF :=
        match patternType with
        | fan_out =>
            if (List.length senders <=? 5)%nat
               && (10 <=? List.length receivers)%nat
            then
              if (overlapCount receivers senders =? 0)%nat then 10 else 0
            else 0
        | _ => 0
        end in
      pA + pB + pC + pD + pE + pF
  end.

(** The signals of [_computeSmurfScore], in the order in which the source
    adds them up. *)
Definition signalSum (node : string) (transactions : list SmurfTx) : Z :=
  let counterparties := setOf (map counterparty transactions) in
  let amounts := map s_amount transactions in
  let timestamps := sortZ (map s_timestamp transactions) in
  _scoreStructural (List.length counterparties)
  + _scoreTemporalBurst timestamps
  + _scoreOffHours timestamps
  + _scoreVelocity amounts timestamps
  + _scoreBehavioralAmounts amounts
  + _scoreThroughput node.

Definition _computeSmurfScore (node : string) (transactions : list SmurfTx)
  (patternType : PatternType) : Z :=
  match transactions with
  | [] => 0
  | _ =>
      let amounts := map s_amount transactions in
      let timestamps := sortZ (map s_timestamp transactions) in
      let score :=
        signalSum node transactions
        - _legitimacyPenalty node timestamps amounts patternType in
      Z.max 0 (Z.min 100 (Math_round (inject_Z score)))
  end.

Definition _timeWindowHours (txs : list SmurfTx) : option Q :=
  if (List.length txs <? 2)%nat then None
  else
    let sorted := sortZ (map s_timestamp txs) in
    Some (round1 (hoursBetween (headZ sorted) (lastZ sorted))).

(** The body of the loop of [_detectFanIn] on one entry of the reverse
    adjacency. *)
Definition fanInStep (groups : list SmurfGroup)
  (entry : string * list AdjEdge) : list SmurfGroup :=
  let '(node, inEdges) := entry in
  let uniqueSenders := setOf (map peer inEdges) in
  if (List.length uniqueSenders <? FAN_THRESHOLD)%nat then groups
  else
    let txs := map toTx inEdges in
    let score := _computeSmurfScore node txs fan_in in
    if EMIT_THRESHOLD <=? score then
      groups ++
        [ {| sg_type := fan_in;
             sg_aggregatorNode := Some node;
             sg_disperserNode := None;
             sg_members := node :: uniqueSenders;
             sg_score := score;
             sg_temporalWindowHours := _timeWindowHours txs |} ]
    else groups.

Definition _detectFanIn (groups : list SmurfGroup) : list SmurfGroup :=
  fold_left fanInStep reverseAdjList groups.

Definition fanOutStep (groups : list SmurfGroup)
  (entry : string * list AdjEdge) : list SmurfGroup :=
  let '(node, outEdges) := entry in
  let uniqueReceivers := setOf (map peer outEdges) in
  if (List.length uniqueReceivers <? FAN_THRESHOLD)%nat then groups
  else
    let txs := map toTx outEdges in
    let score := _computeSmurfScore node txs fan_out in
    if EMIT_THRESHOLD <=? score then
      groups ++
        [ {| sg_type := fan_out;
             sg_aggregatorNode := None;
             sg_disperserNode := Some node;
             sg_members := node :: uniqueReceivers;
             sg_score := score;
             sg_temporalWindowHours := _timeWindowHours txs |} ]
    else groups.

Definition _detectFanOut (groups : list SmurfGroup) : list SmurfGroup :=
  fold_left fanOutStep adjList groups.

(** [g.aggregatorNode === node || g.disperserNode === node]. *)
Definition centredOn (node : string) (g : SmurfGroup) : bool :=
  match sg_aggregatorNode g with
  | Some a => String.eqb a node
  | None => false
  end
  || match sg_disperserNode g with
     | Some d => String.eqb d node
     | None => false
     end.

(** The transactions the combined scan scores: in-edges, then out-edges. *)
Definition combinedTxs (node : string) : list SmurfTx :=
  map toTx (GraphBuilder.edgesOf reverseAdjList node)
  ++ map toTx (GraphBuilder.edgesOf adjList node).

Definition combinedStep (groups : list SmurfGroup)
  (entry : string * NodeMeta) : list SmurfGroup :=
  let '(node, meta) := entry in
  if (FAN_THRESHOLD <=? uniqueSenders meta)%nat
     && (FAN_THRESHOLD <=? uniqueReceivers meta)%nat
  then
    if existsb (centredOn node) groups then groups
    else
      let inEdges := GraphBuilder.edgesOf reverseAdjList node in
      let outEdges := GraphBuilder.edgesOf adjList node in
      let allTxs := combinedTxs node in
      let score := _computeSmurfScore node allTxs fan_in_fan_out in
      if EMIT_THRESHOLD <=? score then
        groups ++
          [ {| sg_type := fan_in_fan_out;
               sg_aggregatorNode := Some node;
               sg_disperserNode := Some node;
               sg_members :=
                 node :: setOf (map peer inEdges) ++ setOf (map peer outEdges);
               sg_score := score;
               sg_temporalWindowHours := _timeWindowHours allTxs |} ]
      else groups
  else groups.

Definition _detectCombinedFanInFanOut (groups : list SmurfGroup)
  : list SmurfGroup :=
  fold_left combinedStep nodeMetadata groups.

Definition detect : list SmurfGroup :=
  _detectCombinedFanInFanOut (_detectFanOut (_detectFanIn [])).

End Detector.

End SmurfingDetector.

(* ================================================================== *)
(** * shellDetector.js *)
(* ================================================================== *)

Module ShellNetworkDetector.

Local Open Scope Q_scope.

Definition MAX_CHAIN_LENGTH : nat := 7.
Definition MIN_CHAIN_LENGTH : nat := 4.
Definition SHELL_TX_THRESHOLD : nat := 3.
Definition AMOUNT_COHERENCE_MAX_DROP : Q := 10000.

(** An entry of [shellChains]. *)
Record ShellChain : Type := mkShellChain {
  chain : list string;
  shellAccounts : list string;
  amounts : list Q;
  timestamps : list Z;
  amountPattern : AmountPattern;
  score : Q
}.

(** The test of [detect] on a metadata record. *)
Definition isShellMeta (meta : NodeMeta) : bool :=
  (txCount meta <=? SHELL_TX_THRESHOLD)%nat
  && (1 <=? inDegree meta)%nat && (1 <=? outDegree meta)%nat.

(** [path.slice(1, -1)]. *)
Definition interior {A} (path : list A) : list A := removelast (tl path).

(** The ratios [amounts[i] / amounts[i - 1]] for [i = 1 ..]. *)
Fixpoint hopRatios (amounts : list Q) : list Q :=
  match amounts with
  | a :: (b :: _) as rest => (b / a) :: hopRatios rest
  | _ => []
  end.

Definition _classifyAmountPattern (amounts : list Q) : AmountPattern :=
  if (List.length amounts <? 2)%nat then mixed
  else
    let ratios := hopRatios amounts in
    let allEqual :=
      forallb (fun ratio => negb (Qltb (1 # 100) (Qabs (ratio - 1)))) ratios in
    let decayCount :=
      List.length
        (List.filter (fun ratio => Qgeb ratio (80 # 100) && Qltb ratio (99 # 100))
           ratios) in
    if allEqual then exact_passthrough
    else if Qgeb (nQ decayCount / nQ (List.length amounts - 1)) (1 # 2)
    then gradual_decay
    else mixed.

(** The loop of [_scoreChain] over the hop timestamps:
    [(sequential, totalTimeMs)]. *)
Definition temporalProgression (timestamps : list Z) : bool * Z :=
  fold_left
    (fun st delta =>
       ((if (delta <? 0)%Z then false else fst st), (snd st + Z.abs delta)%Z))
    (deltasZ timestamps) (true, 0%Z).

Section Detector.

Variable adjList : Map (list AdjEdge).
Variable reverseAdjList : Map (list AdjEdge).
Variable nodeMetadata : Map NodeMeta.

Definition _scoreChain (chain : list string) (amounts : list Q)
  (timestamps : list Z) (shellNodes : list string) : Q :=
  let n := List.length chain in
  let score1 :=
    if (6 <=? n)%nat then 45 + 20
    else if (5 <=? n)%nat then 45 + 15
    else if (4 <=? n)%nat then 45 + 10
    else 45 + 5 in
  let score2 :=
    if (2 <=? List.length amounts)%nat then
      match _classifyAmountPattern amounts with
      | exact_passthrough => score1 + 15
      | gradual_decay => score1 + 20
      | mixed => score1 + 10
      end
    else score1 in
  let score3 :=
    if (2 <=? List.length timestamps)%nat then
      let '(sequential, totalTimeMs) := temporalProgression timestamps in
      if sequential then
        let hoursTotal := inject_Z totalTimeMs / msPerHour in
        if Qltb hoursTotal 24 then score2 + 15
        else if Qltb hoursTotal 72 then score2 + 10
        else if Qltb hoursTotal 168 then score2 + 5
        else score2
      else score2
    else score2 in
  let shellAccounts := interior chain in
  let veryLowActivity :=
    fold_left
      (fun c node =>
         match mget nodeMetadata node with
         | Some meta => if (txCount meta =? 2)%nat then S c else c
         | None => c
         end) shellAccounts 0%nat in
  let score4 :=
    if (0 <? List.length shellAccounts)%nat
       && Qltb (1 # 2) (nQ veryLowActivity / nQ (List.length shellAccounts))
    then score3 + 10 else score3 in
  Math_min 100 score4.

(** [_traceShellChain], returning the chains it pushes, in order.  [path],
    [visited], [amounts] and [timestamps] are pushed to before a recursive
    call and popped after it, so the values of the caller are unchanged
    when the call returns: they are passed down extended.  Each call
    lengthens [path] and a path of [MAX_CHAIN_LENGTH] nodes returns at once,
    so [depth] starts at [MAX_CHAIN_LENGTH]. *)
Fixpoint _traceShellChain (depth : nat) (startNode currentNode : string)
  (path visited : list string) (amounts : list Q) (timestamps : list Z)
  (shellNodes : list string) : list ShellChain :=
  match depth with
  | O => []
  | S depth' =>
      if (MAX_CHAIN_LENGTH <=? List.length path)%nat then []
      else
        flat_map
          (fun edge =>
             let next := peer edge in
             if shas visited next then []
             else
               match mget nodeMetadata next with
               | None => []
               | Some nextMeta =>
                   let prevAmount := last amounts 0 in
                   let amountDrop := prevAmount - e_amount edge in
                   if Qltb AMOUNT_COHERENCE_MAX_DROP amountDrop then []
                   else if Qltb prevAmount (e_amount edge) then []
                   else
                     let visited' := sadd visited next in
                     let path' := path ++ [next] in
                     let amounts' := amounts ++ [e_amount edge] in
                     let timestamps' := timestamps ++ [e_timestamp edge] in
                     if shas shellNodes next then
                       _traceShellChain depth' startNode next path' visited'
                         amounts' timestamps' shellNodes
                     else
                       let intermediates := interior path' in
                       if (1 <=? List.length intermediates)%nat
                          && (MIN_CHAIN_LENGTH <=? List.length path')%nat
                       then
                         if forallb (shas shellNodes) intermediates then
                           [ {| chain := path';
                                shellAccounts := intermediates;
                                amounts := amounts';
                                timestamps := timestamps';
                                amountPattern := _classifyAmountPattern amounts';
                                score :=
                                  _scoreChain path' amounts' timestamps'
                                    shellNodes |} ]
                         else []
                       else []
               end)
          (GraphBuilder.edgesOf adjList currentNode)
  end.

Fixpoint dedupLoop (chains : list ShellChain) (seen : list string)
  : list ShellChain :=
  match chains with
  | [] => []
  | c :: rest =>
      let key := join "|" (chain c) in
      if shas seen key then dedupLoop rest seen
      else c :: dedupLoop rest (sadd seen key)
  end.

Definition _deduplicateChains (chains : list ShellChain) : list ShellChain :=
  dedupLoop chains [].

(** The set [shellNodes] that [detect] computes first. *)
Definition shellNodeSet : list string :=
  fold_left
    (fun s entry => if isShellMeta (snd entry) then sadd s (fst entry) else s)
    nodeMetadata [].

(** The chains pushed before deduplication. *)
Definition tracedChains (shellNodes : list string) : list ShellChain :=
  flat_map
    (fun shellNode =>
       flat_map
         (fun edge =>
            let startNode := peer edge in
            match mget nodeMetadata startNode with
            | None => []
            | Some startMeta =>
                if shas shellNodes startNode then []
                else
                  _traceShellChain MAX_CHAIN_LENGTH startNode shellNode
                    [startNode; shellNode] (setOf [startNode; shellNode])
                    [e_amount edge] [e_timestamp edge] shellNodes
            end)
         (GraphBuilder.edgesOf reverseAdjList shellNode))
    shellNodes.

Definition detect : list ShellChain :=
  let shellNodes := shellNodeSet in
  match shellNodes with
  | [] => []
  | _ => _deduplicateChains (tracedChains shellNodes)
  end.

End Detector.

End ShellNetworkDetector.

(* ================================================================== *)
(** * falsePositiveFilter.js *)
(* ================================================================== *)

Module FalsePositiveFilter.

Local Open Scope Q_scope.

Import SmurfingDetector.

(** The state of the filter: [legitimateAccounts] and [legitimateHubs]. *)
Record Legit : Type := mkLegit {
  legitimateAccounts : list string;
  legitimateHubs : list string
}.

Definition markHub (st : Legit) (node : string) : Legit :=
  mkLegit (sadd (legitimateAccounts st) node) (sadd (legitimateHubs st) node).

Definition markAccount (st : Legit) (node : string) : Legit :=
  mkLegit (sadd (legitimateAccounts st) node) (legitimateHubs st).

(** The loop of [_groupAmounts] after the first element; [currentGroup] is
    never empty. *)
Fixpoint groupLoop (tolerance : Q) (rest : list Q) (currentGroup : list Q)
  (groups : list (list Q)) : list (list Q) :=
  match rest with
  | [] => groups ++ [currentGroup]
  | x :: rest' =>
      let groupAvg := sumQ currentGroup / nQ (List.length currentGroup) in
      if Qleb (Qabs (x - groupAvg) / Math_max groupAvg (1 # 100)) tolerance
      then groupLoop tolerance rest' (currentGroup ++ [x]) groups
      else groupLoop tolerance rest' [x] (groups ++ [currentGroup])
  end.

Definition _groupAmounts (amounts : list Q) (tolerance : Q) : list (list Q) :=
  match sortQ amounts with
  | [] => []
  | first :: rest => groupLoop tolerance rest [first] []
  end.

Definition hourMs : Z := (60 * 60 * 1000)%Z.

(** The intervals [_checkTemporalRegularity] tries, in order. *)
Definition commonIntervals : list Z :=
  [hourMs; dayMs; (7 * dayMs)%Z; (14 * dayMs)%Z; (30 * dayMs)%Z].

Definition _checkTemporalRegularity (timestamps : list Z) : bool :=
  if (List.length timestamps <? 5)%nat then false
  else
    let deltas := deltasZ timestamps in
    existsb
      (fun interval =>
         fractionGt
           (countIf (closeToInterval (75 # 100) (125 # 100) interval) deltas)
           (List.length deltas) (4 # 10))
      commonIntervals.

(** [receiverCounts]: how often each receiver occurs among the out-edges. *)
Fixpoint countAdd (counts : Map nat) (k : string) : Map nat :=
  match counts with
  | [] => [(k, 1%nat)]
  | (k', c) :: rest =>
      if String.eqb k' k then (k', S c) :: rest else (k', c) :: countAdd rest k
  end.

Section Filter.

Variable getHours : Z -> Z.
Variable adjList : Map (list AdjEdge).
Variable reverseAdjList : Map (list AdjEdge).
Variable nodeMetadata : Map NodeMeta.

Definition businessFraction (lo hi : Z) (timestamps : list Z) (bound : Q)
  : bool :=
  fractionGt
    (countIf (fun ts => ((lo <=? getHours ts) && (getHours ts <=? hi))%Z)
       timestamps)
    (List.length timestamps) bound.

(** The points [_detectMerchants] gives a node that has the merchant
    shape. *)
Definition merchantScore (node : string) : Z :=
  let inEdges := GraphBuilder.edgesOf reverseAdjList node in
  let inAmounts := map e_amount inEdges in
  let timestamps := sortZ (map e_timestamp inEdges) in
  let n := List.length timestamps in
  let p1 :=
    if (5 <? List.length inAmounts)%nat then
      let avg := sumQ inAmounts / nQ (List.length inAmounts) in
      if Qltb 0 avg
         && negb (sqrtRatioLe (varianceQ inAmounts avg) avg (4 # 10))
      then 20%Z else 0%Z
    else 0%Z in
  let p2 :=
    if (2 <=? n)%nat then
      let windowHours := windowHoursOf timestamps in
      if Qltb 168 windowHours then 25%Z
      else if Qltb 72 windowHours then 15%Z else 0%Z
    else 0%Z in
  let p3 :=
    if (5 <=? n)%nat then
      if businessFraction 8 20 timestamps (6 # 10) then 20%Z else 0%Z
    else 0%Z in
  let p4 :=
    if (5 <=? n)%nat then
      let deltas := deltasHours timestamps in
      let mean := sumQ deltas / nQ (List.length deltas) in
      if Qltb 0 mean then
        if sqrtRatioLt (varianceQ deltas mean) mean (8 # 10) then 15%Z else 0%Z
      else 0%Z
    else 0%Z in
  let p5 :=
    if (2 <=? n)%nat then
      let totalAmt := sumQ inAmounts in
      let windowH := Math_max (windowHoursOf timestamps) (1 # 10) in
      if Qltb (totalAmt / windowH) 500 then 10%Z else 0%Z
    else 0%Z in
  (p1 + p2 + p3 + p4 + p5)%Z.

Definition merchantStep (st : Legit) (entry : string * NodeMeta) : Legit :=
  let '(node, meta) := entry in
  if (10 <=? uniqueSenders meta)%nat && (uniqueReceivers meta <=? 5)%nat then
    let senders := setOf (map peer (GraphBuilder.edgesOf reverseAdjList node)) in
    let receivers := setOf (map peer (GraphBuilder.edgesOf adjList node)) in
    let overlap := overlapCount receivers senders in
    if Qltb (nQ overlap / nQ (Nat.max (List.length senders) 1)) (2 # 10) then
      if (40 <=? merchantScore node)%Z then markHub st node else st
    else st
  else st.

Definition _detectMerchants (st : Legit) : Legit :=
  fold_left merchantStep nodeMetadata st.

(** The points of [_detectPayroll] for temporal regularity: 20 when
    [_checkTemporalRegularity] accepts the sorted timestamps of the
    out-edges. *)
Definition payrollTemporalPoints (node : string) : Z :=
  let outEdges := GraphBuilder.edgesOf adjList node in
  let timestamps := sortZ (map e_timestamp outEdges) in
  if _checkTemporalRegularity timestamps then 20%Z else 0%Z.

(** The points [_detectPayroll] gives a node that has the payroll shape. *)
Definition payrollScore (node : string) : Z :=
  let outEdges := GraphBuilder.edgesOf adjList node in
  let receivers := setOf (map peer outEdges) in
  let amounts := map e_amount outEdges in
  let n := List.length amounts in
  let amountGroups := _groupAmounts amounts (1 # 10) in
  let largestGroupSize :=
    fold_left Nat.max (map (@List.length Q) amountGroups) 0%nat in
  let p1 := if fractionGt largestGroupSize n (3 # 10) then 20%Z else 0%Z in
  let decimalCount := countIf hasCents amounts in
  let p2 := if fractionGt decimalCount n (5 # 10) then 15%Z else 0%Z in
  let receiverCounts := fold_left countAdd (map peer outEdges) [] in
  let repeatReceivers := countIf (fun c => (2 <=? c)%nat) (mvalues receiverCounts) in
  let p3 :=
    if fractionGt repeatReceivers (List.length receivers) (4 # 10)
    then 15%Z else 0%Z in
  let timestamps := sortZ (map e_timestamp outEdges) in
  let p4 := payrollTemporalPoints node in
  let p5 :=
    if (5 <=? List.length timestamps)%nat then
      if businessFraction 8 18 timestamps (7 # 10) then 10%Z else 0%Z
    else 0%Z in
  let p6 :=
    if (2 <=? List.length timestamps)%nat then
      let windowHours := windowHoursOf timestamps in
      if Qltb 168 windowHours then 15%Z
      else if Qltb 72 windowHours then 10%Z else 0%Z
    else 0%Z in
  (p1 + p2 + p3 + p4 + p5 + p6)%Z.

Definition payrollStep (st : Legit) (entry : string * NodeMeta) : Legit :=
  let '(node, meta) := entry in
  if (10 <=? uniqueReceivers meta)%nat && (uniqueSenders meta <=? 5)%nat then
    let outEdges := GraphBuilder.edgesOf adjList node in
    let inEdges := GraphBuilder.edgesOf reverseAdjList node in
    if (List.length outEdges <? 10)%nat then st
    else
      let receivers := setOf (map peer outEdges) in
      let senders := setOf (map peer inEdges) in
      if (0 <? overlapCount receivers senders)%nat then st
      else if (40 <=? payrollScore node)%Z then markHub st node else st
  else st.

Definition _detectPayroll (st : Legit) : Legit :=
  fold_left payrollStep nodeMetadata st.

Definition exchangeStep (st : Legit) (entry : string * NodeMeta) : Legit :=
  let '(node, meta) := entry in
  if (20 <=? uniqueSenders meta)%nat && (20 <=? uniqueReceivers meta)%nat then
    let inEdges := GraphBuilder.edgesOf reverseAdjList node in
    let outEdges := GraphBuilder.edgesOf adjList node in
    let senders := setOf (map peer inEdges) in
    let receivers := setOf (map peer outEdges) in
    let overlap := overlapCount receivers senders in
    let overlapRatio :=
      nQ overlap
      / nQ (Nat.max (Nat.max (List.length senders) (List.length receivers)) 1) in
    if Qltb overlapRatio (15 # 100) then
      let allTimestamps :=
        sortZ (map e_timestamp inEdges ++ map e_timestamp outEdges) in
      if (2 <=? List.length allTimestamps)%nat then
        if Qltb 48 (windowHoursOf allTimestamps) then markHub st node else st
      else st
    else st
  else st.

Definition _detectExchangePlatforms (st : Legit) : Legit :=
  fold_left exchangeStep nodeMetadata st.

(** One side of the counterparty sweep: [edges] are the hub's edges and
    [back] the adjacency in which the counterparty's own edges to the hub
    are counted. *)
Definition sweepSide (back : Map (list AdjEdge)) (hubNode : string)
  (edges : list AdjEdge) (accounts : list string) : list string :=
  fold_left
    (fun accs edge =>
       let cp := peer edge in
       match mget nodeMetadata cp with
       | None => accs
       | Some cpMeta =>
           let cpEdges := GraphBuilder.edgesOf back cp in
           let withHub :=
             countIf (fun e => String.eqb (peer e) hubNode) cpEdges in
           let total := List.length cpEdges in
           if (total <=? 3)%nat || fractionGt withHub total (1 # 2) then
             if (txCount cpMeta <=? 5)%nat then sadd accs cp else accs
           else accs
       end) edges accounts.

Definition _markCounterpartiesOfLegitimateHubs (st : Legit) : Legit :=
  mkLegit
    (fold_left
       (fun accs hubNode =>
          sweepSide reverseAdjList hubNode
            (GraphBuilder.edgesOf adjList hubNode)
            (sweepSide adjList hubNode
               (GraphBuilder.edgesOf reverseAdjList hubNode) accs))
       (legitimateHubs st) (legitimateAccounts st))
    (legitimateHubs st).

Definition detectLegitimate : Legit :=
  _markCounterpartiesOfLegitimateHubs
    (_detectExchangePlatforms
       (_detectPayroll (_detectMerchants (mkLegit [] [])))).

(** [ring.aggregatorNode || ring.disperserNode || null]: the first of the
    two that is a non-empty string. *)
Definition centralNode (ring : Ring) : option string :=
  let truthy (o : option (option string)) : option string :=
    match o with
    | Some (Some s) => if String.eqb s EmptyString then None else Some s
    | _ => None
    end in
  match truthy (aggregatorNode ring) with
  | Some s => Some s
  | None => truthy (disperserNode ring)
  end.

Definition withMembers (ring : Ring) (members : list string) : Ring :=
  {| ring_id := ring_id ring;
     member_accounts := members;
     pattern_type := pattern_type ring;
     risk_score := risk_score ring;
     cycle_length := cycle_length ring;
     chain_length := chain_length ring;
     amount_pattern := amount_pattern ring;
     temporal_window_hours := temporal_window_hours ring;
     aggregatorNode := aggregatorNode ring;
     disperserNode := disperserNode ring;
     risk_label := risk_label ring;
     risk_details := risk_details ring |}.

(** The body of the loop of [filterResults] over the rings: the ring to
    keep, if any. *)
Definition filterRing (st : Legit) (ring : Ring) : option Ring :=
  let hubCentred :=
    match centralNode ring with
    | Some c => shas (legitimateHubs st) c
    | None => false
    end in
  if hubCentred then None
  else if existsb (shas (legitimateHubs st)) (member_accounts ring) then None
  else
    let filteredMembers :=
      List.filter (fun id => negb (shas (legitimateAccounts st) id))
        (member_accounts ring) in
    if (3 <=? List.length filteredMembers)%nat
    then Some (withMembers ring filteredMembers)
    else None.

Definition filterResults (st : Legit) (suspiciousAccounts : list Account)
  (fraudRings : list Ring) : list Account * list Ring :=
  (List.filter
     (fun acc => negb (shas (legitimateAccounts st) (account_id acc)))
     suspiciousAccounts,
   flat_map
     (fun ring => match filterRing st ring with Some r => [r] | None => [] end)
     fraudRings).

End Filter.

End FalsePositiveFilter.

(* ================================================================== *)
(** * forensicsEngine.js *)
(* ================================================================== *)

Module ForensicsEngine.

Local Open Scope Q_scope.

(** ** [_mergeOverlappingRings] *)

(** [parent] maps each index [0 .. n-1] to an index; it is a list read with
    [nth] and written with [setNth]. *)
Fixpoint setNth (l : list nat) (i v : nat) : list nat :=
  match l, i with
  | [], _ => []
  | _ :: rest, O => v :: rest
  | x :: rest, S i' => x :: setNth rest i' v
  end.

Definition getNth (l : list nat) (i : nat) : nat := nth i l i.

(** [find], with the [parent] it leaves behind.  The [while] loop runs at
    most once per node on the way to the root, and there are [length
    parent] nodes: [steps] is the number of rounds it may take. *)
Fixpoint findFrom (steps : nat) (parent : list nat) (x : nat)
  : list nat * nat :=
  match steps with
  | O => (parent, x)
  | S steps' =>
      if (getNth parent x =? x)%nat then (parent, x)
      else
        let parent' := setNth parent x (getNth parent (getNth parent x)) in
        findFrom steps' parent' (getNth parent' x)
  end.

Definition find (parent : list nat) (x : nat) : list nat * nat :=
  findFrom (List.length parent) parent x.

Definition union (parent : list nat) (a b : nat) : list nat :=
  let '(parent1, ra) := find parent a in
  let '(parent2, rb) := find parent1 b in
  if (ra =? rb)%nat then parent2 else setNth parent2 ra rb.

(** [overlap / minSize > 0.5] for two rings. *)
Definition overlapRatio (a b : Ring) : Q :=
  let setI := setOf (member_accounts a) in
  let setJ := setOf (member_accounts b) in
  let overlap := List.length (List.filter (shas setJ) setI) in
  let minSize := Nat.min (List.length setI) (List.length setJ) in
  nQ overlap / nQ minSize.

(** The test of the pairwise loop. *)
Definition shouldUnion (a b : Ring) : bool :=
  PatternType_eqb (pattern_type a) (pattern_type b)
  && Qltb (1 # 2) (overlapRatio a b).

(** The inner loop [for j = i + 1 ..]; [later] is [rings] from index [j]. *)
Fixpoint pairLoopInner (ringI : Ring) (i j : nat) (later : list Ring)
  (parent : list nat) : list nat :=
  match later with
  | [] => parent
  | ringJ :: rest =>
      pairLoopInner ringI i (S j) rest
        (if shouldUnion ringI ringJ then union parent i j else parent)
  end.

(** The outer loop [for i = 0 ..]; [fromI] is [rings] from index [i]. *)
Fixpoint pairLoop (i : nat) (fromI : list Ring) (parent : list nat)
  : list nat :=
  match fromI with
  | [] => parent
  | ringI :: rest => pairLoop (S i) rest (pairLoopInner ringI i (S i) rest parent)
  end.

(** [groups]: a [Map] from a root index to the rings under it. *)
Fixpoint groupPush (groups : list (nat * list Ring)) (root : nat) (r : Ring)
  : list (nat * list Ring) :=
  match groups with
  | [] => [(root, [r])]
  | (k, g) :: rest =>
      if (k =? root)%nat then (k, g ++ [r]) :: rest
      else (k, g) :: groupPush rest root r
  end.

(** The loop that groups the rings by root; [fromI] is [rings] from
    index [i]. *)
Fixpoint groupLoop (i : nat) (fromI : list Ring) (parent : list nat)
  (groups : list (nat * list Ring)) : list (nat * list Ring) :=
  match fromI with
  | [] => groups
  | r :: rest =>
      let '(parent', root) := find parent i in
      groupLoop (S i) rest parent' (groupPush groups root r)
  end.

(** The ring built from a group of two or more. *)
Definition mergeGroup (first : Ring) (group : list Ring) : Ring :=
  {| ring_id := ring_id first;
     member_accounts := setOf (flat_map member_accounts group);
     pattern_type := pattern_type first;
     risk_score := fold_left (fun m r => Math_max m (risk_score r)) group 0;
     cycle_length := None;
     chain_length := None;
     amount_pattern := None;
     temporal_window_hours := None;
     aggregatorNode := None;
     disperserNode := None;
     risk_label := None;
     risk_details := None |}.

Definition mergeOne (group : list Ring) : list Ring :=
  match group with
  | [] => []
  | [single] => [single]
  | first :: _ => [mergeGroup first group]
  end.

(** The groups [_mergeOverlappingRings] forms, in the order of the [Map]. *)
Definition ringGroups (rings : list Ring) : list (list Ring) :=
  let parent := pairLoop 0 rings (seq 0 (List.length rings)) in
  map snd (groupLoop 0 rings parent []).

Definition _mergeOverlappingRings (rings : list Ring) : list Ring :=
  if (List.length rings <=? 1)%nat then rings
  else flat_map mergeOne (ringGroups rings).

(** ** [_addAccountSuspicion] *)

Record Suspicion : Type := mkSuspicion {
  maxScore : Q;
  patterns : list string;
  ringIds : list string
}.

Definition _addAccountSuspicion (m : Map Suspicion) (accountId : string)
  (score : Q) (pattern ringId : string) : Map Suspicion :=
  let m1 := if mhas m accountId then m
            else mset m accountId (mkSuspicion score [] []) in
  match mget m1 accountId with
  | None => m1
  | Some data =>
      mset m1 accountId
        {| maxScore := Math_max (maxScore data) score;
           patterns := sadd (patterns data) pattern;
           ringIds := if shas (ringIds data) ringId then ringIds data
                      else ringIds data ++ [ringId] |}
  end.

(** ** [analyze] *)

(** [String(n).padStart(3, '0')]. *)
Definition padStart3 (s : string) : string :=
  match String.length s with
  | 0%nat => String.append "000" s
  | 1%nat => String.append "00" s
  | 2%nat => String.append "0" s
  | _ => s
  end.

Definition ringIdOf (n : nat) : string :=
  String.append "RING_" (padStart3 (natToString n)).

Record BuildRings : Type := mkBuildRings {
  ringCounter : nat;
  fraudRings : list Ring;
  accountSuspicionMap : Map Suspicion
}.

Definition plainRing (id : string) (members : list string) (p : PatternType)
  (score : Q) : Ring :=
  {| ring_id := id; member_accounts := members; pattern_type := p;
     risk_score := score;
     cycle_length := None; chain_length := None; amount_pattern := None;
     temporal_window_hours := None; aggregatorNode := None;
     disperserNode := None; risk_label := None; risk_details := None |}.

Definition addCycle (scoreCycle : list string -> Q) (st : BuildRings)
  (cyc : list string) : BuildRings :=
  let ringId := ringIdOf (ringCounter st) in
  let score := scoreCycle cyc in
  let ring :=
    {| ring_id := ringId; member_accounts := cyc; pattern_type := cycle;
       risk_score := round1 score;
       cycle_length := Some (List.length cyc);
       chain_length := None; amount_pattern := None;
       temporal_window_hours := None; aggregatorNode := None;
       disperserNode := None; risk_label := None; risk_details := None |} in
  let patternStr :=
    String.append "cycle_length_" (natToString (List.length cyc)) in
  mkBuildRings (S (ringCounter st)) (fraudRings st ++ [ring])
    (fold_left
       (fun m account => _addAccountSuspicion m account score patternStr ringId)
       cyc (accountSuspicionMap st)).

(** [x || null] on a node identifier that may be missing. *)
Definition orNull (x : option string) : option string :=
  match x with
  | Some s => if String.eqb s EmptyString then None else Some s
  | None => None
  end.

(** [if (group.temporalWindowHours)]: there and not 0. *)
Definition truthyHours (h : option Q) : bool :=
  match h with
  | Some q => negb (Qeq_bool q 0)
  | None => false
  end.

Definition addSmurfGroup (st : BuildRings) (group : SmurfingDetector.SmurfGroup)
  : BuildRings :=
  let ringId := ringIdOf (ringCounter st) in
  let patternType :=
    match SmurfingDetector.sg_type group with
    | fan_in => fan_in
    | fan_out => fan_out
    | _ => fan_in_fan_out
    end in
  let members := setOf (SmurfingDetector.sg_members group) in
  let score := inject_Z (SmurfingDetector.sg_score group) in
  let ring :=
    {| ring_id := ringId; member_accounts := members;
       pattern_type := patternType;
       risk_score := round1 score;
       cycle_length := None; chain_length := None; amount_pattern := None;
       temporal_window_hours :=
         Some (SmurfingDetector.sg_temporalWindowHours group);
       aggregatorNode := Some (orNull (SmurfingDetector.sg_aggregatorNode group));
       disperserNode := Some (orNull (SmurfingDetector.sg_disperserNode group));
       risk_label := None; risk_details := None |} in
  let isIn :=
    match SmurfingDetector.sg_type group with
    | fan_in | fan_in_fan_out => true
    | _ => false
    end in
  let isOut :=
    match SmurfingDetector.sg_type group with
    | fan_out | fan_in_fan_out => true
    | _ => false
    end in
  let patterns :=
    (if isIn then ["fan_in"%string] else [])
    ++ (if isOut then ["fan_out"%string] else [])
    ++ (if truthyHours (SmurfingDetector.sg_temporalWindowHours group)
        then ["high_velocity"%string] else []) in
  mkBuildRings (S (ringCounter st)) (fraudRings st ++ [ring])
    (fold_left
       (fun m account =>
          fold_left
            (fun m' pattern => _addAccountSuspicion m' account score pattern ringId)
            patterns m)
       members (accountSuspicionMap st)).

Definition addShellChain (st : BuildRings)
  (c : ShellNetworkDetector.ShellChain) : BuildRings :=
  let ringId := ringIdOf (ringCounter st) in
  let members := ShellNetworkDetector.chain c in
  let ring :=
    {| ring_id := ringId; member_accounts := members;
       pattern_type := shell_network;
       risk_score := round1 (ShellNetworkDetector.score c);
       cycle_length := None;
       chain_length := Some (List.length members);
       amount_pattern := Some (ShellNetworkDetector.amountPattern c);
       temporal_window_hours := None; aggregatorNode := None;
       disperserNode := None; risk_label := None; risk_details := None |} in
  mkBuildRings (S (ringCounter st)) (fraudRings st ++ [ring])
    (fold_left
       (fun m account =>
          let isShell :=
            existsb (String.eqb account) (ShellNetworkDetector.shellAccounts c) in
          let pattern :=
            if isShell then "shell_intermediary"%string
            else "shell_network_endpoint"%string in
          _addAccountSuspicion m account (ShellNetworkDetector.score c)
            pattern ringId)
       members (accountSuspicionMap st)).

(** The suspicious accounts read off [accountSuspicionMap]. *)
Definition rawAccounts (m : Map Suspicion) : list Account :=
  map
    (fun entry =>
       {| account_id := fst entry;
          suspicion_score := round1 (maxScore (snd entry));
          detected_patterns := patterns (snd entry);
          acc_ring_id := nth_error (ringIds (snd entry)) 0;
          suspicion_label := None;
          scoring_details := None |}) m.

Definition withRingId (ring : Ring) (id : string) : Ring :=
  {| ring_id := id;
     member_accounts := member_accounts ring;
     pattern_type := pattern_type ring;
     risk_score := risk_score ring;
     cycle_length := cycle_length ring;
     chain_length := chain_length ring;
     amount_pattern := amount_pattern ring;
     temporal_window_hours := temporal_window_hours ring;
     aggregatorNode := aggregatorNode ring;
     disperserNode := disperserNode ring;
     risk_label := risk_label ring;
     risk_details := risk_details ring |}.

(** [mergedRings.map((ring, idx) => ({...ring, ring_id: ...}))]; [idx] is
    the index of the head of [rings]. *)
Fixpoint reassignIds (idx : nat) (rings : list Ring) : list Ring :=
  match rings with
  | [] => []
  | r :: rest => withRingId r (ringIdOf (S idx)) :: reassignIds (S idx) rest
  end.

(** The [Map] from a member to the id of a ring that has it. *)
Definition ringMappingOf (ringsWithIds : list Ring) : Map string :=
  fold_left
    (fun m ring =>
       fold_left (fun m' member => mset m' member (ring_id ring))
         (member_accounts ring) m)
    ringsWithIds [].

(** [ringMapping.get(acc.account_id) || acc.ring_id]. *)
Definition withMappedRing (ringMapping : Map string) (acc : Account) : Account :=
  {| account_id := account_id acc;
     suspicion_score := suspicion_score acc;
     detected_patterns := detected_patterns acc;
     acc_ring_id :=
       match mget ringMapping (account_id acc) with
       | Some id =>
           if String.eqb id EmptyString then acc_ring_id acc else Some id
       | None => acc_ring_id acc
       end;
     suspicion_label := suspicion_label acc;
     scoring_details := scoring_details acc |}.

Record Summary : Type := mkSummary {
  total_accounts_analyzed : nat;
  suspicious_accounts_flagged : nat;
  fraud_rings_detected : nat;
  processing_time_seconds : Q
}.

(** The result of [analyze] without [graph_data], the payload of the graph
    view. *)
Record Results : Type := mkResults {
  suspicious_accounts : list Account;
  fraud_rings : list Ring;
  summary : Summary
}.

Section Analyze.

(** The host: its time zone, and what [Date.now()] returns at the start and
    at the end of the call. *)
Variable getHours : Z -> Z.
Variable startTime : Z.
Variable endTime : Z.

(** Steps 1 to 5 of [analyze]: the raw rings and the suspicion map, before
    the false-positive filter. *)
Definition rawFindings (transactions : list Transaction) : BuildRings :=
  let graph := GraphBuilder.build transactions in
  let adj := adjacencyList graph in
  let rev := reverseAdjList graph in
  let metas := nodeMetadata graph in
  let cycles := CycleDetector.detect adj in
  let smurfingGroups := SmurfingDetector.detect getHours adj rev metas in
  let shellChains := ShellNetworkDetector.detect adj rev metas in
  let st0 := mkBuildRings 1 [] [] in
  let st1 := fold_left (addCycle (CycleDetector.scoreCycle adj metas)) cycles st0 in
  let st2 := fold_left addSmurfGroup smurfingGroups st1 in
  fold_left addShellChain shellChains st2.

(** Step 6 and the merge: the filtered accounts, sorted, and the rings with
    their final ids. *)
Definition filteredFindings (transactions : list Transaction)
  : list Account * list Ring :=
  let graph := GraphBuilder.build transactions in
  let adj := adjacencyList graph in
  let rev := reverseAdjList graph in
  let metas := nodeMetadata graph in
  let st3 := rawFindings transactions in
  let legit := FalsePositiveFilter.detectLegitimate getHours adj rev metas in
  let suspiciousAccounts := rawAccounts (accountSuspicionMap st3) in
  let '(filteredAccounts0, filteredRings) :=
    FalsePositiveFilter.filterResults legit suspiciousAccounts (fraudRings st3) in
  let filteredAccounts := sortWith ScoringEngine.byScoreDesc filteredAccounts0 in
  let mergedRings := _mergeOverlappingRings filteredRings in
  (filteredAccounts, reassignIds 0 mergedRings).

Definition analyze (transactions : list Transaction) : Results :=
  let graph := GraphBuilder.build transactions in
  let adj := adjacencyList graph in
  let rev := reverseAdjList graph in
  let metas := nodeMetadata graph in
  let '(filteredAccounts, ringsWithIds) := filteredFindings transactions in
  let ringMapping := ringMappingOf ringsWithIds in
  let accountsWithRingIds := map (withMappedRing ringMapping) filteredAccounts in
  let scoredAccounts := ScoringEngine.scoreAllAccounts metas accountsWithRingIds in
  let scoredRings :=
    ScoringEngine.scoreAllRings transactions adj rev metas ringsWithIds
      scoredAccounts in
  let processingTime := inject_Z (endTime - startTime) / 1000 in
  {| suspicious_accounts := scoredAccounts;
     fraud_rings := scoredRings;
     summary :=
       {| total_accounts_analyzed := List.length (nodes graph);
          suspicious_accounts_flagged := List.length scoredAccounts;
          fraud_rings_detected := List.length scoredRings;
          processing_time_seconds := round1 processingTime |} |}.

End Analyze.

End ForensicsEngine.

(* ================================================================== *)
(** * server.js: [validateTransactions] *)
(* ================================================================== *)

Module Validation.

(** A number as [parseFloat] returns it. *)
Inductive JSNumber : Type :=
| NaN | Finite (q : Q) | PosInfinity | NegInfinity.

(** A row as [parseCSV] pushes it: a column that is missing is
    [undefined], [amount] went through [parseFloat]. *)
Record Row : Type := mkRow {
  row_transaction_id : option string;
  row_sender_id : option string;
  row_receiver_id : option string;
  row_amount : JSNumber;
  row_timestamp : option string
}.

(** [!s] on a string or [undefined]. *)
Definition falsy (s : option string) : bool :=
  match s with
  | Some s' => String.eqb s' EmptyString
  | None => true
  end.

Definition isNaN (x : JSNumber) : bool :=
  match x with NaN => true | _ => false end.

(** [x <= 0]. *)
Definition leZero (x : JSNumber) : bool :=
  match x with
  | NaN => false
  | Finite q => Qleb q 0
  | PosInfinity => false
  | NegInfinity => true
  end.

(** [a === b] on two fields. *)
Definition sameField (a b : option string) : bool :=
  match a, b with
  | Some x, Some y => String.eqb x y
  | None, None => true
  | _, _ => false
  end.

(** What an entry of [errors] says, without its wording: the row number
    and the value the message quotes. *)
Inductive RowError : Type :=
| MissingTransactionId
| MissingSenderId
| MissingReceiverId
| InvalidAmount (a : JSNumber)
| InvalidTimestamp (t : option string)
| SelfTransfer (id : option string).

(** The value [validateTransactions] returns. *)
Inductive Verdict : Type :=
| Invalid (error : string) (details : option (list (nat * RowError)))
| Valid.

Section Validate.

(** [Date.parse], with [None] for [NaN]. *)
Variable dateParse : string -> option Z.

(** [!tx.timestamp || isNaN(Date.parse(tx.timestamp))]. *)
Definition badTimestamp (t : option string) : bool :=
  falsy t
  || match t with
     | Some s => match dateParse s with Some _ => false | None => true end
     | None => true
     end.

(** The checks of the loop body, in order; [None] when the row reaches
    [validTransactions.push(tx)]. *)
Definition checkRow (tx : Row) : option RowError :=
  if falsy (row_transaction_id tx) then Some MissingTransactionId
  else if falsy (row_sender_id tx) then Some MissingSenderId
  else if falsy (row_receiver_id tx) then Some MissingReceiverId
  else if isNaN (row_amount tx) || leZero (row_amount tx)
  then Some (InvalidAmount (row_amount tx))
  else if badTimestamp (row_timestamp tx)
  then Some (InvalidTimestamp (row_timestamp tx))
  else if sameField (row_sender_id tx) (row_receiver_id tx)
  then Some (SelfTransfer (row_sender_id tx))
  else None.

(** The loop over the rows; [i] is the index of the head of [rows]. *)
Fixpoint validateLoop (i : nat) (rows : list Row)
  (errors : list (nat * RowError)) (validTransactions : list Row)
  : list (nat * RowError) * list Row :=
  match rows with
  | [] => (errors, validTransactions)
  | tx :: rest =>
      let rowNum := (i + 2)%nat in
      match checkRow tx with
      | Some e => validateLoop (S i) rest (errors ++ [(rowNum, e)]) validTransactions
      | None => validateLoop (S i) rest errors (validTransactions ++ [tx])
      end
  end.

(** The verdict, and the array [transactions] as the call leaves it: the
    valid rows replace its content when there is one. *)
Definition validateTransactions (transactions : list Row)
  : Verdict * list Row :=
  match transactions with
  | [] => (Invalid "CSV file is empty or has no valid rows" None, transactions)
  | _ =>
      let '(errors, validTransactions) := validateLoop 0 transactions [] [] in
      match validTransactions with
      | [] =>
          (Invalid "No valid transactions found in CSV"
             (Some (firstn 20 errors)), transactions)
      | _ => (Valid, validTransactions)
      end
  end.

End Validate.

End Validation.

(* ================================================================== *)
(** * Sample inputs *)
(* ================================================================== *)

Module Samples.

Local Open Scope string_scope.

(** A host that runs in UTC. *)
Definition utcHours (t : Z) : Z := ((t / 3600000) mod 24)%Z.

Definition tx (id s r : string) (a : Q) (t : Z) : Transaction :=
  mkTransaction id s r a t.

(** Minutes after 2026-01-06 10:00 UTC. *)
Definition minute (x : Z) : Z := (1767693600000 + x * 60000)%Z.

(** Scenario 1 of the specification: an exact pass-through chain. *)
Definition passThrough : list Transaction :=
  [ tx "T13" "O1" "SH1" 200000 (minute 0);
    tx "T14" "SH1" "SH2" 200000 (minute 8);
    tx "T15" "SH2" "SH3" 200000 (minute 15);
    tx "T16" "SH3" "E1" 200000 (minute 23) ].

(** Two shell chains that differ in their last node only. *)
Definition forkedChain : list Transaction :=
  [ tx "T1" "O1" "S1" 100 (minute 0);
    tx "T2" "S1" "S2" 100 (minute 8);
    tx "T3" "S2" "E1" 50 (minute 15);
    tx "T4" "S2" "E2" 50 (minute 23) ].

(** Four shell chains: three overlap pairwise by more than half, the
    fourth ([f1 -> u -> v -> f2]) shares two of its four nodes with each of
    two of them. *)
Definition braidedChains : list Transaction :=
  [ tx "T1" "f1" "u" 100 (minute 0);
    tx "T2" "u" "a2" 100 (minute 1);
    tx "T3" "a2" "a3" 100 (minute 2);
    tx "T4" "a3" "a4" 100 (minute 3);
    tx "T5" "a4" "a5" 100 (minute 4);
    tx "T6" "a5" "ea" 100 (minute 5);
    tx "T7" "sb" "a2" 100 (minute 1);
    tx "T8" "a5" "v" 100 (minute 5);
    tx "T9" "u" "v" 100 (minute 6);
    tx "T10" "v" "f2" 100 (minute 7) ].

(** Two transactions of one account, exactly 72 hours apart. *)
Definition seventyTwoHoursApart : list Z := [0; 259200000]%Z.


(** Scenario 4 of the specification: twelve senders pay 9,500 each to
    [H] within four hours. *)
Definition fanInSmurf : list Transaction :=
  [
    tx "F01" "S01" "H" 9500 (minute 0);
    tx "F02" "S02" "H" 9500 (minute 20);
    tx "F03" "S03" "H" 9500 (minute 40);
    tx "F04" "S04" "H" 9500 (minute 60);
    tx "F05" "S05" "H" 9500 (minute 80);
    tx "F06" "S06" "H" 9500 (minute 100);
    tx "F07" "S07" "H" 9500 (minute 120);
    tx "F08" "S08" "H" 9500 (minute 140);
    tx "F09" "S09" "H" 9500 (minute 160);
    tx "F10" "S10" "H" 9500 (minute 180);
    tx "F11" "S11" "H" 9500 (minute 200);
    tx "F12" "S12" "H" 9500 (minute 220) ].

(** Three cycle rings after the filter: the first two share two of three
    members, the third shares one member with each of them. *)
Definition threeCycleRings : list Ring :=
  [ ForensicsEngine.plainRing "RING_001" ["1"; "2"; "3"] cycle 80;
    ForensicsEngine.plainRing "RING_002" ["2"; "3"; "4"] cycle 75;
    ForensicsEngine.plainRing "RING_003" ["1"; "4"; "5"] cycle 70 ].

(** A merchant [M] with ten customers over ten days, a cycle
    [M -> X -> Y -> M], and four more payments by [X]. *)
Definition merchantCycle : list Transaction :=
  [ tx "P01" "C01" "M" 12 (minute 0);
    tx "P02" "C02" "M" 45 (minute 1440);
    tx "P03" "C03" "M" 230 (minute 2880);
    tx "P04" "C04" "M" 18 (minute 4320);
    tx "P05" "C05" "M" 480 (minute 5760);
    tx "P06" "C06" "M" 75 (minute 7200);
    tx "P07" "C07" "M" 310 (minute 8640);
    tx "P08" "C08" "M" 9 (minute 10080);
    tx "P09" "C09" "M" 150 (minute 11520);
    tx "P10" "C10" "M" 60 (minute 12960);
    tx "K1" "M" "X" 500 (minute 12960);
    tx "K2" "X" "Y" 490 (minute 12960);
    tx "K3" "Y" "M" 480 (minute 12960);
    tx "X1" "X" "Z1" 5 (minute 14400);
    tx "X2" "X" "Z2" 5 (minute 14400);
    tx "X3" "X" "Z3" 5 (minute 14400);
    tx "X4" "X" "Z4" 5 (minute 14400) ].

(** One transfer. *)
Definition singleTransfer : list Transaction :=
  [ tx "T1" "A" "B" 100 (minute 0) ].

(** Five payments one hour apart. *)
Definition hourlyBatch : list Z :=
  [0; 3600000; 7200000; 10800000; 14400000]%Z.

(** Five payments, two of the four gaps a day long. *)
Definition twoDailyGaps : list Z :=
  [0; 86400000; 172800000; 180000000; 190000000]%Z.

End Samples.

(* ================================================================== *)
(** * The rules as the specification words them *)
(* ================================================================== *)

Module Spec.

Local Open Scope Q_scope.

(** The regular-interval rule of the legitimacy penalty, with the tolerance
    window [(lo, hi)] as a parameter: at least five timestamps, and for one
    of the intervals 1, 7, 14, 30 days more than 50% of the deltas have a
    ratio to it inside the window. *)
Definition regularIntervalRule (lo hi : Q) (timestamps : list Z) : bool :=
  (5 <=? List.length timestamps)%nat
  && existsb
       (fun interval =>
          SmurfingDetector.fractionGt
            (SmurfingDetector.countIf
               (SmurfingDetector.closeToInterval lo hi interval)
               (deltasZ timestamps))
            (List.length (deltasZ timestamps)) (1 # 2))
       [SmurfingDetector.dayMs; (7 * SmurfingDetector.dayMs)%Z;
        (14 * SmurfingDetector.dayMs)%Z; (30 * SmurfingDetector.dayMs)%Z].

(** The number of timestamps in the closed window [[t, t + 72h]]. *)
Definition closedWindowCount (ts : list Z) (t : Z) : nat :=
  List.length
    (List.filter
       (fun u => ((t <=? u) && (u <=? t + ScoringEngine.window72h))%Z) ts).

(** The number of timestamps in the right-open window [[t, t + 72h)]. *)
Definition rightOpenWindowCount (ts : list Z) (t : Z) : nat :=
  List.length
    (List.filter
       (fun u => ((t <=? u) && (u <? t + ScoringEngine.window72h))%Z) ts).

(** The largest count over the windows that start at a timestamp. *)
Definition maxWindowCount (count : list Z -> Z -> nat) (ts : list Z) : nat :=
  list_max (map (count ts) ts).

(** The velocity of the specification: a right-open window. *)
Definition velocityRightOpen (ts : list Z) : Q :=
  if (List.length ts <=? 1)%nat then 1
  else nQ (maxWindowCount rightOpenWindowCount ts) / nQ (List.length ts).


(** [PTR = min(total_in, total_out) / max(total_in, total_out)], 0 if the
    max is 0. *)
Definition passThroughRate (total_in total_out : Q) : Q :=
  if Qeq_bool (Math_max total_in total_out) 0 then 0
  else Math_min total_in total_out / Math_max total_in total_out.

(** [FPP = 50] if [tx_count > 50] and [PTR < 0.3], else 0. *)
Definition falsePositivePenalty (tx_count : nat) (ptr : Q) : Q :=
  if (50 <? tx_count)%nat && Qltb ptr (3 # 10) then 50 else 0.




(** Hop amounts that never increase and never drop by more than 10,000
    from one hop to the next. *)
Fixpoint coherentAmounts (amounts : list Q) : Prop :=
  match amounts with
  | a :: (b :: _) as rest =>
      b <= a /\ a - b <= 10000 /\ coherentAmounts rest
  | _ => True
  end.

(** The shell predicate: [tx_count <= 3], [in_degree >= 1],
    [out_degree >= 1]. *)
Definition isShell (meta : NodeMeta) : Prop :=
  (txCount meta <= 3)%nat /\ (1 <= inDegree meta)%nat
  /\ (1 <= outDegree meta)%nat.

End Spec.

(* ================================================================== *)
(** * Notions used in the proofs *)
(* ================================================================== *)

Module Facts.

Local Open Scope Q_scope.




(** The amounts appended after [prev] respect the coherence bound. *)
Fixpoint stepsCoherent (prev : Q) (ext : list Q) : Prop :=
  match ext with
  | [] => True
  | a :: rest => a <= prev /\ prev - a <= 10000 /\ stepsCoherent a rest
  end.

(** [rootAt parent x r k]: following [parent] from [x] reaches the root
    [r] after [k] steps. *)
Inductive rootAt (parent : list nat) : nat -> nat -> nat -> Prop :=
| root_here (x : nat) :
    (x < List.length parent)%nat ->
    ForensicsEngine.getNth parent x = x ->
    rootAt parent x x 0
| root_up (x r k : nat) :
    (x < List.length parent)%nat ->
    ForensicsEngine.getNth parent x <> x ->
    rootAt parent (ForensicsEngine.getNth parent x) r k ->
    rootAt parent x r (S k).

(** The number of indices that are not their own parent. *)
Definition nonRoots (parent : list nat) : nat :=
  List.length
    (List.filter (fun i => negb (ForensicsEngine.getNth parent i =? i)%nat)
       (seq 0 (List.length parent))).

(** Every index has a root, no further away than there are non-roots. *)
Definition forest (parent : list nat) : Prop :=
  forall x, (x < List.length parent)%nat ->
            exists r k, rootAt parent x r k /\ (k <= nonRoots parent)%nat.

(** Two indices are in one component. *)
Definition sameRoot (parent : list nat) (x y : nat) : Prop :=
  exists r kx ky, rootAt parent x r kx /\ rootAt parent y r ky.

(** [parent'] has every index under the root it has in [parent], no
    further away. *)
Definition keepsRoots (parent parent' : list nat) : Prop :=
  forall z r k, rootAt parent z r k ->
                exists k', (k' <= k)%nat /\ rootAt parent' z r k'.

(** [groups.get(root)]. *)
Fixpoint glookup (groups : list (nat * list Ring)) (root : nat)
  : option (list Ring) :=
  match groups with
  | [] => None
  | (k, g) :: rest => if (k =? root)%nat then Some g else glookup rest root
  end.

(** The first ring id of an account after a call of
    [_addAccountSuspicion] with ring id [id]: the one it had, or [id]. *)
Definition firstRing (m : Map ForensicsEngine.Suspicion) (a id : string)
  : option string :=
  match mget m a with
  | Some d =>
      match nth_error (ForensicsEngine.ringIds d) 0 with
      | Some x => Some x
      | None => Some id
      end
  | None => Some id
  end.

(** An update of the suspicion map for one account and one ring id:
    it changes the entry of that account only, leaves the account with an
    entry, and keeps its first ring id if it had one. *)
Definition touches (id : string)
  (U : Map ForensicsEngine.Suspicion -> string -> Map ForensicsEngine.Suspicion)
  : Prop :=
  forall m a,
    NoDup (mkeys m) ->
    NoDup (mkeys (U m a))
    /\ (forall a', a' <> a -> mget (U m a) a' = mget m a')
    /\ exists d', mget (U m a) a = Some d'
                  /\ nth_error (ForensicsEngine.ringIds d') 0 = firstRing m a id.

(** [r] is the first ring of [rings] that has [a] as a member. *)
Definition firstRingWith (rings : list Ring) (a : string) (r : Ring) : Prop :=
  exists pre post,
    rings = pre ++ r :: post
    /\ In a (member_accounts r)
    /\ forall r', In r' pre -> ~ In a (member_accounts r').

(** [r] is the last ring of [rings] that has [a] as a member. *)
Definition lastRingWith (rings : list Ring) (a : string) (r : Ring) : Prop :=
  exists pre post,
    rings = pre ++ r :: post
    /\ In a (member_accounts r)
    /\ forall r', In r' post -> ~ In a (member_accounts r').

(** The raw rings and the suspicion map agree: every account of the map
    starts its [ringIds] with the id of the first raw ring it is a member
    of, and every member of a raw ring is in the map. *)
Definition ringsAgree (st : ForensicsEngine.BuildRings) : Prop :=
  NoDup (mkeys (ForensicsEngine.accountSuspicionMap st))
  /\ (forall a d,
        mget (ForensicsEngine.accountSuspicionMap st) a = Some d ->
        exists r, firstRingWith (ForensicsEngine.fraudRings st) a r
                  /\ nth_error (ForensicsEngine.ringIds d) 0
                     = Some (ring_id r))
  /\ (forall r a,
        In r (ForensicsEngine.fraudRings st) -> In a (member_accounts r) ->
        mget (ForensicsEngine.accountSuspicionMap st) a <> None).

(** A smurf group has one of the three fan types. *)
Definition smurfType (g : SmurfingDetector.SmurfGroup) : Prop :=
  SmurfingDetector.sg_type g = fan_in
  \/ SmurfingDetector.sg_type g = fan_out
  \/ SmurfingDetector.sg_type g = fan_in_fan_out.

(** The adjacency entries of the transactions that [n] sent, in input
    order. *)
Definition sentEdges (n : string) (txs : list Transaction) : list AdjEdge :=
  map (fun tx => mkAdjEdge (receiver_id tx) (amount tx) (timestamp tx)
                   (transaction_id tx))
    (List.filter (fun tx => String.eqb (sender_id tx) n) txs).

(** The reverse adjacency entries of the transactions that [n] received, in
    input order. *)
Definition receivedEdges (n : string) (txs : list Transaction) : list AdjEdge :=
  map (fun tx => mkAdjEdge (sender_id tx) (amount tx) (timestamp tx)
                   (transaction_id tx))
    (List.filter (fun tx => String.eqb (receiver_id tx) n) txs).

(** The account identifiers of the input, sender before receiver. *)
Definition parties (txs : list Transaction) : list string :=
  flat_map (fun tx => [sender_id tx; receiver_id tx]) txs.

(** A row passes every check of [validateTransactions]. *)
Definition rowOk (dateParse : string -> option Z) (tx : Validation.Row) : bool :=
  match Validation.checkRow dateParse tx with
  | Some _ => false
  | None => true
  end.

(** The errors of the rows that fail a check, with their row numbers; [i]
    is the index of the head of [rows]. *)
Fixpoint rowErrors (dateParse : string -> option Z) (i : nat)
  (rows : list Validation.Row) : list (nat * Validation.RowError) :=
  match rows with
  | [] => []
  | tx :: rest =>
      match Validation.checkRow dateParse tx with
      | Some e => ((i + 2)%nat, e) :: rowErrors dateParse (S i) rest
      | None => rowErrors dateParse (S i) rest
      end
  end.

(** [adj] has an edge from [a] to [b]. *)
Definition hasEdge (adj : Map (list AdjEdge)) (a b : string) : Prop :=
  exists e, In e (GraphBuilder.edgesOf adj a) /\ peer e = b.

(** Each node of [path] has an edge to the next one. *)
Fixpoint followsEdges (adj : Map (list AdjEdge)) (path : list string) : Prop :=
  match path with
  | [] => True
  | a :: rest =>
      match rest with
      | [] => True
      | b :: _ => hasEdge adj a b /\ followsEdges adj rest
      end
  end.

(** What [CycleDetector.detect] promises of a cycle: 3 to 5 distinct nodes,
    an edge from each to the next and from the last to the first, and the
    smallest node first. *)
Definition simpleCycle (adj : Map (list AdjEdge)) (cyc : list string) : Prop :=
  (3 <= List.length cyc <= 5)%nat
  /\ NoDup cyc
  /\ followsEdges adj cyc
  /\ hasEdge adj (last cyc EmptyString) (hd EmptyString cyc)
  /\ Forall (fun x => String.leb (hd EmptyString cyc) x = true) cyc.

(** The key under which [_deduplicateCycles] remembers a cycle. *)
Definition cycleKey (cyc : list string) : string :=
  join "|" (CycleDetector._canonicalize cyc).

(** The state of [_dfs]: [path] starts at [startNode], ends at
    [currentNode], follows edges, repeats no node, holds no node below
    [startNode], and [visitedInPath] has its nodes. *)
Definition dfsState (adj : Map (list AdjEdge)) (startNode currentNode : string)
  (path visitedInPath : list string) : Prop :=
  hd EmptyString path = startNode
  /\ last path EmptyString = currentNode
  /\ path <> []
  /\ NoDup path
  /\ followsEdges adj path
  /\ Forall (fun x => String.leb startNode x = true) path
  /\ forall x, In x visitedInPath <-> In x path.

(** The distinct accounts that sent to [n], in the order of their first
    transaction. *)
Definition sendersTo (n : string) (txs : list Transaction) : list string :=
  setOf (map sender_id
           (List.filter (fun tx => String.eqb (receiver_id tx) n) txs)).

(** The distinct accounts that received from [n], in the order of their
    first transaction. *)
Definition receiversFrom (n : string) (txs : list Transaction) : list string :=
  setOf (map receiver_id
           (List.filter (fun tx => String.eqb (sender_id tx) n) txs)).

(** A smurf group is centred on a node of the input and lists that node
    first, then its distinct counterparties, at least ten on each side the
    type names. *)
Definition hubGroup (txs : list Transaction) (g : SmurfingDetector.SmurfGroup)
  : Prop :=
  exists node,
    match SmurfingDetector.sg_type g with
    | fan_in =>
        SmurfingDetector.sg_aggregatorNode g = Some node
        /\ SmurfingDetector.sg_disperserNode g = None
        /\ SmurfingDetector.sg_members g = node :: sendersTo node txs
        /\ (10 <= List.length (sendersTo node txs))%nat
    | fan_out =>
        SmurfingDetector.sg_aggregatorNode g = None
        /\ SmurfingDetector.sg_disperserNode g = Some node
        /\ SmurfingDetector.sg_members g = node :: receiversFrom node txs
        /\ (10 <= List.length (receiversFrom node txs))%nat
    | fan_in_fan_out =>
        SmurfingDetector.sg_aggregatorNode g = Some node
        /\ SmurfingDetector.sg_disperserNode g = Some node
        /\ SmurfingDetector.sg_members g
           = node :: sendersTo node txs ++ receiversFrom node txs
        /\ (10 <= List.length (sendersTo node txs))%nat
        /\ (10 <= List.length (receiversFrom node txs))%nat
    | _ => False
    end.

(** The input has a transaction from [a] to [b] of amount [x] at instant
    [t]. *)
Definition isTransfer (txs : list Transaction) (a b : string) (x : Q) (t : Z)
  : Prop :=
  exists tx, In tx txs /\ sender_id tx = a /\ receiver_id tx = b
             /\ amount tx = x /\ timestamp tx = t.

(** Each hop of [path] is a transaction of the input, with the amount and
    the instant recorded for it. *)
Fixpoint hopsAre (txs : list Transaction) (path : list string)
  (amounts : list Q) (timestamps : list Z) : Prop :=
  match path with
  | [] => False
  | a :: rest =>
      match rest with
      | [] => amounts = [] /\ timestamps = []
      | b :: _ =>
          match amounts, timestamps with
          | x :: xs, t :: ts => isTransfer txs a b x t /\ hopsAre txs rest xs ts
          | _, _ => False
          end
      end
  end.

(** What a chain records about itself: its nodes are distinct, its hops are
    transactions of the input, and its other fields are computed from its
    nodes, amounts and instants. *)
Definition chainRecord (txs : list Transaction) (metas : Map NodeMeta)
  (shellNodes : list string) (c : ShellNetworkDetector.ShellChain) : Prop :=
  NoDup (ShellNetworkDetector.chain c)
  /\ hopsAre txs (ShellNetworkDetector.chain c)
       (ShellNetworkDetector.amounts c) (ShellNetworkDetector.timestamps c)
  /\ (4 <= List.length (ShellNetworkDetector.chain c))%nat
  /\ ShellNetworkDetector.shellAccounts c
     = ShellNetworkDetector.interior (ShellNetworkDetector.chain c)
  /\ ShellNetworkDetector.amountPattern c
     = ShellNetworkDetector._classifyAmountPattern
         (ShellNetworkDetector.amounts c)
  /\ ShellNetworkDetector.score c
     = ShellNetworkDetector._scoreChain metas (ShellNetworkDetector.chain c)
         (ShellNetworkDetector.amounts c) (ShellNetworkDetector.timestamps c)
         shellNodes.

(** What [detectLegitimate] keeps true of its two sets: neither repeats an
    account; a hub is a legitimate account and a node with ten or more
    distinct counterparties on one side; any other legitimate account has
    at most five transactions and is a counterparty of a hub. *)
Definition legitState (adj rev : Map (list AdjEdge)) (metas : Map NodeMeta)
  (st : FalsePositiveFilter.Legit) : Prop :=
  NoDup (FalsePositiveFilter.legitimateAccounts st)
  /\ NoDup (FalsePositiveFilter.legitimateHubs st)
  /\ incl (FalsePositiveFilter.legitimateHubs st)
       (FalsePositiveFilter.legitimateAccounts st)
  /\ (forall h, In h (FalsePositiveFilter.legitimateHubs st) ->
        exists meta, In (h, meta) metas
                     /\ ((10 <= uniqueSenders meta)%nat
                         \/ (10 <= uniqueReceivers meta)%nat))
  /\ (forall a, In a (FalsePositiveFilter.legitimateAccounts st) ->
        In a (FalsePositiveFilter.legitimateHubs st)
        \/ exists meta h e,
             mget metas a = Some meta
             /\ (txCount meta <= 5)%nat
             /\ In h (FalsePositiveFilter.legitimateHubs st)
             /\ (In e (GraphBuilder.edgesOf adj h)
                 \/ In e (GraphBuilder.edgesOf rev h))
             /\ peer e = a).

(** The number a ring identifier carries after [RING_]. *)
Definition ringIndexOf (id : string) : option nat :=
  if String.prefix "RING_" id
  then option_map Nat.of_uint
         (NilEmpty.uint_of_string (substring 5 (String.length id - 5) id))
  else None.

(** Where a raw ring comes from: a cycle, a smurf group or a shell chain
    that the detectors found on the graph of [txs], whose accounts are its
    members. *)
Definition rawRingOrigin (getHours : Z -> Z) (txs : list Transaction)
  (r : Ring) : Prop :=
  let g := GraphBuilder.build txs in
  (exists cyc,
      In cyc (CycleDetector.detect (adjacencyList g))
      /\ member_accounts r = cyc /\ pattern_type r = cycle)
  \/ (exists grp,
         In grp (SmurfingDetector.detect getHours (adjacencyList g)
                   (reverseAdjList g) (nodeMetadata g))
         /\ member_accounts r = setOf (SmurfingDetector.sg_members grp))
  \/ (exists c,
         In c (ShellNetworkDetector.detect (adjacencyList g)
                 (reverseAdjList g) (nodeMetadata g))
         /\ member_accounts r = ShellNetworkDetector.chain c
         /\ pattern_type r = shell_network).

(** An account of the input: the sender or the receiver of a
    transaction. *)
Definition isParty (txs : list Transaction) (a : string) : Prop :=
  exists tx, In tx txs /\ (sender_id tx = a \/ receiver_id tx = a).

End Facts.
Import Facts.

(* ================================================================== *)
(** * Lemmas on the containers *)
(* ================================================================== *)

Section ContainerLemmas.

Lemma shas_In (s : list string) (x : string) : shas s x = true <-> In x s.
Proof.
  unfold shas. rewrite existsb_exists. split.
  - intros [y [Hy Heq]]. apply String.eqb_eq in Heq. now subst.
  - intros H. exists x. split; [assumption | apply String.eqb_refl].
Qed.

Lemma shas_false (s : list string) (x : string) :
  shas s x = false <-> ~ In x s.
Proof.
  rewrite <- shas_In. destruct (shas s x); split; congruence.
Qed.

Lemma sadd_In (s : list string) (x y : string) :
  In y (sadd s x) <-> In y s \/ y = x.
Proof.
  unfold sadd. destruct (shas s x) eqn:E.
  - apply shas_In in E. split; [tauto | intros [H | ->]; assumption].
  - rewrite in_app_iff. simpl. split; intros [H | H]; auto.
    + destruct H as [H | []]; auto.
Qed.

Lemma fold_sadd_In (l acc : list string) (y : string) :
  In y (fold_left sadd l acc) <-> In y acc \/ In y l.
Proof.
  revert acc. induction l as [| x l IH]; intros acc; simpl.
  - tauto.
  - rewrite IH, sadd_In. split; intros H; intuition auto.
Qed.

Lemma setOf_In (l : list string) (y : string) : In y (setOf l) <-> In y l.
Proof. unfold setOf. rewrite fold_sadd_In. simpl. tauto. Qed.

Lemma sadd_NoDup (s : list string) (x : string) :
  NoDup s -> NoDup (sadd s x).
Proof.
  intros H. unfold sadd. destruct (shas s x) eqn:E; [assumption |].
  apply shas_false in E. apply NoDup_app; auto.
  - constructor; [intros [] | constructor].
  - intros y Hy [Hx | []]. subst. contradiction.
Qed.

Lemma setOf_NoDup (l : list string) : NoDup (setOf l).
Proof.
  unfold setOf. assert (H : NoDup (@nil string)) by constructor.
  revert H. generalize (@nil string). induction l as [| x l IH]; intros acc H.
  - exact H.
  - simpl. apply IH, sadd_NoDup, H.
Qed.

(** ** Sorting *)

Variable A : Type.
Variable before : A -> A -> bool.

Lemma insertSorted_length (x : A) (l : list A) :
  List.length (insertSorted before x l) = S (List.length l).
Proof.
  induction l as [| y l IH]; simpl; [reflexivity |].
  destruct (before y x); simpl; [now rewrite IH | reflexivity].
Qed.

Lemma sortWith_length (l : list A) :
  List.length (sortWith before l) = List.length l.
Proof.
  induction l as [| x l IH]; simpl; [reflexivity |].
  now rewrite insertSorted_length, IH.
Qed.

Lemma insertSorted_In (x y : A) (l : list A) :
  In y (insertSorted before x l) <-> y = x \/ In y l.
Proof.
  induction l as [| z l IH]; simpl.
  - split; intros [H | H]; auto.
  - destruct (before z x); simpl; [rewrite IH |]; split; intros H; intuition auto.
Qed.

Lemma sortWith_In (y : A) (l : list A) : In y (sortWith before l) <-> In y l.
Proof.
  induction l as [| x l IH]; simpl; [tauto |].
  rewrite insertSorted_In, IH. split; intros [H | H]; auto.
Qed.

Lemma insertSorted_filter_length (f : A -> bool) (x : A) (l : list A) :
  List.length (List.filter f (insertSorted before x l))
  = List.length (List.filter f (x :: l)).
Proof.
  induction l as [| y l IH]; [reflexivity |].
  simpl insertSorted. destruct (before y x); [| reflexivity].
  simpl in *. destruct (f y), (f x); simpl in *; lia.
Qed.

Lemma sortWith_filter_length (f : A -> bool) (l : list A) :
  List.length (List.filter f (sortWith before l))
  = List.length (List.filter f l).
Proof.
  induction l as [| x l IH]; [reflexivity |].
  simpl sortWith. rewrite insertSorted_filter_length. simpl.
  destruct (f x); simpl; now rewrite IH.
Qed.

End ContainerLemmas.

(* ================================================================== *)
(** * Lemmas on numbers and maps *)
(* ================================================================== *)

Lemma Qltb_lt (a b : Q) : Qltb a b = true <-> (a < b)%Q.
Proof.
  unfold Qltb. rewrite negb_true_iff. split.
  - intros H. apply Qnot_le_lt. intros Hle.
    apply Qle_bool_iff in Hle. congruence.
  - intros H. destruct (Qle_bool b a) eqn:E; [| reflexivity].
    apply Qle_bool_iff in E. exfalso. exact (Qlt_not_le _ _ H E).
Qed.

Lemma Qltb_ge (a b : Q) : Qltb a b = false <-> (b <= a)%Q.
Proof.
  unfold Qltb. rewrite negb_false_iff. apply Qle_bool_iff.
Qed.

Lemma Qleb_le (a b : Q) : Qleb a b = true <-> (a <= b)%Q.
Proof. apply Qle_bool_iff. Qed.

Lemma Qleb_gt (a b : Q) : Qleb a b = false <-> (b < a)%Q.
Proof.
  unfold Qleb. split.
  - intros H. apply Qnot_le_lt. intros Hle.
    apply Qle_bool_iff in Hle. congruence.
  - intros H. destruct (Qle_bool a b) eqn:E; [| reflexivity].
    apply Qle_bool_iff in E. exfalso. exact (Qlt_not_le _ _ H E).
Qed.

Lemma mget_mset {V} (m : Map V) (k k' : string) (v : V) :
  mget (mset m k v) k' = if String.eqb k k' then Some v else mget m k'.
Proof.
  induction m as [| [k0 v0] m IH]; simpl.
  - reflexivity.
  - destruct (String.eqb k0 k) eqn:E0; simpl.
    + apply String.eqb_eq in E0. subst k0.
      destruct (String.eqb k k'); reflexivity.
    + destruct (String.eqb k0 k') eqn:E1.
      * apply String.eqb_eq in E1. subst k0.
        rewrite String.eqb_sym, E0. reflexivity.
      * exact IH.
Qed.

Lemma mget_fold_mset {V} (f : string -> V) (keys : list string) (m0 : Map V)
  (k : string) (v : V) :
  mget (fold_left (fun m key => mset m key (f key)) keys m0) k = Some v ->
  v = f k \/ mget m0 k = Some v.
Proof.
  revert m0. induction keys as [| key keys IH]; intros m0 H; simpl in H.
  - now right.
  - apply IH in H. destruct H as [H | H]; [now left |].
    rewrite mget_mset in H. destruct (String.eqb key k) eqn:E.
    + apply String.eqb_eq in E. subst. left. congruence.
    + now right.
Qed.

Lemma mget_In {V} (m : Map V) (k : string) (v : V) :
  mget m k = Some v -> In (k, v) m.
Proof.
  induction m as [| [k0 v0] m IH]; simpl; [discriminate |].
  destruct (String.eqb k0 k) eqn:E.
  - apply String.eqb_eq in E. intros H. left. congruence.
  - intros H. right. auto.
Qed.

Lemma In_mget {V} (m : Map V) (k : string) (v : V) :
  NoDup (mkeys m) -> In (k, v) m -> mget m k = Some v.
Proof.
  induction m as [| [k0 v0] m IH]; simpl; [intros _ [] |].
  intros Hnd [Heq | Hin].
  - inversion Heq. subst. now rewrite String.eqb_refl.
  - inversion Hnd as [| ? ? Hnot Hnd']. subst.
    destruct (String.eqb k0 k) eqn:E.
    + apply String.eqb_eq in E. subst. exfalso. apply Hnot.
      unfold mkeys. change k with (fst (k, v)). now apply in_map.
    + now apply IH.
Qed.

Lemma mkeys_mset {V} (m : Map V) (k : string) (v : V) :
  mkeys (mset m k v) = if mhas m k then mkeys m else mkeys m ++ [k].
Proof.
  unfold mhas. induction m as [| [k0 v0] m IH]; simpl; [reflexivity |].
  destruct (String.eqb k0 k) eqn:E; simpl; [reflexivity |].
  rewrite IH. destruct (mget m k); reflexivity.
Qed.

Lemma mhas_In {V} (m : Map V) (k : string) : mhas m k = true <-> In k (mkeys m).
Proof.
  unfold mhas, mkeys. induction m as [| [k0 v0] m IH]; simpl.
  - split; [discriminate | intros []].
  - destruct (String.eqb k0 k) eqn:E.
    + apply String.eqb_eq in E. subst. split; auto.
    + rewrite IH. apply String.eqb_neq in E. split; [auto | intros [H | H]];
        [contradiction | assumption].
Qed.

Lemma mset_NoDup {V} (m : Map V) (k : string) (v : V) :
  NoDup (mkeys m) -> NoDup (mkeys (mset m k v)).
Proof.
  intros H. rewrite mkeys_mset. destruct (mhas m k) eqn:E; [assumption |].
  assert (Hn : ~ In k (mkeys m)).
  { intros Hin. apply mhas_In in Hin. congruence. }
  apply NoDup_app; auto.
  - constructor; [intros [] | constructor].
  - intros y Hy [Hx | []]. subst. contradiction.
Qed.

Lemma fold_mset_NoDup {V} (f : string -> V) (keys : list string) (m0 : Map V) :
  NoDup (mkeys m0) ->
  NoDup (mkeys (fold_left (fun m key => mset m key (f key)) keys m0)).
Proof.
  revert m0. induction keys as [| key keys IH]; intros m0 H; simpl.
  - exact H.
  - apply IH, mset_NoDup, H.
Qed.

Lemma build_metadata_NoDup (txs : list Transaction) :
  NoDup (mkeys (nodeMetadata (GraphBuilder.build txs))).
Proof.
  unfold GraphBuilder.build. simpl. apply fold_mset_NoDup. constructor.
Qed.

Lemma build_metadata_lookup (txs : list Transaction) (node : string)
  (meta : NodeMeta) :
  mget (nodeMetadata (GraphBuilder.build txs)) node = Some meta ->
  meta = GraphBuilder.buildMeta (adjacencyList (GraphBuilder.build txs))
           (reverseAdjList (GraphBuilder.build txs)) node.
Proof.
  unfold GraphBuilder.build. simpl. intros H.
  apply mget_fold_mset in H. destruct H as [H | H]; [exact H | discriminate].
Qed.

(* ================================================================== *)
(** * Determinism of [analyze] (claim C5) *)
(* ================================================================== *)



(* ================================================================== *)
(** * Temporal regularity in the payroll branch (claim C8) *)
(* ================================================================== *)

Lemma closeToInterval_spec (lo hi : Q) (interval d : Z) :
  SmurfingDetector.closeToInterval lo hi interval d = true
  <-> (lo < inject_Z d / inject_Z interval
       /\ inject_Z d / inject_Z interval < hi)%Q.
Proof.
  unfold SmurfingDetector.closeToInterval.
  rewrite andb_true_iff, !Qltb_lt. reflexivity.
Qed.

Lemma fractionGt_spec (count total : nat) (bound : Q) :
  SmurfingDetector.fractionGt count total bound = true
  <-> (bound < nQ count / nQ total)%Q.
Proof. unfold SmurfingDetector.fractionGt. apply Qltb_lt. Qed.

(** The rule as the specification words it, at the tolerance of the
    legitimacy penalty, is rule C of [_legitimacyPenalty]. *)
Lemma regularIntervalPenalty_is_spec_rule (timestamps : list Z) :
  SmurfingDetector.regularIntervalPenalty timestamps
  = if Spec.regularIntervalRule (8 # 10) (12 # 10) timestamps
    then 15%Z else 0%Z.
Proof.
  unfold SmurfingDetector.regularIntervalPenalty, Spec.regularIntervalRule,
    SmurfingDetector.regularIntervals.
  destruct (5 <=? List.length timestamps)%nat; reflexivity.
Qed.

(** The payroll check accepts an hourly batch, which the rule of the
    legitimacy penalty rejects at a tolerance of 25%: one hour is not one
    of its intervals. *)
Lemma payroll_regularity_not_legitimacy_rule :
  FalsePositiveFilter._checkTemporalRegularity Samples.hourlyBatch = true
  /\ Spec.regularIntervalRule (75 # 100) (125 # 100) Samples.hourlyBatch = false.
Proof. split; vm_compute; reflexivity. Qed.

(** It also accepts two daily gaps out of four: 50% is more than 40% and
    not more than 50%. *)
Lemma payroll_regularity_lower_threshold :
  FalsePositiveFilter._checkTemporalRegularity Samples.twoDailyGaps = true
  /\ Spec.regularIntervalRule (75 # 100) (125 # 100) Samples.twoDailyGaps = false.
Proof. split; vm_compute; reflexivity. Qed.

(** C8, amended: the payroll branch awards its 20 points for temporal
    regularity exactly when the node has at least five out-edges and, for
    one of the intervals 1 hour, 1 day, 7 days, 14 days, 30 days, more than
    40% of the deltas between consecutive sorted out-edge timestamps have a
    ratio to that interval strictly between 0.75 and 1.25. *)
Theorem payroll_temporal_points_rule :
  forall (adjList : Map (list AdjEdge)) (node : string),
    let ts := sortZ (map e_timestamp (GraphBuilder.edgesOf adjList node)) in
    let deltas := deltasZ ts in
    (FalsePositiveFilter.payrollTemporalPoints adjList node = 20%Z
     \/ FalsePositiveFilter.payrollTemporalPoints adjList node = 0%Z)
    /\ (FalsePositiveFilter.payrollTemporalPoints adjList node = 20%Z
        <-> (5 <= List.length (GraphBuilder.edgesOf adjList node))%nat
            /\ exists interval : Z,
                 In interval
                   [3600000; 86400000; 7 * 86400000; 14 * 86400000;
                    30 * 86400000]%Z
                 /\ (4 # 10
                     < nQ (List.length
                             (List.filter
                                (fun d =>
                                   Qltb (75 # 100)
                                     (inject_Z d / inject_Z interval)
                                   && Qltb (inject_Z d / inject_Z interval)
                                        (125 # 100))
                                deltas))
                       / nQ (List.length deltas))%Q).
Proof.
  intros adjList node ts deltas.
  unfold FalsePositiveFilter.payrollTemporalPoints.
  fold ts.
  assert (Hlen : List.length ts = List.length (GraphBuilder.edgesOf adjList node)).
  { unfold ts, sortZ. now rewrite sortWith_length, length_map. }
  destruct (FalsePositiveFilter._checkTemporalRegularity ts) eqn:E.
  - split; [now left |]. split; [intros _ | reflexivity].
    unfold FalsePositiveFilter._checkTemporalRegularity in E.
    destruct (List.length ts <? 5)%nat eqn:E5; [discriminate |].
    apply Nat.ltb_ge in E5. split; [lia |].
    apply existsb_exists in E. destruct E as [interval [Hin Hfr]].
    exists interval. split; [exact Hin |].
    apply fractionGt_spec in Hfr. exact Hfr.
  - split; [now right |]. split; [discriminate |].
    intros [H5 [interval [Hin Hfr]]]. exfalso.
    unfold FalsePositiveFilter._checkTemporalRegularity in E.
    destruct (List.length ts <? 5)%nat eqn:E5.
    + apply Nat.ltb_lt in E5. lia.
    + assert (Ht : existsb
        (fun interval0 : Z =>
         SmurfingDetector.fractionGt
           (SmurfingDetector.countIf
              (SmurfingDetector.closeToInterval (75 # 100) (125 # 100) interval0)
              (deltasZ ts)) (List.length (deltasZ ts)) (4 # 10))
        FalsePositiveFilter.commonIntervals = true).
      { apply existsb_exists. exists interval. split; [exact Hin |].
        apply fractionGt_spec. exact Hfr. }
      congruence.
Qed.

(* ================================================================== *)
(** * Guarded divisions (claim C9) *)
(* ================================================================== *)

(** The sender of a single transfer has received nothing, and its
    [throughputRatio] is the number 0, not an unset field. *)
Lemma throughput_zero_not_unset :
  exists meta : NodeMeta,
    mget (nodeMetadata (GraphBuilder.build Samples.singleTransfer)) "A"
    = Some meta
    /\ (totalReceived meta == 0)%Q
    /\ throughputRatio meta = Some 0%Q
    /\ throughputRatio meta <> None.
Proof.
  eexists. split; [vm_compute; reflexivity |].
  split; [reflexivity |]. split; [reflexivity | discriminate].
Qed.

(** C9, amended: for every account of a built graph, the velocity is 1
    when [tx_count <= 1], the pass-through rate is 0 when the larger of the
    two totals is 0, and the throughput ratio is the number 0 when nothing
    was received. *)
Theorem scoring_fallbacks :
  forall (txs : list Transaction) (node : string) (meta : NodeMeta),
    mget (nodeMetadata (GraphBuilder.build txs)) node = Some meta ->
    ((txCount meta <= 1)%nat ->
     ScoringEngine._computeVelocity72h (allTimestamps meta) = 1%Q)
    /\ ((Math_max (totalReceived meta) (totalSent meta) == 0)%Q ->
        ScoringEngine.passThroughRate meta = 0%Q)
    /\ ((totalReceived meta == 0)%Q -> throughputRatio meta = Some 0%Q).
Proof.
  intros txs node meta Hget.
  apply build_metadata_lookup in Hget. subst meta.
  set (adj := adjacencyList (GraphBuilder.build txs)).
  set (rev := reverseAdjList (GraphBuilder.build txs)).
  split; [| split].
  - intros Hcount. unfold ScoringEngine._computeVelocity72h.
    unfold GraphBuilder.buildMeta in *. simpl in *.
    unfold sortZ. rewrite sortWith_length, length_app, !length_map.
    destruct (_ <=? 1)%nat eqn:E; [reflexivity |].
    apply Nat.leb_gt in E. lia.
  - intros Hmax. unfold ScoringEngine.passThroughRate.
    destruct (Qltb 0 _) eqn:E; [| reflexivity].
    apply Qltb_lt in E. rewrite Hmax in E. discriminate.
  - intros Hrec. unfold GraphBuilder.buildMeta in *. simpl in *.
    destruct (Qltb 0 _) eqn:E; [| reflexivity].
    apply Qltb_lt in E. rewrite Hrec in E. discriminate.
Qed.

Lemma scoring_fallbacks_witness :
  exists meta : NodeMeta,
    mget (nodeMetadata (GraphBuilder.build Samples.singleTransfer)) "A"
    = Some meta
    /\ ScoringEngine._computeVelocity72h (allTimestamps meta) = 1%Q
    /\ throughputRatio meta = Some 0%Q.
Proof.
  eexists. split; [vm_compute; reflexivity |].
  pose proof (@scoring_fallbacks Samples.singleTransfer "A" _ eq_refl)
    as [Hv [_ Ht]].
  split; [apply Hv; vm_compute; lia | apply Ht; reflexivity].
Defined.

(* ================================================================== *)
(** * The 72-hour velocity (claim C4) *)
(* ================================================================== *)

Section Velocity.

Local Open Scope Z_scope.

Let W : Z := ScoringEngine.window72h.

Lemma insertSorted_Z_sorted (x : Z) (l : list Z) :
  StronglySorted Z.le l -> StronglySorted Z.le (insertSorted Z.ltb x l).
Proof.
  induction l as [| y l IH]; intros Hs; simpl.
  - constructor; constructor.
  - apply StronglySorted_inv in Hs. destruct Hs as [Hs Hall].
    destruct (y <? x) eqn:E.
    + apply Z.ltb_lt in E. constructor; [now apply IH |].
      apply Forall_forall. intros z Hz. apply insertSorted_In in Hz.
      destruct Hz as [-> | Hz]; [lia |].
      rewrite Forall_forall in Hall. now apply Hall.
    + apply Z.ltb_ge in E. constructor.
      * now constructor.
      * constructor; [exact E |].
        rewrite Forall_forall in *. intros z Hz. specialize (Hall z Hz). lia.
Qed.

Lemma sortZ_sorted (l : list Z) : StronglySorted Z.le (sortZ l).
Proof.
  unfold sortZ. induction l as [| x l IH]; simpl.
  - constructor.
  - now apply insertSorted_Z_sorted.
Qed.

Lemma sorted_split (pre rest : list Z) (t : Z) :
  StronglySorted Z.le (pre ++ t :: rest) ->
  Forall (fun u => u <= t) pre /\ Forall (fun u => t <= u) rest
  /\ StronglySorted Z.le (t :: rest).
Proof.
  induction pre as [| p pre IH]; simpl; intros Hs.
  - split; [constructor |]. split; [| exact Hs].
    now apply StronglySorted_inv in Hs.
  - apply StronglySorted_inv in Hs. destruct Hs as [Hs Hall].
    destruct (IH Hs) as [H1 [H2 H3]]. split; [| now split].
    constructor; [| exact H1].
    rewrite Forall_forall in Hall. apply Hall. apply in_or_app. right. now left.
Qed.

(** On a sorted list the inner loop counts the elements up to the end of
    the window. *)
Lemma windowAdvance_sorted (e : Z) (l : list Z) :
  StronglySorted Z.le l ->
  ScoringEngine.windowAdvance e l
  = List.length (List.filter (fun u => u <=? e) l).
Proof.
  induction l as [| x l IH]; intros Hs; simpl; [reflexivity |].
  apply StronglySorted_inv in Hs. destruct Hs as [Hs Hall].
  destruct (x <=? e) eqn:E; simpl.
  - now rewrite IH.
  - apply Z.leb_gt in E. clear IH Hs. induction l as [| y l IH]; [reflexivity |].
    simpl. inversion Hall as [| ? ? Hy Hall']. subst.
    destruct (y <=? e) eqn:E'; [apply Z.leb_le in E'; lia | now apply IH].
Qed.

Lemma filter_length_ext_in {A : Type} (f g : A -> bool) (l : list A) :
  (forall x, In x l -> f x = g x) ->
  List.length (List.filter f l) = List.length (List.filter g l).
Proof.
  intros H. now rewrite (filter_ext_in f g l H).
Qed.

Lemma filter_none {A : Type} (f : A -> bool) (l : list A) :
  (forall x, In x l -> f x = false) -> List.filter f l = [].
Proof.
  induction l as [| x l IH]; intros H; simpl; [reflexivity |].
  rewrite (H x (or_introl eq_refl)). apply IH. intros y Hy. apply H. now right.
Qed.

(** The window the loop opens at [t], seen from the whole sorted list. *)
Lemma windowAdvance_le_closed (pre rest : list Z) (t : Z) :
  StronglySorted Z.le (pre ++ t :: rest) ->
  (ScoringEngine.windowAdvance (t + W) (t :: rest)
   <= Spec.closedWindowCount (pre ++ t :: rest) t)%nat.
Proof.
  intros Hs. destruct (sorted_split _ _ _ Hs) as [Hpre [Hrest Hs']].
  rewrite (windowAdvance_sorted _ Hs'). unfold Spec.closedWindowCount.
  rewrite filter_app, length_app. fold W.
  rewrite (@filter_length_ext_in _ (fun u => u <=? t + W)
             (fun u => (t <=? u) && (u <=? t + W)) (t :: rest)); [lia |].
  intros u [<- | Hu].
  - now rewrite Z.leb_refl.
  - rewrite Forall_forall in Hrest. specialize (Hrest u Hu).
    apply Z.leb_le in Hrest. now rewrite Hrest.
Qed.

Lemma windowAdvance_eq_closed (pre rest : list Z) (t : Z) :
  StronglySorted Z.le (pre ++ t :: rest) -> ~ In t pre ->
  ScoringEngine.windowAdvance (t + W) (t :: rest)
  = Spec.closedWindowCount (pre ++ t :: rest) t.
Proof.
  intros Hs Hnot. destruct (sorted_split _ _ _ Hs) as [Hpre [Hrest Hs']].
  rewrite (windowAdvance_sorted _ Hs'). unfold Spec.closedWindowCount.
  rewrite filter_app, length_app. fold W.
  rewrite (@filter_none _ _ pre).
  - change (List.length (@nil Z)) with 0%nat. rewrite Nat.add_0_l.
    apply filter_length_ext_in. intros u [<- | Hu].
    + now rewrite Z.leb_refl.
    + rewrite Forall_forall in Hrest. specialize (Hrest u Hu).
      apply Z.leb_le in Hrest. now rewrite Hrest.
  - intros u Hu. rewrite Forall_forall in Hpre. specialize (Hpre u Hu).
    assert (u <> t) by (intros ->; contradiction).
    destruct (t <=? u) eqn:E; [apply Z.leb_le in E; lia | reflexivity].
Qed.

Lemma velocityLoop_ge_start (suf : list Z) (m : nat) :
  (m <= ScoringEngine.velocityLoop suf m)%nat.
Proof.
  revert m. induction suf as [| t suf IH]; intros m; simpl; [lia |].
  etransitivity; [| apply IH]. apply Nat.le_max_l.
Qed.

Lemma velocityLoop_ge_window (pre rest : list Z) (t : Z) (m : nat) :
  (ScoringEngine.windowAdvance (t + W) (t :: rest)
   <= ScoringEngine.velocityLoop (pre ++ t :: rest) m)%nat.
Proof.
  revert m. induction pre as [| p pre IH]; intros m.
  - simpl app. cbn [ScoringEngine.velocityLoop].
    etransitivity; [| apply velocityLoop_ge_start]. apply Nat.le_max_r.
  - simpl app. cbn [ScoringEngine.velocityLoop]. apply IH.
Qed.

Lemma velocityLoop_le_bound (suf : list Z) (m B : nat) :
  (m <= B)%nat ->
  (forall pre t rest, suf = pre ++ t :: rest ->
     (ScoringEngine.windowAdvance (t + W) (t :: rest) <= B)%nat) ->
  (ScoringEngine.velocityLoop suf m <= B)%nat.
Proof.
  revert m. induction suf as [| t suf IH]; intros m Hm Hall.
  - simpl. exact Hm.
  - cbn [ScoringEngine.velocityLoop]. apply IH.
    + apply Nat.max_lub; [exact Hm |]. apply (Hall [] t suf). reflexivity.
    + intros pre t' rest Heq. apply (Hall (t :: pre) t' rest).
      simpl. now rewrite Heq.
Qed.

Lemma in_split_first (t : Z) (l : list Z) :
  In t l -> exists pre rest, l = pre ++ t :: rest /\ ~ In t pre.
Proof.
  induction l as [| x l IH]; intros Hin; [destruct Hin |].
  destruct (Z.eq_dec x t) as [-> | Hne].
  - exists [], l. split; [reflexivity | intros []].
  - destruct Hin as [Heq | Hin]; [contradiction |].
    destruct (IH Hin) as [pre [rest [Heq Hnot]]].
    exists (x :: pre), rest. split; [simpl; now rewrite Heq |].
    intros [H | H]; [contradiction | now apply Hnot].
Qed.

Lemma list_max_In (l : list nat) (x : nat) : In x l -> (x <= list_max l)%nat.
Proof.
  intros Hin. assert (H : (list_max l <= list_max l)%nat) by lia.
  apply list_max_le in H. rewrite Forall_forall in H. now apply H.
Qed.

Lemma window72h_nonneg : 0 <= W.
Proof. unfold W, ScoringEngine.window72h. lia. Qed.

(** On a sorted list the loop of [_computeVelocity72h] finds the largest
    closed-window count. *)
Lemma velocityLoop_sorted (s : list Z) :
  StronglySorted Z.le s -> s <> [] ->
  ScoringEngine.velocityLoop s 1 = Spec.maxWindowCount Spec.closedWindowCount s.
Proof.
  intros Hs Hne. unfold Spec.maxWindowCount. apply Nat.le_antisymm.
  - apply velocityLoop_le_bound.
    + destruct s as [| t s']; [contradiction |].
      etransitivity; [| apply (@list_max_In _ (Spec.closedWindowCount (t :: s') t))].
      * unfold Spec.closedWindowCount. simpl. fold W.
        pose proof window72h_nonneg.
        rewrite Z.leb_refl. simpl.
        destruct (t <=? t + W) eqn:E; [simpl; lia | apply Z.leb_gt in E; lia].
      * simpl. now left.
    + intros pre t rest Heq. subst s.
      etransitivity; [apply windowAdvance_le_closed; exact Hs |].
      apply list_max_In. apply in_map. apply in_or_app. right. now left.
  - apply list_max_le. apply Forall_forall. intros c Hc.
    apply in_map_iff in Hc. destruct Hc as [t [<- Ht]].
    destruct (in_split_first _ _ Ht) as [pre [rest [Heq Hnot]]].
    rewrite Heq. rewrite Heq in Hs.
    rewrite <- (@windowAdvance_eq_closed pre rest t Hs Hnot).
    apply velocityLoop_ge_window.
Qed.

Lemma list_max_insertSorted (g : Z -> nat) (x : Z) (l : list Z) :
  list_max (map g (insertSorted Z.ltb x l))
  = Nat.max (g x) (list_max (map g l)).
Proof.
  induction l as [| y l IH]; simpl; [reflexivity |].
  destruct (y <? x); simpl; [rewrite IH; lia | reflexivity].
Qed.

Lemma maxWindowCount_sortZ (ts : list Z) :
  Spec.maxWindowCount Spec.closedWindowCount (sortZ ts)
  = Spec.maxWindowCount Spec.closedWindowCount ts.
Proof.
  unfold Spec.maxWindowCount.
  assert (Hc : forall t, Spec.closedWindowCount (sortZ ts) t
                         = Spec.closedWindowCount ts t).
  { intros t. unfold Spec.closedWindowCount, sortZ.
    apply sortWith_filter_length. }
  rewrite (map_ext _ _ Hc).
  clear Hc. unfold sortZ. generalize (Spec.closedWindowCount ts) as g. intros g.
  induction ts as [| x l IH]; [reflexivity |].
  cbn [sortWith]. rewrite list_max_insertSorted, IH. reflexivity.
Qed.

End Velocity.

(** With two transactions exactly 72 hours apart the code finds both in
    one window and a velocity of 1; with a right-open window the second
    falls outside and the velocity is 1/2. *)
Lemma velocity_window_is_closed :
  ScoringEngine.windowAdvance (0 + ScoringEngine.window72h)
    Samples.seventyTwoHoursApart = 2%nat
  /\ (ScoringEngine._computeVelocity72h Samples.seventyTwoHoursApart == 1)%Q
  /\ (Spec.velocityRightOpen Samples.seventyTwoHoursApart == 1 # 2)%Q
  /\ ~ (ScoringEngine._computeVelocity72h Samples.seventyTwoHoursApart
        == Spec.velocityRightOpen Samples.seventyTwoHoursApart)%Q.
Proof.
  split; [reflexivity |]. split; [reflexivity |]. split; [reflexivity |].
  vm_compute. discriminate.
Qed.

(** C4, amended: for an account with at least two timestamps the velocity
    is the largest number of timestamps that fall in a closed 72-hour
    window [[t, t + 72h]] starting at one of them, divided by the number of
    timestamps, so that a transaction exactly 72 hours after the start of
    the window is inside it; with at most one timestamp the velocity
    is 1. *)
Theorem velocity_closed_window :
  forall ts : list Z,
    ((List.length ts <= 1)%nat -> ScoringEngine._computeVelocity72h ts = 1%Q)
    /\ ((2 <= List.length ts)%nat ->
        ScoringEngine._computeVelocity72h ts
        = (nQ (Spec.maxWindowCount Spec.closedWindowCount ts)
           / nQ (List.length ts))%Q)
    /\ (forall t : Z,
          Spec.closedWindowCount [t; (t + ScoringEngine.window72h)%Z] t = 2%nat).
Proof.
  intros ts. unfold ScoringEngine._computeVelocity72h. split; [| split].
  - intros H. apply Nat.leb_le in H. now rewrite H.
  - intros H. destruct (List.length ts <=? 1)%nat eqn:E.
    + apply Nat.leb_le in E. lia.
    + assert (Hne : sortZ ts <> []).
      { intros Hnil. apply (f_equal (@List.length Z)) in Hnil.
        unfold sortZ in Hnil. rewrite sortWith_length in Hnil. simpl in Hnil. lia. }
      rewrite (velocityLoop_sorted (sortZ_sorted ts) Hne).
      rewrite maxWindowCount_sortZ. unfold sortZ. now rewrite sortWith_length.
  - intros t. unfold Spec.closedWindowCount. simpl.
    rewrite !Z.leb_refl. simpl.
    assert (H1 : (t <=? t + ScoringEngine.window72h)%Z = true).
    { apply Z.leb_le. unfold ScoringEngine.window72h. lia. }
    rewrite H1. reflexivity.
Qed.

Lemma velocity_closed_window_witness :
  ScoringEngine._computeVelocity72h Samples.seventyTwoHoursApart
  = (nQ (Spec.maxWindowCount Spec.closedWindowCount
           Samples.seventyTwoHoursApart)
     / nQ (List.length Samples.seventyTwoHoursApart))%Q.
Proof.
  apply (proj1 (proj2 (velocity_closed_window Samples.seventyTwoHoursApart))).
  simpl. lia.
Defined.

(* ================================================================== *)
(** * The suspicion score (claim C3) *)
(* ================================================================== *)

Section Suspicion.

Local Open Scope Q_scope.






Lemma Math_max_cases (a b : Q) :
  (a <= b /\ Math_max a b = b) \/ (b < a /\ Math_max a b = a).
Proof.
  unfold Math_max. destruct (Qleb a b) eqn:E.
  - left. split; [now apply Qleb_le | reflexivity].
  - right. split; [now apply Qleb_gt | reflexivity].
Qed.

Lemma Math_min_cases (a b : Q) :
  (a <= b /\ Math_min a b = a) \/ (b < a /\ Math_min a b = b).
Proof.
  unfold Math_min. destruct (Qleb a b) eqn:E.
  - left. split; [now apply Qleb_le | reflexivity].
  - right. split; [now apply Qleb_gt | reflexivity].
Qed.



(** ** The pattern modifier *)












End Suspicion.



(* ================================================================== *)
(** * Emission of smurfing groups (claim C7) *)
(* ================================================================== *)

Lemma ensureKey_NoDup (m : GraphBuilder.AdjList) (k : string) :
  NoDup (mkeys m) -> NoDup (mkeys (GraphBuilder.ensureKey m k)).
Proof.
  intros H. unfold GraphBuilder.ensureKey.
  destruct (mhas m k); [exact H | now apply mset_NoDup].
Qed.

Lemma pushEdge_NoDup (m : GraphBuilder.AdjList) (k : string) (e : AdjEdge) :
  NoDup (mkeys m) -> NoDup (mkeys (GraphBuilder.pushEdge m k e)).
Proof.
  intros H. unfold GraphBuilder.pushEdge.
  destruct (mget m k); [now apply mset_NoDup | exact H].
Qed.

Lemma build_state_NoDup (txs : list Transaction) (st : GraphBuilder.BuildState) :
  NoDup (mkeys (GraphBuilder.bs_adj st)) ->
  NoDup (mkeys (GraphBuilder.bs_rev st)) ->
  NoDup (mkeys (GraphBuilder.bs_adj (fold_left GraphBuilder.addTransaction txs st)))
  /\ NoDup (mkeys (GraphBuilder.bs_rev
                     (fold_left GraphBuilder.addTransaction txs st))).
Proof.
  revert st. induction txs as [| tx txs IH]; intros st Ha Hr; simpl.
  - now split.
  - apply IH; unfold GraphBuilder.addTransaction; simpl;
      repeat (apply ensureKey_NoDup || apply pushEdge_NoDup); assumption.
Qed.

Lemma build_adjacency_NoDup (txs : list Transaction) :
  NoDup (mkeys (adjacencyList (GraphBuilder.build txs)))
  /\ NoDup (mkeys (reverseAdjList (GraphBuilder.build txs))).
Proof.
  unfold GraphBuilder.build. simpl. apply build_state_NoDup; constructor.
Qed.



Section SmurfEmission.

Variable getHours : Z -> Z.
Variable adjList : Map (list AdjEdge).
Variable reverseAdjList : Map (list AdjEdge).
Variable nodeMetadata : Map NodeMeta.

Let score := SmurfingDetector._computeSmurfScore getHours adjList
               reverseAdjList nodeMetadata.

Let fanInGroup (node : string) (inEdges : list AdjEdge)
  : SmurfingDetector.SmurfGroup :=
  {| SmurfingDetector.sg_type := fan_in;
     SmurfingDetector.sg_aggregatorNode := Some node;
     SmurfingDetector.sg_disperserNode := None;
     SmurfingDetector.sg_members := node :: setOf (map peer inEdges);
     SmurfingDetector.sg_score :=
       score node (map SmurfingDetector.toTx inEdges) fan_in;
     SmurfingDetector.sg_temporalWindowHours :=
       SmurfingDetector._timeWindowHours (map SmurfingDetector.toTx inEdges) |}.

Let fanOutGroup (node : string) (outEdges : list AdjEdge)
  : SmurfingDetector.SmurfGroup :=
  {| SmurfingDetector.sg_type := fan_out;
     SmurfingDetector.sg_aggregatorNode := None;
     SmurfingDetector.sg_disperserNode := Some node;
     SmurfingDetector.sg_members := node :: setOf (map peer outEdges);
     SmurfingDetector.sg_score :=
       score node (map SmurfingDetector.toTx outEdges) fan_out;
     SmurfingDetector.sg_temporalWindowHours :=
       SmurfingDetector._timeWindowHours (map SmurfingDetector.toTx outEdges) |}.

Let combinedScore (node : string) : Z :=
  score node (SmurfingDetector.combinedTxs adjList reverseAdjList node)
    fan_in_fan_out.

Lemma fanIn_fold (entries : list (string * list AdjEdge))
  (groups : list SmurfingDetector.SmurfGroup) (g : SmurfingDetector.SmurfGroup) :
  In g (fold_left
          (SmurfingDetector.fanInStep getHours adjList reverseAdjList
             nodeMetadata) entries groups)
  <-> In g groups
      \/ exists node inEdges,
           In (node, inEdges) entries
           /\ (10 <= List.length (setOf (map peer inEdges)))%nat
           /\ (40 <= score node (map SmurfingDetector.toTx inEdges) fan_in)%Z
           /\ g = fanInGroup node inEdges.
Proof.
  revert groups. induction entries as [| [n es] entries IH]; intros groups.
  - simpl. split; [now left | intros [H | [? [? [[] _]]]]; exact H].
  - cbn [fold_left]. rewrite IH. clear IH.
    unfold SmurfingDetector.fanInStep at 1.
    unfold SmurfingDetector.FAN_THRESHOLD, SmurfingDetector.EMIT_THRESHOLD.
    destruct (List.length (setOf (map peer es)) <? 10)%nat eqn:E1.
    { apply Nat.ltb_lt in E1. split.
      - intros [H | [node [ie [Hin H]]]]; [now left |].
        right. exists node, ie. split; [now right | exact H].
      - intros [H | [node [ie [[Heq | Hin] H]]]]; [now left | |].
        + inversion Heq. subst. lia.
        + right. exists node, ie. split; assumption. }
    apply Nat.ltb_ge in E1. fold score.
    destruct (40 <=? score n (map SmurfingDetector.toTx es) fan_in)%Z eqn:E2.
    { apply Z.leb_le in E2. rewrite in_app_iff. split.
      - intros [[H | [H | []]] | [node [ie [Hin H]]]]; [now left | |].
        + right. exists n, es. repeat split; auto. now left.
        + right. exists node, ie. split; [now right | exact H].
      - intros [H | [node [ie [[Heq | Hin] H]]]]; [now left; left | |].
        + inversion Heq. subst. left. right. left. symmetry. apply H.
        + right. exists node, ie. split; assumption. }
    apply Z.leb_gt in E2. split.
    + intros [H | [node [ie [Hin H]]]]; [now left |].
      right. exists node, ie. split; [now right | exact H].
    + intros [H | [node [ie [[Heq | Hin] H]]]]; [now left | |].
      * inversion Heq. subst. lia.
      * right. exists node, ie. split; assumption.
Qed.

Lemma fanOut_fold (entries : list (string * list AdjEdge))
  (groups : list SmurfingDetector.SmurfGroup) (g : SmurfingDetector.SmurfGroup) :
  In g (fold_left
          (SmurfingDetector.fanOutStep getHours adjList reverseAdjList
             nodeMetadata) entries groups)
  <-> In g groups
      \/ exists node outEdges,
           In (node, outEdges) entries
           /\ (10 <= List.length (setOf (map peer outEdges)))%nat
           /\ (40 <= score node (map SmurfingDetector.toTx outEdges) fan_out)%Z
           /\ g = fanOutGroup node outEdges.
Proof.
  revert groups. induction entries as [| [n es] entries IH]; intros groups.
  - simpl. split; [now left | intros [H | [? [? [[] _]]]]; exact H].
  - cbn [fold_left]. rewrite IH. clear IH.
    unfold SmurfingDetector.fanOutStep at 1.
    unfold SmurfingDetector.FAN_THRESHOLD, SmurfingDetector.EMIT_THRESHOLD.
    destruct (List.length (setOf (map peer es)) <? 10)%nat eqn:E1.
    { apply Nat.ltb_lt in E1. split.
      - intros [H | [node [ie [Hin H]]]]; [now left |].
        right. exists node, ie. split; [now right | exact H].
      - intros [H | [node [ie [[Heq | Hin] H]]]]; [now left | |].
        + inversion Heq. subst. lia.
        + right. exists node, ie. split; assumption. }
    apply Nat.ltb_ge in E1. fold score.
    destruct (40 <=? score n (map SmurfingDetector.toTx es) fan_out)%Z eqn:E2.
    { apply Z.leb_le in E2. rewrite in_app_iff. split.
      - intros [[H | [H | []]] | [node [ie [Hin H]]]]; [now left | |].
        + right. exists n, es. repeat split; auto. now left.
        + right. exists node, ie. split; [now right | exact H].
      - intros [H | [node [ie [[Heq | Hin] H]]]]; [now left; left | |].
        + inversion Heq. subst. left. right. left. symmetry. apply H.
        + right. exists node, ie. split; assumption. }
    apply Z.leb_gt in E2. split.
    + intros [H | [node [ie [Hin H]]]]; [now left |].
      right. exists node, ie. split; [now right | exact H].
    + intros [H | [node [ie [[Heq | Hin] H]]]]; [now left | |].
      * inversion Heq. subst. lia.
      * right. exists node, ie. split; assumption.
Qed.

Let combinedGroup (node : string) : SmurfingDetector.SmurfGroup :=
  {| SmurfingDetector.sg_type := fan_in_fan_out;
     SmurfingDetector.sg_aggregatorNode := Some node;
     SmurfingDetector.sg_disperserNode := Some node;
     SmurfingDetector.sg_members :=
       node :: setOf (map peer (GraphBuilder.edgesOf reverseAdjList node))
            ++ setOf (map peer (GraphBuilder.edgesOf adjList node));
     SmurfingDetector.sg_score := combinedScore node;
     SmurfingDetector.sg_temporalWindowHours :=
       SmurfingDetector._timeWindowHours
         (SmurfingDetector.combinedTxs adjList reverseAdjList node) |}.

Lemma existsb_app_one {A : Type} (f : A -> bool) (l : list A) (x : A) :
  f x = false -> existsb f (l ++ [x]) = existsb f l.
Proof.
  intros H. rewrite existsb_app. simpl. now rewrite H, !orb_false_r.
Qed.

Lemma combined_fold (entries : list (string * NodeMeta))
  (groups : list SmurfingDetector.SmurfGroup) (g : SmurfingDetector.SmurfGroup) :
  NoDup (map fst entries) ->
  In g (fold_left
          (SmurfingDetector.combinedStep getHours adjList reverseAdjList
             nodeMetadata) entries groups)
  <-> In g groups
      \/ exists node meta,
           In (node, meta) entries
           /\ (10 <= uniqueSenders meta)%nat
           /\ (10 <= uniqueReceivers meta)%nat
           /\ existsb (SmurfingDetector.centredOn node) groups = false
           /\ (40 <= combinedScore node)%Z
           /\ g = combinedGroup node.
Proof.
  revert groups. induction entries as [| [n m] entries IH]; intros groups Hnd.
  - simpl. split; [now left | intros [H | [? [? [[] _]]]]; exact H].
  - cbn [fold_left]. inversion Hnd as [| ? ? Hnot Hnd']. subst.
    rewrite (IH _ Hnd'). clear IH.
    set (groups1 := SmurfingDetector.combinedStep getHours adjList
                      reverseAdjList nodeMetadata groups (n, m)).
    assert (Hother : forall node meta, In (node, meta) entries ->
              existsb (SmurfingDetector.centredOn node) groups1
              = existsb (SmurfingDetector.centredOn node) groups).
    { intros node meta Hin. unfold groups1, SmurfingDetector.combinedStep.
      destruct (_ && _); [| reflexivity].
      destruct (existsb (SmurfingDetector.centredOn n) groups); [reflexivity |].
      destruct (_ <=? _)%Z; [| reflexivity].
      apply existsb_app_one. unfold SmurfingDetector.centredOn. simpl.
      assert (Hne : n <> node).
      { intros ->. apply Hnot. change node with (fst (node, meta)).
        now apply in_map. }
      apply String.eqb_neq in Hne. now rewrite Hne. }
    assert (Hstep : forall g0, In g0 groups1 <->
              In g0 groups
              \/ ((10 <= uniqueSenders m)%nat /\ (10 <= uniqueReceivers m)%nat
                  /\ existsb (SmurfingDetector.centredOn n) groups = false
                  /\ (40 <= combinedScore n)%Z /\ g0 = combinedGroup n)).
    { intros g0. unfold groups1, SmurfingDetector.combinedStep.
      unfold SmurfingDetector.FAN_THRESHOLD, SmurfingDetector.EMIT_THRESHOLD.
      destruct (10 <=? uniqueSenders m)%nat eqn:E1;
        destruct (10 <=? uniqueReceivers m)%nat eqn:E2; cbn [andb];
        try (apply Nat.leb_gt in E1); try (apply Nat.leb_gt in E2);
        try (split; [now left | intros [H | H]; [exact H | lia]]).
      apply Nat.leb_le in E1. apply Nat.leb_le in E2.
      destruct (existsb (SmurfingDetector.centredOn n) groups) eqn:E3.
      { split; [now left | intros [H | [_ [_ [H _]]]]; [exact H | discriminate]]. }
      fold score. fold (combinedScore n).
      destruct (40 <=? combinedScore n)%Z eqn:E4.
      - apply Z.leb_le in E4. rewrite in_app_iff. split.
        + intros [H | [H | []]]; [now left |]. right. repeat split; auto.
        + intros [H | [_ [_ [_ [_ H]]]]]; [now left |]. right. left. now symmetry.
      - apply Z.leb_gt in E4.
        split; [now left | intros [H | [_ [_ [_ [H _]]]]]; [exact H | lia]]. }
    rewrite Hstep. split.
    + intros [[H | H] | [node [meta [Hin H]]]].
      * now left.
      * right. exists n, m. split; [now left | exact H].
      * right. exists node, meta. split; [now right |].
        rewrite <- (Hother _ _ Hin). exact H.
    + intros [H | [node [meta [[Heq | Hin] H]]]].
      * now left; left.
      * inversion Heq. subst. left. right. exact H.
      * right. exists node, meta. split; [exact Hin |].
        rewrite (Hother _ _ Hin). exact H.
Qed.

End SmurfEmission.



(* ================================================================== *)
(** * Emitted shell chains (claim C6) *)
(* ================================================================== *)

Section ShellChains.

Local Open Scope Q_scope.

Variable adjList : Map (list AdjEdge).
Variable reverseAdjList : Map (list AdjEdge).
Variable nodeMetadata : Map NodeMeta.
Hypothesis metadata_keys : NoDup (mkeys nodeMetadata).

Let shellNodes : list string := ShellNetworkDetector.shellNodeSet nodeMetadata.

Lemma isShellMeta_spec (meta : NodeMeta) :
  ShellNetworkDetector.isShellMeta meta = true <-> Spec.isShell meta.
Proof.
  unfold ShellNetworkDetector.isShellMeta, Spec.isShell,
    ShellNetworkDetector.SHELL_TX_THRESHOLD.
  rewrite !andb_true_iff, !Nat.leb_le. tauto.
Qed.

Lemma shellNodeSet_fold (entries : list (string * NodeMeta))
  (acc : list string) (x : string) :
  In x (fold_left
          (fun s entry =>
             if ShellNetworkDetector.isShellMeta (snd entry)
             then sadd s (fst entry) else s) entries acc)
  <-> In x acc
      \/ exists meta, In (x, meta) entries
                      /\ ShellNetworkDetector.isShellMeta meta = true.
Proof.
  revert acc. induction entries as [| [k m] entries IH]; intros acc.
  - simpl. split; [now left | intros [H | [? [[] _]]]; exact H].
  - cbn [fold_left]. rewrite IH. cbn [fst snd].
    destruct (ShellNetworkDetector.isShellMeta m) eqn:E.
    + rewrite sadd_In. split.
      * intros [[H | ->] | [meta [Hin Hm]]]; [now left | |].
        -- right. exists m. split; [now left | exact E].
        -- right. exists meta. split; [now right | exact Hm].
      * intros [H | [meta [[Heq | Hin] Hm]]]; [now left; left | |].
        -- inversion Heq. subst. left. now right.
        -- right. exists meta. now split.
    + split.
      * intros [H | [meta [Hin Hm]]]; [now left |].
        right. exists meta. split; [now right | exact Hm].
      * intros [H | [meta [[Heq | Hin] Hm]]]; [now left | |].
        -- inversion Heq. subst. congruence.
        -- right. exists meta. now split.
Qed.

(** A node is in [shellNodes] exactly when its metadata pass the test. *)
Lemma shellNodes_spec (x : string) :
  shas shellNodes x = true
  <-> exists meta, mget nodeMetadata x = Some meta
                   /\ ShellNetworkDetector.isShellMeta meta = true.
Proof.
  rewrite shas_In. unfold shellNodes, ShellNetworkDetector.shellNodeSet.
  rewrite shellNodeSet_fold. split.
  - intros [[] | [meta [Hin Hm]]]. exists meta. split; [| exact Hm].
    now apply In_mget.
  - intros [meta [Hget Hm]]. right. exists meta. split; [| exact Hm].
    now apply mget_In.
Qed.

Lemma stepsCoherent_coherent (a : Q) (ext : list Q) :
  stepsCoherent a ext -> Spec.coherentAmounts (a :: ext).
Proof.
  revert a. induction ext as [| b ext IH]; intros a H; simpl in *; [exact I |].
  destruct H as [H1 [H2 H3]]. split; [exact H1 |]. split; [exact H2 |].
  apply IH, H3.
Qed.

Lemma last_snoc {A : Type} (l : list A) (x d : A) : last (l ++ [x]) d = x.
Proof. apply last_last. Qed.

Lemma traceShellChain_invariant (depth : nat) (startNode currentNode : string)
  (path visited : list string) (amounts : list Q) (timestamps : list Z)
  (c : ShellNetworkDetector.ShellChain) :
  In c (ShellNetworkDetector._traceShellChain adjList nodeMetadata depth
          startNode currentNode path visited amounts timestamps shellNodes) ->
  exists (ext : list string) (extA : list Q) (e : string) (meta : NodeMeta),
    ShellNetworkDetector.chain c = path ++ ext ++ [e]
    /\ ShellNetworkDetector.amounts c = amounts ++ extA
    /\ List.length extA = S (List.length ext)
    /\ stepsCoherent (last amounts 0) extA
    /\ (4 <= List.length (ShellNetworkDetector.chain c) <= 7)%nat
    /\ forallb (shas shellNodes)
         (ShellNetworkDetector.interior (ShellNetworkDetector.chain c)) = true
    /\ shas shellNodes e = false
    /\ mget nodeMetadata e = Some meta.
Proof.
  revert currentNode path visited amounts timestamps.
  induction depth as [| depth IH];
    intros currentNode path visited amounts timestamps Hin; [destruct Hin |].
  cbn [ShellNetworkDetector._traceShellChain] in Hin.
  unfold ShellNetworkDetector.MAX_CHAIN_LENGTH in Hin.
  destruct (7 <=? List.length path)%nat eqn:Elen; [destruct Hin |].
  apply Nat.leb_gt in Elen.
  apply in_flat_map in Hin. destruct Hin as [edge [_ Hin]].
  destruct (shas visited (peer edge)); [destruct Hin |].
  destruct (mget nodeMetadata (peer edge)) as [nextMeta |] eqn:Emeta;
    [| destruct Hin].
  unfold ShellNetworkDetector.AMOUNT_COHERENCE_MAX_DROP in Hin.
  destruct (Qltb 10000 (last amounts 0 - e_amount edge)) eqn:Edrop;
    [destruct Hin |].
  destruct (Qltb (last amounts 0) (e_amount edge)) eqn:Eup; [destruct Hin |].
  apply Qltb_ge in Edrop. apply Qltb_ge in Eup.
  destruct (shas shellNodes (peer edge)) eqn:Eshell.
  - apply IH in Hin.
    destruct Hin as [ext [extA [e [meta [Hc [Ha [Hl [Hs [Hn [Hi [He Hm]]]]]]]]]]].
    exists (peer edge :: ext), (e_amount edge :: extA), e, meta.
    rewrite Hc, Ha, <- !app_assoc. simpl.
    rewrite Hc in Hn, Hi. rewrite <- !app_assoc in Hn, Hi. simpl in Hn, Hi.
    rewrite last_snoc in Hs.
    repeat split; auto; lia.
  - unfold ShellNetworkDetector.MIN_CHAIN_LENGTH in Hin.
    destruct ((1 <=? _)%nat && (4 <=? _)%nat) eqn:Emin; [| destruct Hin].
    destruct (forallb (shas shellNodes)
                (ShellNetworkDetector.interior (path ++ [peer edge])))
      eqn:Eall; [| destruct Hin].
    destruct Hin as [<- | []]. simpl.
    apply andb_true_iff in Emin. destruct Emin as [_ Emin].
    apply Nat.leb_le in Emin. rewrite length_app in Emin. simpl in Emin.
    exists [], [e_amount edge], (peer edge), nextMeta.
    simpl. rewrite length_app. simpl.
    repeat split; auto; lia.
Qed.

Lemma dedupLoop_subset (chains : list ShellNetworkDetector.ShellChain)
  (seen : list string) (c : ShellNetworkDetector.ShellChain) :
  In c (ShellNetworkDetector.dedupLoop chains seen) -> In c chains.
Proof.
  revert seen. induction chains as [| x chains IH]; intros seen H; simpl in H.
  - destruct H.
  - destruct (shas seen _).
    + right. eapply IH, H.
    + destruct H as [-> | H]; [now left | right; eapply IH, H].
Qed.

Lemma interior_cons2 (a b : string) (ext : list string) (e : string) :
  ShellNetworkDetector.interior ([a; b] ++ ext ++ [e]) = b :: ext.
Proof.
  unfold ShellNetworkDetector.interior.
  change (tl ([a; b] ++ ext ++ [e])) with ((b :: ext) ++ [e]).
  apply removelast_last.
Qed.

Lemma detect_chain_shape (c : ShellNetworkDetector.ShellChain) :
  In c (ShellNetworkDetector.detect adjList reverseAdjList nodeMetadata) ->
  (4 <= List.length (ShellNetworkDetector.chain c) <= 7)%nat
  /\ (forall node,
         In node (ShellNetworkDetector.interior (ShellNetworkDetector.chain c)) ->
         exists meta, mget nodeMetadata node = Some meta /\ Spec.isShell meta)
  /\ (exists meta,
         mget nodeMetadata (hd EmptyString (ShellNetworkDetector.chain c))
         = Some meta /\ ~ Spec.isShell meta)
  /\ (exists meta,
         mget nodeMetadata (last (ShellNetworkDetector.chain c) EmptyString)
         = Some meta /\ ~ Spec.isShell meta)
  /\ S (List.length (ShellNetworkDetector.amounts c))
     = List.length (ShellNetworkDetector.chain c)
  /\ Spec.coherentAmounts (ShellNetworkDetector.amounts c).
Proof.
  unfold ShellNetworkDetector.detect. fold shellNodes.
  intros Hin.
  assert (Hin' : In c (ShellNetworkDetector.tracedChains adjList reverseAdjList
                         nodeMetadata shellNodes)).
  { destruct shellNodes; [destruct Hin |].
    unfold ShellNetworkDetector._deduplicateChains in Hin.
    eapply dedupLoop_subset, Hin. }
  clear Hin. unfold ShellNetworkDetector.tracedChains in Hin'.
  apply in_flat_map in Hin'. destruct Hin' as [shellNode [Hshell Hin]].
  apply in_flat_map in Hin. destruct Hin as [edge [_ Hin]].
  destruct (mget nodeMetadata (peer edge)) as [startMeta |] eqn:Estart;
    [| destruct Hin].
  destruct (shas shellNodes (peer edge)) eqn:Enot; [destruct Hin |].
  apply traceShellChain_invariant in Hin.
  destruct Hin as [ext [extA [e [meta [Hc [Ha [Hl [Hs [Hn [Hi [He Hm]]]]]]]]]]].
  assert (Hnonshell : forall x m, shas shellNodes x = false ->
            mget nodeMetadata x = Some m -> ~ Spec.isShell m).
  { intros x m Hx Hget Hsh. apply isShellMeta_spec in Hsh.
    assert (Ht : shas shellNodes x = true).
    { apply shellNodes_spec. exists m. now split. }
    congruence. }
  split; [exact Hn |]. split; [| split; [| split; [| split]]].
  - intros node Hnode. rewrite forallb_forall in Hi.
    apply Hi in Hnode. apply shellNodes_spec in Hnode.
    destruct Hnode as [m [Hget Hsh]]. exists m. split; [exact Hget |].
    now apply isShellMeta_spec.
  - rewrite Hc. simpl. exists startMeta. split; [exact Estart |].
    exact (Hnonshell (peer edge) startMeta Enot Estart).
  - rewrite Hc.
    change ([peer edge; shellNode] ++ ext ++ [e])
      with ((peer edge :: shellNode :: ext) ++ [e]).
    rewrite last_snoc. exists meta. split; [exact Hm |].
    exact (Hnonshell e meta He Hm).
  - rewrite Hc, Ha. simpl. rewrite !length_app. simpl. lia.
  - rewrite Ha. simpl. apply stepsCoherent_coherent. exact Hs.
Qed.

End ShellChains.

(** C6: on the graph of any transaction list, every chain the shell
    network detector emits has between 4 and 7 nodes, every interior node
    has [tx_count <= 3], [in_degree >= 1] and [out_degree >= 1], neither
    its first nor its last node satisfies that predicate, it has one hop
    amount per hop, and the hop amounts never increase and never drop by
    more than 10,000 from one hop to the next. *)
Theorem shell_chain_invariants :
  forall (txs : list Transaction) (c : ShellNetworkDetector.ShellChain),
    let metas := nodeMetadata (GraphBuilder.build txs) in
    In c (ShellNetworkDetector.detect
            (adjacencyList (GraphBuilder.build txs))
            (reverseAdjList (GraphBuilder.build txs)) metas) ->
    (4 <= List.length (ShellNetworkDetector.chain c) <= 7)%nat
    /\ (forall node,
           In node (ShellNetworkDetector.interior (ShellNetworkDetector.chain c)) ->
           exists meta,
             mget metas node = Some meta
             /\ (txCount meta <= 3)%nat /\ (1 <= inDegree meta)%nat
             /\ (1 <= outDegree meta)%nat)
    /\ (exists meta,
           mget metas (hd EmptyString (ShellNetworkDetector.chain c)) = Some meta
           /\ ~ ((txCount meta <= 3)%nat /\ (1 <= inDegree meta)%nat
                 /\ (1 <= outDegree meta)%nat))
    /\ (exists meta,
           mget metas (last (ShellNetworkDetector.chain c) EmptyString)
           = Some meta
           /\ ~ ((txCount meta <= 3)%nat /\ (1 <= inDegree meta)%nat
                 /\ (1 <= outDegree meta)%nat))
    /\ S (List.length (ShellNetworkDetector.amounts c))
       = List.length (ShellNetworkDetector.chain c)
    /\ Spec.coherentAmounts (ShellNetworkDetector.amounts c).
Proof.
  intros txs c metas Hin.
  exact (@detect_chain_shape _ _ _ (build_metadata_NoDup txs) c Hin).
Qed.

Lemma shell_chain_invariants_witness :
  exists c : ShellNetworkDetector.ShellChain,
    In c (ShellNetworkDetector.detect
            (adjacencyList (GraphBuilder.build Samples.passThrough))
            (reverseAdjList (GraphBuilder.build Samples.passThrough))
            (nodeMetadata (GraphBuilder.build Samples.passThrough)))
    /\ (4 <= List.length (ShellNetworkDetector.chain c) <= 7)%nat
    /\ Spec.coherentAmounts (ShellNetworkDetector.amounts c).
Proof.
  eexists.
  assert (Hin : In (hd (ShellNetworkDetector.mkShellChain [] [] [] [] mixed 0)
                      (ShellNetworkDetector.detect
                         (adjacencyList (GraphBuilder.build Samples.passThrough))
                         (reverseAdjList (GraphBuilder.build Samples.passThrough))
                         (nodeMetadata (GraphBuilder.build Samples.passThrough))))
                  (ShellNetworkDetector.detect
                     (adjacencyList (GraphBuilder.build Samples.passThrough))
                     (reverseAdjList (GraphBuilder.build Samples.passThrough))
                     (nodeMetadata (GraphBuilder.build Samples.passThrough)))).
  { vm_compute. left. reflexivity. }
  split; [exact Hin |].
  destruct (shell_chain_invariants Samples.passThrough _ Hin)
    as [Hlen [_ [_ [_ [_ Hco]]]]].
  split; [exact Hlen | exact Hco].
Defined.

(* ================================================================== *)
(** * The disjoint-set structure of the ring merger *)
(* ================================================================== *)

Section UnionFind.

Import ForensicsEngine.

Local Open Scope nat_scope.

Lemma setNth_length (l : list nat) (i v : nat) :
  List.length (setNth l i v) = List.length l.
Proof.
  revert i. induction l as [| x l IH]; intros [| i]; simpl; auto.
Qed.

Lemma nth_setNth_eq (l : list nat) (i v d : nat) :
  i < List.length l -> nth i (setNth l i v) d = v.
Proof.
  revert i. induction l as [| x l IH]; intros [| i] H; simpl in *; try lia.
  apply IH. lia.
Qed.

Lemma nth_setNth_ne (l : list nat) (i j v d : nat) :
  i <> j -> nth j (setNth l i v) d = nth j l d.
Proof.
  revert i j. induction l as [| x l IH]; intros [| i] [| j] H; simpl; auto.
  - contradiction.
Qed.

Lemma getNth_setNth_eq (l : list nat) (i v : nat) :
  i < List.length l -> getNth (setNth l i v) i = v.
Proof. apply nth_setNth_eq. Qed.

Lemma getNth_setNth_ne (l : list nat) (i j v : nat) :
  i <> j -> getNth (setNth l i v) j = getNth l j.
Proof. apply nth_setNth_ne. Qed.

Lemma rootAt_bounds (p : list nat) (x r k : nat) :
  rootAt p x r k ->
  x < List.length p /\ r < List.length p /\ getNth p r = r.
Proof.
  induction 1 as [x Hx Hr | x r k Hx Hne Hrec IH].
  - auto.
  - destruct IH as [_ [H1 H2]]. auto.
Qed.

Lemma rootAt_fun (p : list nat) (x r k r' k' : nat) :
  rootAt p x r k -> rootAt p x r' k' -> r = r' /\ k = k'.
Proof.
  intros H. revert r' k'.
  induction H as [x Hx Hr | x r k Hx Hne Hrec IH]; intros r' k' H'.
  - inversion H' as [x0 Hx0 Hr0 | x0 r0 k0 Hx0 Hne0 Hrec0]; subst;
      [auto | contradiction].
  - inversion H' as [x0 Hx0 Hr0 | x0 r0 k0 Hx0 Hne0 Hrec0]; subst;
      [contradiction |].
    destruct (IH _ _ Hrec0) as [-> ->]. auto.
Qed.

Lemma rootAt_of_root (p : list nat) (x r k : nat) :
  rootAt p x r k -> getNth p x = x -> r = x /\ k = 0.
Proof.
  intros H Hx. inversion H; subst; [auto | contradiction].
Qed.

(** ** Path halving *)

Section Halving.

Variable p : list nat.
Variable x r k : nat.
Hypothesis x_up : rootAt p x r (S k).

Let y := getNth p x.
Let g := getNth p y.
Let p1 := setNth p x g.

Lemma halving_x_lt : x < List.length p.
Proof. now apply rootAt_bounds in x_up. Qed.

Lemma halving_x_not_root : getNth p x <> x.
Proof.
  inversion x_up; subst. assumption.
Qed.

Lemma halving_parent : rootAt p y r k.
Proof.
  inversion x_up; subst. assumption.
Qed.

(** The grandparent is under the same root, nearer than [x]. *)
Lemma halving_grandparent : exists kg, kg <= k /\ rootAt p g r kg.
Proof.
  pose proof halving_parent as Hy.
  inversion Hy as [x0 Hx0 Hr0 | x0 r0 k0 Hx0 Hne0 Hrec0]; subst.
  - exists 0. split; [lia |]. unfold g. rewrite Hr0. exact Hy.
  - exists k0. split; [lia |]. exact Hrec0.
Qed.

Lemma halving_g_ne_x : g <> x.
Proof.
  intros Heq. destruct halving_grandparent as [kg [Hle Hg]].
  rewrite Heq in Hg. destruct (rootAt_fun Hg x_up) as [_ Hk]. lia.
Qed.

Lemma halving_roots (z : nat) : getNth p1 z = z <-> getNth p z = z.
Proof.
  unfold p1. destruct (Nat.eq_dec x z) as [<- | Hne].
  - rewrite getNth_setNth_eq by apply halving_x_lt.
    pose proof halving_g_ne_x. pose proof halving_x_not_root. tauto.
  - now rewrite getNth_setNth_ne.
Qed.

Lemma halving_keeps_roots : keepsRoots p p1.
Proof.
  unfold keepsRoots. intros z rz kz. revert z rz.
  induction kz as [kz IH] using lt_wf_ind. intros z rz Hz.
  assert (Hlen : List.length p1 = List.length p) by apply setNth_length.
  inversion Hz as [z' Hlt Hroot | z' r' k' Hlt Hne Hrec]; subst.
  - exists 0. split; [lia |]. constructor; [now rewrite Hlen |].
    now apply halving_roots.
  - destruct (Nat.eq_dec x z) as [<- | Hzx].
    + destruct (rootAt_fun Hz x_up) as [-> Hk]. injection Hk as ->.
      destruct halving_grandparent as [kg [Hle Hg]].
      destruct (IH kg ltac:(lia) _ _ Hg) as [kg' [Hle' Hg']].
      exists (S kg'). split; [lia |].
      assert (Hp1x : getNth p1 x = g).
      { unfold p1. apply getNth_setNth_eq, halving_x_lt. }
      apply root_up.
      * now rewrite Hlen.
      * rewrite Hp1x. apply halving_g_ne_x.
      * now rewrite Hp1x.
    + destruct (IH k' ltac:(lia) _ _ Hrec) as [k'' [Hle' Hrec']].
      exists (S k''). split; [lia |].
      assert (Hp1z : getNth p1 z = getNth p z).
      { unfold p1. now apply getNth_setNth_ne. }
      apply root_up.
      * now rewrite Hlen.
      * now rewrite Hp1z.
      * now rewrite Hp1z.
Qed.

End Halving.

Lemma keepsRoots_refl (p : list nat) : keepsRoots p p.
Proof. intros z r k H. exists k. auto. Qed.

Lemma keepsRoots_trans (p q s : list nat) :
  keepsRoots p q -> keepsRoots q s -> keepsRoots p s.
Proof.
  intros H1 H2 z r k H. destruct (H1 _ _ _ H) as [k1 [Hle1 Hq]].
  destruct (H2 _ _ _ Hq) as [k2 [Hle2 Hs]]. exists k2. split; [lia | exact Hs].
Qed.

(** [findFrom] returns the root and leaves a [parent] with the same roots,
    when it may take as many rounds as the index is away from its root. *)
Lemma findFrom_spec (steps : nat) (p : list nat) (x r k : nat) :
  rootAt p x r k -> k <= steps ->
  snd (findFrom steps p x) = r
  /\ List.length (fst (findFrom steps p x)) = List.length p
  /\ keepsRoots p (fst (findFrom steps p x))
  /\ (forall z, getNth (fst (findFrom steps p x)) z = z
                <-> getNth p z = z)
  /\ (forall (T : Type) (ty : nat -> T),
         (forall i, ty (getNth p i) = ty i) ->
         forall i, ty (getNth (fst (findFrom steps p x)) i)
                   = ty i).
Proof.
  revert p x k. induction steps as [| steps IH]; intros p x k Hroot Hk.
  - assert (k = 0) by lia. subst k. inversion Hroot; subst. simpl.
    repeat split; auto using keepsRoots_refl.
  - cbn [findFrom].
    destruct (getNth p x =? x) eqn:E.
    + apply Nat.eqb_eq in E. destruct (rootAt_of_root Hroot E) as [-> _].
      simpl. repeat split; auto using keepsRoots_refl.
    + apply Nat.eqb_neq in E.
      destruct k as [| k]; [inversion Hroot; subst; contradiction |].
      set (g := getNth p (getNth p x)).
      set (p1 := setNth p x g).
      assert (Hp1x : getNth p1 x = g).
      { unfold p1. apply getNth_setNth_eq. now apply rootAt_bounds in Hroot. }
      rewrite Hp1x.
      destruct (halving_grandparent Hroot) as [kg [Hle Hg]]. fold g in Hg.
      pose proof (halving_keeps_roots Hroot) as Hkeep. fold g p1 in Hkeep.
      destruct (Hkeep _ _ _ Hg) as [kg' [Hle' Hg']].
      destruct (IH p1 g kg' Hg' ltac:(lia)) as [H1 [H2 [H3 [H4 H5]]]].
      split; [exact H1 |]. split; [| split; [| split]].
      * rewrite H2. apply setNth_length.
      * eapply keepsRoots_trans; eauto.
      * intros z. rewrite H4. apply (halving_roots Hroot).
      * intros T ty Hty. apply H5. intros i. unfold p1.
        destruct (Nat.eq_dec x i) as [<- | Hne].
        -- rewrite getNth_setNth_eq by (now apply rootAt_bounds in Hroot).
           unfold g. now rewrite !Hty.
        -- rewrite getNth_setNth_ne by assumption. apply Hty.
Qed.

End UnionFind.

Section UnionFindOperations.

Import ForensicsEngine.

Local Open Scope nat_scope.

Lemma nonRoots_le (p : list nat) : nonRoots p <= List.length p.
Proof.
  unfold nonRoots. etransitivity; [apply filter_length_le |].
  now rewrite length_seq.
Qed.

Lemma nonRoots_ext (p p' : list nat) :
  List.length p' = List.length p ->
  (forall z, getNth p' z = z <-> getNth p z = z) ->
  nonRoots p' = nonRoots p.
Proof.
  intros Hlen H. unfold nonRoots. rewrite Hlen. f_equal.
  apply filter_ext. intros z. f_equal.
  apply eq_true_iff_eq. rewrite !Nat.eqb_eq. apply H.
Qed.

Lemma filter_flip_one (f g : nat -> bool) (l : list nat) (a : nat) :
  NoDup l -> In a l -> f a = false -> g a = true ->
  (forall i, i <> a -> f i = g i) ->
  List.length (List.filter g l) = S (List.length (List.filter f l)).
Proof.
  intros Hnd Hin Hf Hg Hother.
  induction l as [| x l IH]; [destruct Hin |].
  inversion Hnd as [| ? ? Hnot Hnd']. subst.
  destruct (Nat.eq_dec x a) as [-> | Hne].
  - simpl. rewrite Hf, Hg. simpl. f_equal.
    f_equal. apply filter_ext_in. intros i Hi. symmetry. apply Hother.
    intros ->. contradiction.
  - destruct Hin as [Heq | Hin]; [contradiction |].
    simpl. rewrite (Hother x Hne).
    destruct (g x); simpl; rewrite (IH Hnd' Hin); reflexivity.
Qed.

Lemma nonRoots_link (p : list nat) (ra rb : nat) :
  ra < List.length p -> getNth p ra = ra -> rb <> ra ->
  nonRoots (setNth p ra rb) = S (nonRoots p).
Proof.
  intros Hlt Hroot Hne. unfold nonRoots. rewrite setNth_length.
  apply filter_flip_one with (a := ra).
  - apply seq_NoDup.
  - apply in_seq. lia.
  - rewrite Hroot, Nat.eqb_refl. reflexivity.
  - rewrite getNth_setNth_eq by assumption.
    apply Nat.eqb_neq in Hne. now rewrite Hne.
  - intros i Hi. rewrite getNth_setNth_ne by auto. reflexivity.
Qed.

Lemma sameRoot_keeps (p p' : list nat) (z w : nat) :
  keepsRoots p p' -> sameRoot p z w -> sameRoot p' z w.
Proof.
  intros Hk [r [kz [kw [Hz Hw]]]].
  destruct (Hk _ _ _ Hz) as [kz' [_ Hz']].
  destruct (Hk _ _ _ Hw) as [kw' [_ Hw']].
  exists r, kz', kw'. now split.
Qed.

Lemma rootAt_type {T : Type} (ty : nat -> T) (p : list nat) (x r k : nat) :
  (forall i, ty (getNth p i) = ty i) -> rootAt p x r k -> ty r = ty x.
Proof.
  intros Hty. induction 1 as [x Hx Hr | x r k Hx Hne Hrec IH].
  - reflexivity.
  - now rewrite IH, Hty.
Qed.

(** [find] on a forest. *)
Lemma find_spec (p : list nat) (x : nat) :
  forest p -> x < List.length p ->
  exists k,
    rootAt p x (snd (find p x)) k
    /\ List.length (fst (find p x)) = List.length p
    /\ keepsRoots p (fst (find p x))
    /\ forest (fst (find p x))
    /\ (forall z, getNth (fst (find p x)) z = z <-> getNth p z = z)
    /\ (forall (T : Type) (ty : nat -> T),
           (forall i, ty (getNth p i) = ty i) ->
           forall i, ty (getNth (fst (find p x)) i) = ty i).
Proof.
  intros Hf Hx. destruct (Hf x Hx) as [r [k [Hroot Hk]]].
  pose proof (nonRoots_le p) as Hle. unfold find.
  destruct (findFrom_spec Hroot (Nat.le_trans _ _ _ Hk Hle))
    as [H1 [H2 [H3 [H4 H5]]]].
  exists k. rewrite H1. split; [exact Hroot |].
  split; [exact H2 |]. split; [exact H3 |]. split; [| split; assumption].
  intros z Hz. rewrite H2 in Hz. destruct (Hf z Hz) as [rz [kz [Hz1 Hz2]]].
  destruct (H3 _ _ _ Hz1) as [kz' [Hle' Hz']].
  exists rz, kz'. split; [exact Hz' |].
  rewrite (@nonRoots_ext _ _ H2 H4). lia.
Qed.

(** Hanging the root [ra] under the root [rb]. *)
Lemma link_roots (p : list nat) (ra rb : nat) :
  ra < List.length p -> rb < List.length p ->
  getNth p ra = ra -> getNth p rb = rb -> ra <> rb ->
  forall z r k,
    rootAt p z r k ->
    (r <> ra -> rootAt (setNth p ra rb) z r k)
    /\ (r = ra -> rootAt (setNth p ra rb) z rb (S k)).
Proof.
  intros Ha Hb Hra Hrb Hne z r k Hz.
  assert (Hlen : List.length (setNth p ra rb) = List.length p)
    by apply setNth_length.
  induction Hz as [z Hz Hr | z r k Hz Hnr Hrec IH].
  - split.
    + intros Hzr. constructor; [now rewrite Hlen |].
      rewrite getNth_setNth_ne by auto. exact Hr.
    + intros ->. apply root_up.
      * now rewrite Hlen.
      * rewrite getNth_setNth_eq by assumption. auto.
      * rewrite getNth_setNth_eq by assumption.
        constructor; [now rewrite Hlen |].
        rewrite getNth_setNth_ne by auto. exact Hrb.
  - assert (Hzra : ra <> z) by (intros ->; contradiction).
    destruct IH as [IH1 IH2]. split; intros Hr.
    + apply root_up; [now rewrite Hlen | |];
        rewrite getNth_setNth_ne by assumption; auto.
    + apply root_up; [now rewrite Hlen | |];
        rewrite getNth_setNth_ne by assumption; auto.
Qed.

(** [union] on a forest: the two indices end in one component, and no
    component is split. *)
Lemma union_spec (p : list nat) (a b : nat) :
  forest p -> a < List.length p -> b < List.length p ->
  forest (union p a b)
  /\ List.length (union p a b) = List.length p
  /\ sameRoot (union p a b) a b
  /\ (forall z w, sameRoot p z w -> sameRoot (union p a b) z w)
  /\ (forall (T : Type) (ty : nat -> T),
         (forall i, ty (getNth p i) = ty i) -> ty a = ty b ->
         forall i, ty (getNth (union p a b) i) = ty i).
Proof.
  intros Hf Ha Hb. unfold union.
  destruct (find_spec Hf Ha) as [ka [A1 [A2 [A3 [A4 [A5 A6]]]]]].
  destruct (find p a) as [p1 ra] eqn:E1. cbn [fst snd] in *.
  assert (Hb1 : b < List.length p1) by now rewrite A2.
  destruct (find_spec A4 Hb1) as [kb [B1 [B2 [B3 [B4 [B5 B6]]]]]].
  destruct (find p1 b) as [p2 rb] eqn:E2. cbn [fst snd] in *.
  assert (K : keepsRoots p p2) by (eapply keepsRoots_trans; eauto).
  destruct (A3 _ _ _ A1) as [ka1 [_ A1']].
  destruct (B3 _ _ _ A1') as [ka2 [_ Hra2]].
  destruct (B3 _ _ _ B1) as [kb2 [_ Hrb2]].
  destruct (ra =? rb) eqn:E.
  - apply Nat.eqb_eq in E. subst rb.
    split; [exact B4 |]. split; [congruence |]. split; [| split].
    + exists ra, ka2, kb2. now split.
    + intros z w H. eapply sameRoot_keeps; eauto.
    + intros T ty Hty _. apply B6, A6, Hty.
  - apply Nat.eqb_neq in E.
    destruct (rootAt_bounds Hra2) as [_ [Hra_lt Hra_root]].
    destruct (rootAt_bounds Hrb2) as [_ [Hrb_lt Hrb_root]].
    pose proof (link_roots Hra_lt Hrb_lt Hra_root Hrb_root E) as L.
    assert (Hnr : nonRoots (setNth p2 ra rb) = S (nonRoots p2)).
    { apply nonRoots_link; auto. }
    split; [| split; [| split; [| split]]].
    + intros z Hz. rewrite setNth_length in Hz.
      destruct (B4 z Hz) as [rz [kz [Hz1 Hz2]]].
      destruct (L _ _ _ Hz1) as [L1 L2].
      destruct (Nat.eq_dec rz ra) as [Heq | Hneq].
      * exists rb, (S kz). split; [auto | lia].
      * exists rz, kz. split; [auto | lia].
    + rewrite setNth_length. congruence.
    + destruct (L _ _ _ Hra2) as [_ La]. destruct (L _ _ _ Hrb2) as [Lb _].
      exists rb, (S ka2), kb2. split; [now apply La | apply Lb; auto].
    + intros z w H. apply (sameRoot_keeps K) in H.
      destruct H as [r [kz [kw [Hz Hw]]]].
      destruct (L _ _ _ Hz) as [Lz1 Lz2]. destruct (L _ _ _ Hw) as [Lw1 Lw2].
      destruct (Nat.eq_dec r ra) as [Heq | Hneq].
      * exists rb, (S kz), (S kw). split; auto.
      * exists r, kz, kw. split; auto.
    + intros T ty Hty Hab i.
      assert (Hty2 : forall j, ty (getNth p2 j) = ty j) by (apply B6, A6, Hty).
      destruct (Nat.eq_dec ra i) as [<- | Hne].
      * rewrite getNth_setNth_eq by assumption.
        rewrite (rootAt_type ty Hty2 Hrb2), (rootAt_type ty Hty2 Hra2).
        now symmetry.
      * rewrite getNth_setNth_ne by assumption. apply Hty2.
Qed.

Lemma initial_parent_forest (n : nat) :
  forest (seq 0 n) /\ List.length (seq 0 n) = n
  /\ (forall i, getNth (seq 0 n) i = i).
Proof.
  assert (Hget : forall i, getNth (seq 0 n) i = i).
  { intros i. unfold getNth. destruct (Nat.lt_ge_cases i n) as [H | H].
    - now rewrite seq_nth.
    - apply nth_overflow. now rewrite length_seq. }
  split; [| split; [apply length_seq | exact Hget]].
  intros x Hx. exists x, 0. split; [| lia].
  constructor; [exact Hx | apply Hget].
Qed.

End UnionFindOperations.

Section MergeLoops.

Import ForensicsEngine.

Local Open Scope nat_scope.

Variable rings : list Ring.

Let n : nat := List.length rings.

(** The pattern type of the ring at an index. *)
Let ty (i : nat) : option PatternType :=
  option_map pattern_type (nth_error rings i).

Let typed (p : list nat) : Prop := forall i, ty (getNth p i) = ty i.

Lemma PatternType_eqb_eq (a b : PatternType) :
  PatternType_eqb a b = true <-> a = b.
Proof. destruct a, b; simpl; split; congruence. Qed.

Lemma shouldUnion_type (a b : Ring) :
  shouldUnion a b = true -> pattern_type a = pattern_type b.
Proof.
  unfold shouldUnion. intros H. apply andb_true_iff in H.
  now apply PatternType_eqb_eq.
Qed.

Lemma pairLoopInner_spec (ringI : Ring) (i : nat) (later : list Ring) :
  i < n -> nth_error rings i = Some ringI ->
  forall (j : nat) (p : list nat),
    forest p -> List.length p = n -> typed p ->
    j + List.length later = n ->
    (forall t, nth_error later t = nth_error rings (j + t)) ->
    let p' := pairLoopInner ringI i j later p in
    forest p' /\ List.length p' = n /\ typed p'
    /\ (forall z w, sameRoot p z w -> sameRoot p' z w)
    /\ (forall t ringJ, nth_error later t = Some ringJ ->
                        shouldUnion ringI ringJ = true ->
                        sameRoot p' i (j + t)).
Proof.
  intros Hi HringI. induction later as [| ringJ later IH];
    intros j p Hf Hlen Hty Hj Hnth; cbn [pairLoopInner].
  - repeat split; auto. intros [| t] ringJ H; discriminate.
  - set (p1 := if shouldUnion ringI ringJ then union p i j else p).
    simpl in Hj.
    assert (Hjn : j < n) by lia.
    assert (HringJ : nth_error rings j = Some ringJ).
    { rewrite <- (Nat.add_0_r j), <- Hnth. reflexivity. }
    assert (H1 : forest p1 /\ List.length p1 = n /\ typed p1
                 /\ (forall z w, sameRoot p z w -> sameRoot p1 z w)
                 /\ (shouldUnion ringI ringJ = true -> sameRoot p1 i j)).
    { unfold p1. destruct (shouldUnion ringI ringJ) eqn:E.
      - assert (Hi' : i < List.length p) by lia.
        assert (Hj' : j < List.length p) by lia.
        destruct (union_spec Hf Hi' Hj') as [U1 [U2 [U3 [U4 U5]]]].
        split; [exact U1 |]. split; [congruence |].
        split; [| split; [exact U4 | intros _; exact U3]].
        assert (Hij : ty i = ty j).
        { unfold ty. rewrite HringI, HringJ. simpl.
          f_equal. now apply shouldUnion_type. }
        exact (U5 _ ty Hty Hij).
      - repeat split; auto. discriminate. }
    destruct H1 as [F1 [L1 [T1 [S1 S2]]]].
    assert (Hnth' : forall t, nth_error later t = nth_error rings (S j + t)).
    { intros t. pose proof (Hnth (S t)) as Ht. cbn [nth_error] in Ht.
      rewrite Ht. f_equal. lia. }
    destruct (IH (S j) p1 F1 L1 T1 ltac:(lia) Hnth') as [F2 [L2 [T2 [S3 S4]]]].
    split; [exact F2 |]. split; [exact L2 |]. split; [exact T2 |].
    split; [intros z w H; apply S3, S1, H |].
    intros [| t] ringJ' Hget Hsu.
    + simpl in Hget. injection Hget as <-. rewrite Nat.add_0_r.
      apply S3, S2, Hsu.
    + simpl in Hget. rewrite Nat.add_succ_r. apply (S4 t ringJ' Hget Hsu).
Qed.

Lemma pairLoop_spec (fromI : list Ring) :
  forall (i : nat) (p : list nat),
    forest p -> List.length p = n -> typed p ->
    i + List.length fromI = n ->
    (forall t, nth_error fromI t = nth_error rings (i + t)) ->
    let p' := pairLoop i fromI p in
    forest p' /\ List.length p' = n /\ typed p'
    /\ (forall z w, sameRoot p z w -> sameRoot p' z w)
    /\ (forall a b ringA ringB,
           i <= a -> a < b ->
           nth_error rings a = Some ringA -> nth_error rings b = Some ringB ->
           shouldUnion ringA ringB = true -> sameRoot p' a b).
Proof.
  induction fromI as [| ringI fromI IH]; intros i p Hf Hlen Hty Hi Hnth;
    cbn [pairLoop].
  - repeat split; auto. intros a b ringA ringB Ha Hab HA HB _.
    simpl in Hi. assert (Hbn : b < n).
    { apply nth_error_Some. unfold n. congruence. }
    lia.
  - simpl in Hi. assert (Hin : i < n) by lia.
    assert (HringI : nth_error rings i = Some ringI).
    { rewrite <- (Nat.add_0_r i), <- Hnth. reflexivity. }
    assert (Hnth' : forall t, nth_error fromI t = nth_error rings (S i + t)).
    { intros t. pose proof (Hnth (S t)) as Ht. cbn [nth_error] in Ht.
      rewrite Ht. f_equal. lia. }
    destruct (@pairLoopInner_spec ringI i fromI Hin HringI (S i) p Hf Hlen
                Hty ltac:(lia) Hnth') as [F1 [L1 [T1 [S1 S2]]]].
    destruct (IH (S i) _ F1 L1 T1 ltac:(lia) Hnth') as [F2 [L2 [T2 [S3 S4]]]].
    split; [exact F2 |]. split; [exact L2 |]. split; [exact T2 |].
    split; [intros z w H; apply S3, S1, H |].
    intros a b ringA ringB Ha Hab HA HB Hsu.
    destruct (Nat.eq_dec a i) as [-> | Hne].
    + assert (ringA = ringI) by congruence. subst ringA.
      apply S3. replace b with (S i + (b - S i)) by lia.
      apply (S2 (b - S i) ringB); [| exact Hsu].
      rewrite Hnth'. replace (S i + (b - S i)) with b by lia. exact HB.
    + apply (S4 a b ringA ringB); auto. lia.
Qed.

(** ** Grouping by root *)

Lemma glookup_In (groups : list (nat * list Ring)) (r : nat) (g : list Ring) :
  glookup groups r = Some g -> In (r, g) groups.
Proof.
  induction groups as [| [k g0] groups IH]; simpl; [discriminate |].
  destruct (k =? r) eqn:E.
  - apply Nat.eqb_eq in E. intros H. left. congruence.
  - intros H. right. auto.
Qed.

Lemma In_glookup (groups : list (nat * list Ring)) (r : nat) (g : list Ring) :
  NoDup (map fst groups) -> In (r, g) groups -> glookup groups r = Some g.
Proof.
  induction groups as [| [k g0] groups IH]; simpl; [intros _ [] |].
  intros Hnd [Heq | Hin].
  - inversion Heq. subst. now rewrite Nat.eqb_refl.
  - inversion Hnd as [| ? ? Hnot Hnd']. subst.
    destruct (k =? r) eqn:E.
    + apply Nat.eqb_eq in E. subst. exfalso. apply Hnot.
      change r with (fst (r, g)). now apply in_map.
    + now apply IH.
Qed.

Lemma glookup_groupPush (groups : list (nat * list Ring)) (root r : nat)
  (x : Ring) :
  glookup (groupPush groups root x) r
  = if root =? r
    then Some (match glookup groups root with
               | Some g => g ++ [x]
               | None => [x]
               end)
    else glookup groups r.
Proof.
  induction groups as [| [k g0] groups IH]; simpl.
  - reflexivity.
  - destruct (k =? root) eqn:E; simpl.
    + apply Nat.eqb_eq in E. subst k. destruct (root =? r); reflexivity.
    + destruct (k =? r) eqn:E'.
      * apply Nat.eqb_eq in E'. subst k.
        rewrite Nat.eqb_sym, E. reflexivity.
      * exact IH.
Qed.

Lemma In_glookup_some (groups : list (nat * list Ring)) (r : nat)
  (g : list Ring) :
  In (r, g) groups -> glookup groups r <> None.
Proof.
  induction groups as [| [k g0] groups IH]; simpl; [intros [] |].
  intros [Heq | Hin].
  - inversion Heq. subst. rewrite Nat.eqb_refl. discriminate.
  - destruct (k =? r); [discriminate | now apply IH].
Qed.

Lemma groupPush_keys (groups : list (nat * list Ring)) (root : nat) (x : Ring) :
  NoDup (map fst groups) -> NoDup (map fst (groupPush groups root x)).
Proof.
  induction groups as [| [k g0] groups IH]; simpl; intros Hnd.
  - constructor; [intros [] | constructor].
  - destruct (k =? root) eqn:E; simpl; [exact Hnd |].
    inversion Hnd as [| ? ? Hnot Hnd']. subst.
    constructor; [| now apply IH].
    intros Hin. apply Hnot. apply in_map_iff in Hin.
    destruct Hin as [[k' g'] [Hk Hin]]. simpl in Hk. subst k'.
    pose proof (In_glookup_some _ _ _ Hin) as Hl.
    rewrite glookup_groupPush in Hl.
    apply Nat.eqb_neq in E.
    assert (Hrk : (root =? k) = false) by (apply Nat.eqb_neq; auto).
    rewrite Hrk in Hl.
    destruct (glookup groups k) as [g |] eqn:Eg; [| contradiction].
    apply glookup_In in Eg. change k with (fst (k, g)). now apply in_map.
Qed.

(** What the grouping loop has established once the rings before index
    [i] are placed; [p0] is the [parent] the pairwise loop left. *)
Let grouped (p0 : list nat) (groups : list (nat * list Ring)) (i : nat)
  : Prop :=
  NoDup (map fst groups)
  /\ (forall t ring, t < i -> nth_error rings t = Some ring ->
        exists r k g, rootAt p0 t r k /\ glookup groups r = Some g
                      /\ In ring g)
  /\ (forall r g, glookup groups r = Some g ->
        g <> [] /\ forall x, In x g ->
                             In x rings /\ Some (pattern_type x) = ty r).

Lemma groupLoop_spec (p0 : list nat) (fromI : list Ring) :
  forest p0 -> List.length p0 = n -> typed p0 ->
  forall (i : nat) (p : list nat) (groups : list (nat * list Ring)),
    forest p -> List.length p = n -> keepsRoots p0 p ->
    i + List.length fromI = n ->
    (forall t, nth_error fromI t = nth_error rings (i + t)) ->
    grouped p0 groups i ->
    grouped p0 (groupLoop i fromI p groups) n.
Proof.
  intros Hf0 Hlen0 Hty0. induction fromI as [| ring fromI IH];
    intros i p groups Hf Hlen Hkeep Hi Hnth Hg; cbn [groupLoop].
  - simpl in Hi. rewrite Nat.add_0_r in Hi. now subst i.
  - simpl in Hi. assert (Hin : i < n) by lia.
    assert (Hring : nth_error rings i = Some ring).
    { rewrite <- (Nat.add_0_r i), <- Hnth. reflexivity. }
    assert (Hnth' : forall t, nth_error fromI t = nth_error rings (S i + t)).
    { intros t. pose proof (Hnth (S t)) as Ht. cbn [nth_error] in Ht.
      rewrite Ht. f_equal. lia. }
    assert (Hip : i < List.length p) by lia.
    destruct (find_spec Hf Hip) as [k [A1 [A2 [A3 [A4 [A5 A6]]]]]].
    destruct (find p i) as [p' root] eqn:E. cbn [fst snd] in *.
    apply IH; auto; try lia; try congruence.
    + eapply keepsRoots_trans; eauto.
    + destruct Hg as [G1 [G2 G3]].
      (* the root of [i] in [p0] is [root] *)
      assert (Hroot0 : exists k0, rootAt p0 i root k0).
      { destruct (Hf0 i ltac:(lia)) as [r0 [k0 [H0 _]]].
        destruct (Hkeep _ _ _ H0) as [k0' [_ H0']].
        destruct (rootAt_fun H0' A1) as [<- _]. now exists k0. }
      destruct Hroot0 as [k0 Hroot0].
      assert (Htyroot : ty root = ty i) by (apply (rootAt_type ty Hty0 Hroot0)).
      split; [now apply groupPush_keys |]. split.
      * intros t ring' Ht Hget.
        destruct (Nat.eq_dec t i) as [-> | Hne].
        -- assert (ring' = ring) by congruence. subst ring'.
           exists root, k0. eexists. split; [exact Hroot0 |].
           rewrite glookup_groupPush, Nat.eqb_refl. split; [reflexivity |].
           destruct (glookup groups root); [apply in_or_app; right |]; now left.
        -- destruct (G2 t ring' ltac:(lia) Hget) as [r [kr [g [R1 [R2 R3]]]]].
           exists r, kr. rewrite glookup_groupPush.
           destruct (root =? r) eqn:Er.
           ++ apply Nat.eqb_eq in Er. subst r. rewrite R2.
              eexists. split; [exact R1 |]. split; [reflexivity |].
              apply in_or_app. now left.
           ++ exists g. auto.
      * intros r g Hlook. rewrite glookup_groupPush in Hlook.
        destruct (root =? r) eqn:Er.
        -- apply Nat.eqb_eq in Er. subst r. injection Hlook as <-.
           assert (Hnew : In ring rings /\ Some (pattern_type ring) = ty root).
           { split; [eapply nth_error_In; eauto |].
             rewrite Htyroot. unfold ty. now rewrite Hring. }
           destruct (glookup groups root) as [g0 |] eqn:E0.
           ++ destruct (G3 _ _ E0) as [_ Hall]. split.
              ** intros Hnil. apply app_eq_nil in Hnil. destruct Hnil. discriminate.
              ** intros x Hx. apply in_app_or in Hx.
                 destruct Hx as [Hx | [<- | []]]; auto.
           ++ split; [discriminate |]. intros x [<- | []]. exact Hnew.
        -- now apply G3.
Qed.

(** The groups of [_mergeOverlappingRings]: two rings of one pattern type
    that overlap by more than half are in one group; a group is not empty,
    holds input rings only, all of one pattern type; and every input ring
    is in a group. *)
Lemma ringGroups_spec :
  (forall a b ringA ringB,
      a < b -> nth_error rings a = Some ringA ->
      nth_error rings b = Some ringB -> shouldUnion ringA ringB = true ->
      exists g, In g (ringGroups rings) /\ In ringA g /\ In ringB g)
  /\ (forall g, In g (ringGroups rings) ->
                g <> []
                /\ (forall x, In x g -> In x rings)
                /\ (forall x y, In x g -> In y g ->
                                pattern_type x = pattern_type y))
  /\ (forall t ring, nth_error rings t = Some ring ->
                     exists g, In g (ringGroups rings) /\ In ring g).
Proof.
  destruct (initial_parent_forest n) as [F0 [L0 G0]].
  assert (T0 : typed (seq 0 n)).
  { intros i. now rewrite G0. }
  destruct (@pairLoop_spec rings 0 (seq 0 n) F0 L0 T0 eq_refl
              (fun t => eq_refl)) as [F1 [L1 [T1 [_ S1]]]].
  set (p0 := pairLoop 0 rings (seq 0 n)) in *.
  assert (Hg0 : grouped p0 [] 0).
  { split; [constructor |]. split.
    - intros t ring Ht. lia.
    - intros r g H. discriminate. }
  pose proof (@groupLoop_spec p0 rings F1 L1 T1 0 p0 [] F1 L1
                (@keepsRoots_refl p0) eq_refl (fun t => eq_refl) Hg0)
    as [K1 [K2 K3]].
  unfold ringGroups. fold n. fold p0.
  set (G := groupLoop 0 rings p0 []) in *.
  assert (Hbound : forall t ring, nth_error rings t = Some ring -> t < n).
  { intros t ring H. apply nth_error_Some. congruence. }
  split; [| split].
  - intros a b ringA ringB Hab HA HB Hsu.
    destruct (S1 a b ringA ringB (Nat.le_0_l a) Hab HA HB Hsu)
      as [r [ka [kb [Ra Rb]]]].
    destruct (K2 a ringA (Hbound _ _ HA) HA) as [r1 [k1 [g1 [R1 [L1' I1]]]]].
    destruct (K2 b ringB (Hbound _ _ HB) HB) as [r2 [k2 [g2 [R2 [L2' I2]]]]].
    destruct (rootAt_fun R1 Ra) as [-> _].
    destruct (rootAt_fun R2 Rb) as [-> _].
    assert (g2 = g1) by congruence. subst g2.
    exists g1. split; [| now split].
    apply glookup_In in L1'. change g1 with (snd (r, g1)). now apply in_map.
  - intros g Hg. apply in_map_iff in Hg. destruct Hg as [[r g'] [Hs Hin]].
    simpl in Hs. subst g'. apply (In_glookup _ _ _ K1) in Hin.
    destruct (K3 _ _ Hin) as [Hne Hall]. split; [exact Hne |]. split.
    + intros x Hx. now apply Hall.
    + intros x y Hx Hy. destruct (Hall x Hx) as [_ Tx].
      destruct (Hall y Hy) as [_ Ty]. congruence.
  - intros t ring Ht.
    destruct (K2 t ring (Hbound _ _ Ht) Ht) as [r1 [k1 [g1 [R1 [L1' I1]]]]].
    exists g1. split; [| exact I1].
    apply glookup_In in L1'. change g1 with (snd (r1, g1)). now apply in_map.
Qed.

End MergeLoops.

(* ================================================================== *)
(** * Merged rings (claims C1 and C2) *)
(* ================================================================== *)

Lemma mergeOverlappingRings_groups (rings : list Ring) (r : Ring) :
  In r (ForensicsEngine._mergeOverlappingRings rings) ->
  In r rings
  \/ exists g, In g (ForensicsEngine.ringGroups rings)
               /\ In r (ForensicsEngine.mergeOne g).
Proof.
  unfold ForensicsEngine._mergeOverlappingRings.
  destruct (List.length rings <=? 1)%nat; [now left |].
  intros H. apply in_flat_map in H. now right.
Qed.

(** The two shell chains of [forkedChain] are merged into one ring of kind
    [shell_network] that has no [chain_length] and no [amount_pattern],
    while each of the two rings it was made of had both. *)
Lemma merged_shell_ring_drops_chain_length :
  (exists r : Ring,
      ForensicsEngine.fraud_rings
        (ForensicsEngine.analyze Samples.utcHours 0 1000 Samples.forkedChain)
      = [r]
      /\ pattern_type r = shell_network
      /\ member_accounts r = ["O1"; "S1"; "S2"; "E1"; "E2"]%string
      /\ chain_length r = None /\ amount_pattern r = None)
  /\ map (fun r => (pattern_type r, chain_length r, amount_pattern r))
       (ForensicsEngine.fraudRings
          (ForensicsEngine.rawFindings Samples.utcHours Samples.forkedChain))
     = [ (shell_network, Some 4%nat, Some mixed);
         (shell_network, Some 4%nat, Some mixed) ].
Proof.
  split.
  - eexists. split; [vm_compute; reflexivity |]. repeat split.
  - vm_compute. reflexivity.
Qed.

(** C1, amended: a ring in the output of the merger is either an input
    ring, unchanged, or the merge of a group of two or more input rings of
    one pattern type; the members of a merged ring are the union of the
    members of the group, without duplicates; its [ring_id] and
    [pattern_type] are those of the first ring of the group and its
    [risk_score] the largest of the group; and it has none of the
    kind-specific fields: no [cycle_length], [chain_length],
    [amount_pattern], [temporal_window_hours], [aggregatorNode] or
    [disperserNode]. *)
Theorem merged_ring_fields :
  forall (rings : list Ring) (r : Ring),
    In r (ForensicsEngine._mergeOverlappingRings rings) ->
    In r rings
    \/ exists (first second : Ring) (rest : list Ring),
         In (first :: second :: rest) (ForensicsEngine.ringGroups rings)
         /\ (forall x, In x (first :: second :: rest) ->
                       In x rings /\ pattern_type x = pattern_type first)
         /\ (forall m, In m (member_accounts r)
                       <-> exists x, In x (first :: second :: rest)
                                     /\ In m (member_accounts x))
         /\ NoDup (member_accounts r)
         /\ ring_id r = ring_id first
         /\ pattern_type r = pattern_type first
         /\ risk_score r
            = fold_left (fun m x => Math_max m (risk_score x))
                (first :: second :: rest) 0%Q
         /\ cycle_length r = None /\ chain_length r = None
         /\ amount_pattern r = None /\ temporal_window_hours r = None
         /\ aggregatorNode r = None /\ disperserNode r = None.
Proof.
  intros rings r Hin.
  destruct (mergeOverlappingRings_groups rings r Hin) as [H | [g [Hg Hr]]];
    [now left |].
  destruct (ringGroups_spec rings) as [_ [Hgroups _]].
  destruct (Hgroups g Hg) as [Hne [Hsub Hty]].
  destruct g as [| first [| second rest]].
  - destruct Hr.
  - destruct Hr as [<- | []]. left. apply Hsub. now left.
  - right. exists first, second, rest.
    destruct Hr as [<- | []]. cbn [ForensicsEngine.mergeOne].
    unfold ForensicsEngine.mergeGroup.
    cbn [member_accounts ring_id pattern_type risk_score cycle_length
           chain_length amount_pattern temporal_window_hours aggregatorNode
           disperserNode].
    split; [exact Hg |]. split.
    { intros x Hx. split; [now apply Hsub |]. apply Hty; [exact Hx | now left]. }
    split.
    { intros m. rewrite setOf_In, in_flat_map. reflexivity. }
    split; [apply setOf_NoDup |].
    repeat split; reflexivity.
Qed.

Lemma merged_ring_fields_witness :
  exists r : Ring,
    In r (ForensicsEngine._mergeOverlappingRings Samples.threeCycleRings)
    /\ ~ In r Samples.threeCycleRings
    /\ cycle_length r = None.
Proof.
  eexists.
  assert (Hin : In (hd (ForensicsEngine.plainRing "" [] cycle 0)
                      (ForensicsEngine._mergeOverlappingRings
                         Samples.threeCycleRings))
                  (ForensicsEngine._mergeOverlappingRings
                     Samples.threeCycleRings)).
  { left. reflexivity. }
  split; [exact Hin |].
  assert (Hnot : ~ In (hd (ForensicsEngine.plainRing "" [] cycle 0)
                         (ForensicsEngine._mergeOverlappingRings
                            Samples.threeCycleRings))
                   Samples.threeCycleRings).
  { vm_compute. intros [H | [H | [H | []]]]; discriminate. }
  split; [exact Hnot |].
  destruct (merged_ring_fields Samples.threeCycleRings _ Hin)
    as [H | [first [second [rest [_ [_ [_ [_ [_ [_ [_ [H _]]]]]]]]]]]].
  - contradiction.
  - exact H.
Defined.

(** The output for [braidedChains] has two rings of kind [shell_network]:
    the merge of three chains, with ten members, and the chain
    [f1 -> u -> v -> f2], all four members of which are in the first. *)
Lemma merged_rings_still_overlap :
  exists r1 r2 : Ring,
    ForensicsEngine.fraud_rings
      (ForensicsEngine.analyze Samples.utcHours 0 1000 Samples.braidedChains)
    = [r1; r2]
    /\ ring_id r1 <> ring_id r2
    /\ pattern_type r1 = pattern_type r2
    /\ (ForensicsEngine.overlapRatio r1 r2 == 1)%Q
    /\ ~ (ForensicsEngine.overlapRatio r1 r2 <= 1 # 2)%Q.
Proof.
  eexists. eexists. split; [vm_compute; reflexivity |].
  split; [discriminate |]. split; [reflexivity |].
  split; [vm_compute; reflexivity |].
  vm_compute. intros H. apply H. reflexivity.
Qed.

(** C2, amended: two rings of identical pattern type that enter the merger
    with an overlap ratio above 0.5 are absorbed into one output ring,
    which holds the members of both; hence two input rings of identical
    pattern type that no output ring holds together overlap by at most
    0.5.  (A merged ring itself can overlap another output ring of its type
    by more than 0.5.) *)
Theorem overlapping_rings_share_output_ring :
  forall (rings : list Ring) (a b : nat) (ringA ringB : Ring),
    (a < b)%nat ->
    nth_error rings a = Some ringA -> nth_error rings b = Some ringB ->
    pattern_type ringA = pattern_type ringB ->
    ((1 # 2 < ForensicsEngine.overlapRatio ringA ringB)%Q ->
     exists r, In r (ForensicsEngine._mergeOverlappingRings rings)
               /\ incl (member_accounts ringA) (member_accounts r)
               /\ incl (member_accounts ringB) (member_accounts r))
    /\ ((forall r, In r (ForensicsEngine._mergeOverlappingRings rings) ->
                   ~ (incl (member_accounts ringA) (member_accounts r)
                      /\ incl (member_accounts ringB) (member_accounts r))) ->
        (ForensicsEngine.overlapRatio ringA ringB <= 1 # 2)%Q).
Proof.
  intros rings a b ringA ringB Hab HA HB Hty.
  assert (Hpos : (1 # 2 < ForensicsEngine.overlapRatio ringA ringB)%Q ->
     exists r, In r (ForensicsEngine._mergeOverlappingRings rings)
               /\ incl (member_accounts ringA) (member_accounts r)
               /\ incl (member_accounts ringB) (member_accounts r)).
  { intros Hov.
    assert (Hsu : ForensicsEngine.shouldUnion ringA ringB = true).
    { unfold ForensicsEngine.shouldUnion. apply andb_true_iff. split.
      - now apply PatternType_eqb_eq.
      - now apply Qltb_lt. }
    destruct (ringGroups_spec rings) as [Hsame _].
    destruct (Hsame a b ringA ringB Hab HA HB Hsu) as [g [Hg [IA IB]]].
    assert (Hlen : (List.length rings <=? 1)%nat = false).
    { apply Nat.leb_gt.
      assert (b < List.length rings)%nat by (apply nth_error_Some; congruence).
      lia. }
    unfold ForensicsEngine._mergeOverlappingRings. rewrite Hlen.
    destruct g as [| first [| second rest]].
    - destruct IA.
    - destruct IA as [<- | []]. destruct IB as [<- | []].
      exists first. split; [| split; apply incl_refl].
      apply in_flat_map. exists [first]. split; [exact Hg | now left].
    - exists (ForensicsEngine.mergeGroup first (first :: second :: rest)).
      split; [| split].
      + apply in_flat_map. exists (first :: second :: rest).
        split; [exact Hg | now left].
      + intros m Hm. cbn [ForensicsEngine.mergeGroup member_accounts].
        apply setOf_In, in_flat_map. exists ringA. now split.
      + intros m Hm. cbn [ForensicsEngine.mergeGroup member_accounts].
        apply setOf_In, in_flat_map. exists ringB. now split. }
  split; [exact Hpos |].
  intros Hnone.
  destruct (Qlt_le_dec (1 # 2) (ForensicsEngine.overlapRatio ringA ringB))
    as [Hlt | Hle]; [| exact Hle].
  destruct (Hpos Hlt) as [r [Hr [H1 H2]]].
  exfalso. apply (Hnone r Hr). now split.
Qed.

Lemma overlapping_rings_share_output_ring_witness :
  exists r : Ring,
    In r (ForensicsEngine._mergeOverlappingRings Samples.threeCycleRings)
    /\ incl ["1"; "2"; "3"]%string (member_accounts r)
    /\ incl ["2"; "3"; "4"]%string (member_accounts r).
Proof.
  refine (proj1 (@overlapping_rings_share_output_ring Samples.threeCycleRings
                   0 1 _ _ _ eq_refl eq_refl eq_refl) _).
  - lia.
  - vm_compute. reflexivity.
Defined.

(* ================================================================== *)
(** * The ring id of a suspicious account *)
(* ================================================================== *)

Section RingIds.

Import ForensicsEngine.

Lemma addAccountSuspicion_touches (score : Q) (pattern id : string) :
  touches id (fun m a => _addAccountSuspicion m a score pattern id).
Proof.
  intros m a Hnd. unfold _addAccountSuspicion, firstRing.
  destruct (mhas m a) eqn:Ehas.
  - unfold mhas in Ehas. destruct (mget m a) as [d |] eqn:Eget; [| discriminate].
    split; [now apply mset_NoDup |]. split.
    + intros a' Hne. rewrite mget_mset.
      apply not_eq_sym in Hne. apply String.eqb_neq in Hne. now rewrite Hne.
    + eexists. rewrite mget_mset, String.eqb_refl. split; [reflexivity |].
      cbn [ringIds]. destruct (ringIds d) as [| x l]; simpl.
      * reflexivity.
      * destruct (_ || _); reflexivity.
  - assert (Eget : mget m a = None).
    { unfold mhas in Ehas. destruct (mget m a); [discriminate | reflexivity]. }
    rewrite mget_mset, String.eqb_refl, Eget.
    split; [now apply mset_NoDup, mset_NoDup |]. split.
    + intros a' Hne. rewrite !mget_mset.
      apply not_eq_sym in Hne. apply String.eqb_neq in Hne. now rewrite Hne.
    + eexists. rewrite mget_mset, String.eqb_refl. split; reflexivity.
Qed.

Lemma firstRing_idem (m m' : Map Suspicion) (a id : string) (d : Suspicion) :
  mget m' a = Some d -> nth_error (ringIds d) 0 = firstRing m a id ->
  firstRing m' a id = firstRing m a id.
Proof.
  intros Hget Hfirst. unfold firstRing at 1. rewrite Hget, Hfirst.
  unfold firstRing. destruct (mget m a) as [d0 |]; [| reflexivity].
  destruct (nth_error (ringIds d0) 0); reflexivity.
Qed.

(** Several calls for one account, one after the other. *)
Lemma touches_patterns (score : Q) (id : string) (patterns : list string) :
  patterns <> [] ->
  touches id
    (fun m a =>
       fold_left (fun m' pattern => _addAccountSuspicion m' a score pattern id)
         patterns m).
Proof.
  intros Hne m a Hnd. destruct patterns as [| p0 patterns]; [contradiction |].
  clear Hne. cbn [fold_left].
  destruct (@addAccountSuspicion_touches score p0 id m a Hnd)
    as [N1 [O1 [d1 [G1 F1]]]].
  set (m1 := _addAccountSuspicion m a score p0 id) in *.
  assert (H : forall m', NoDup (mkeys m') ->
            (forall a', a' <> a -> mget m' a' = mget m a') ->
            (exists d', mget m' a = Some d'
                        /\ nth_error (ringIds d') 0 = firstRing m a id) ->
            let m2 := fold_left
                        (fun m0 pattern =>
                           _addAccountSuspicion m0 a score pattern id)
                        patterns m' in
            NoDup (mkeys m2)
            /\ (forall a', a' <> a -> mget m2 a' = mget m a')
            /\ exists d', mget m2 a = Some d'
                          /\ nth_error (ringIds d') 0 = firstRing m a id).
  { clear. induction patterns as [| p patterns IH]; intros m' N O [d [G F]].
    - simpl. split; [exact N |]. split; [exact O |]. now exists d.
    - cbn [fold_left].
      destruct (@addAccountSuspicion_touches score p id m' a N)
        as [N2 [O2 [d2 [G2 F2]]]].
      apply IH; auto.
      + intros a' Hne. rewrite O2 by assumption. now apply O.
      + exists d2. split; [exact G2 |]. rewrite F2.
        eapply firstRing_idem; eauto. }
  apply H; auto. now exists d1.
Qed.

(** One update per member. *)
Lemma fold_touches (id : string)
  (U : Map Suspicion -> string -> Map Suspicion) (members : list string) :
  touches id U ->
  forall m, NoDup (mkeys m) ->
    NoDup (mkeys (fold_left U members m))
    /\ (forall a, ~ In a members -> mget (fold_left U members m) a = mget m a)
    /\ (forall a, In a members ->
          exists d, mget (fold_left U members m) a = Some d
                    /\ nth_error (ringIds d) 0 = firstRing m a id).
Proof.
  intros HU. induction members as [| x members IH]; intros m Hnd.
  - simpl. split; [exact Hnd |]. split; [reflexivity | intros a []].
  - cbn [fold_left]. destruct (HU m x Hnd) as [N1 [O1 [d1 [G1 F1]]]].
    destruct (IH _ N1) as [N2 [O2 I2]].
    split; [exact N2 |]. split.
    + intros a Hnot. rewrite O2 by (intros H; apply Hnot; now right).
      apply O1. intros ->. apply Hnot. now left.
    + intros a Hin.
      destruct (in_dec string_dec a members) as [Hmem | Hnmem].
      * destruct (I2 a Hmem) as [d [G F]]. exists d. split; [exact G |].
        rewrite F. destruct (string_dec a x) as [-> | Hne].
        -- eapply firstRing_idem; eauto.
        -- unfold firstRing. now rewrite O1.
      * destruct Hin as [<- | Hin]; [| contradiction].
        exists d1. split; [| exact F1]. now rewrite O2.
Qed.

Lemma firstRingWith_app (rings : list Ring) (a : string) (r new : Ring) :
  firstRingWith rings a r -> firstRingWith (rings ++ [new]) a r.
Proof.
  intros [pre [post [Heq [Hin Hpre]]]]. exists pre, (post ++ [new]).
  split; [| now split]. rewrite Heq, <- app_assoc. reflexivity.
Qed.

(** Appending a ring and updating the map once per member keeps the raw
    rings and the map in agreement. *)
Lemma ringsAgree_step (st : BuildRings) (ring : Ring)
  (U : Map Suspicion -> string -> Map Suspicion) :
  touches (ring_id ring) U -> ringsAgree st ->
  ringsAgree
    (mkBuildRings (S (ringCounter st)) (fraudRings st ++ [ring])
       (fold_left U (member_accounts ring) (accountSuspicionMap st))).
Proof.
  intros HU [Hnd [Hfirst Hall]].
  destruct (@fold_touches _ _ (member_accounts ring) HU _ Hnd) as [N [O I]].
  unfold ringsAgree. cbn [accountSuspicionMap fraudRings].
  split; [exact N |]. split.
  - intros a d Hget.
    destruct (in_dec string_dec a (member_accounts ring)) as [Hmem | Hnmem].
    + destruct (I a Hmem) as [d' [G F]].
      assert (d' = d) by congruence. subst d'.
      unfold firstRing in F.
      destruct (mget (accountSuspicionMap st) a) as [d0 |] eqn:E0.
      * destruct (Hfirst a d0 E0) as [r [Hr Hid]]. rewrite Hid in F.
        exists r. split; [now apply firstRingWith_app | exact F].
      * exists ring. split; [| exact F].
        exists (fraudRings st), []. split; [reflexivity |].
        split; [exact Hmem |].
        intros r' Hr' Hin. apply (Hall r' a Hr' Hin). exact E0.
    + rewrite O in Hget by assumption.
      destruct (Hfirst a d Hget) as [r [Hr Hid]].
      exists r. split; [now apply firstRingWith_app | exact Hid].
  - intros r a Hr Hin. apply in_app_or in Hr.
    destruct (in_dec string_dec a (member_accounts ring)) as [Hmem | Hnmem].
    + destruct (I a Hmem) as [d' [G F]]. congruence.
    + rewrite O by assumption. destruct Hr as [Hr | [<- | []]].
      * now apply (Hall r a).
      * contradiction.
Qed.

End RingIds.

Section RawFindings.

Import ForensicsEngine.

Lemma fold_left_invariant {A B : Type} (P : A -> Prop) (step : A -> B -> A)
  (l : list B) (init : A) :
  (forall acc x, In x l -> P acc -> P (step acc x)) -> P init ->
  P (fold_left step l init).
Proof.
  revert init. induction l as [| x l IH]; intros init Hstep Hinit; simpl.
  - exact Hinit.
  - apply IH.
    + intros acc y Hy. apply Hstep. now right.
    + apply Hstep; [now left | exact Hinit].
Qed.

Lemma smurf_detect_types (getHours : Z -> Z) (adj rev : Map (list AdjEdge))
  (metas : Map NodeMeta) (g : SmurfingDetector.SmurfGroup) :
  In g (SmurfingDetector.detect getHours adj rev metas) -> smurfType g.
Proof.
  unfold SmurfingDetector.detect, SmurfingDetector._detectCombinedFanInFanOut,
    SmurfingDetector._detectFanOut, SmurfingDetector._detectFanIn.
  set (P := fun groups : list SmurfingDetector.SmurfGroup =>
              forall g0, In g0 groups -> smurfType g0).
  assert (Happ : forall groups g1, P groups -> smurfType g1 -> P (groups ++ [g1])).
  { intros groups g1 HP Hg1 g0 Hin. apply in_app_or in Hin.
    destruct Hin as [Hin | [<- | []]]; auto. }
  intros Hin. revert g Hin. change (P
    (fold_left (SmurfingDetector.combinedStep getHours adj rev metas) metas
       (fold_left (SmurfingDetector.fanOutStep getHours adj rev metas) adj
          (fold_left (SmurfingDetector.fanInStep getHours adj rev metas) rev
             [])))).
  apply fold_left_invariant.
  { intros acc [node meta] _ HP. unfold SmurfingDetector.combinedStep.
    destruct (_ && _); [| exact HP].
    destruct (existsb _ acc); [exact HP |].
    destruct (_ <=? _)%Z; [| exact HP].
    apply Happ; [exact HP |]. right. right. reflexivity. }
  apply fold_left_invariant.
  { intros acc [node es] _ HP. unfold SmurfingDetector.fanOutStep.
    destruct (_ <? _)%nat; [exact HP |].
    destruct (_ <=? _)%Z; [| exact HP].
    apply Happ; [exact HP |]. right. left. reflexivity. }
  apply fold_left_invariant.
  { intros acc [node es] _ HP. unfold SmurfingDetector.fanInStep.
    destruct (_ <? _)%nat; [exact HP |].
    destruct (_ <=? _)%Z; [| exact HP].
    apply Happ; [exact HP |]. left. reflexivity. }
  intros g0 [].
Qed.

Lemma addCycle_agree (scoreCycle : list string -> Q) (st : BuildRings)
  (cyc : list string) :
  ringsAgree st -> ringsAgree (addCycle scoreCycle st cyc).
Proof.
  intros Hst. unfold addCycle.
  match goal with
  | |- ringsAgree (mkBuildRings _ (_ ++ [?ring]) (fold_left ?U _ _)) =>
      exact (@ringsAgree_step st ring U
               (@addAccountSuspicion_touches _ _ _) Hst)
  end.
Qed.

Lemma addShellChain_agree (st : BuildRings)
  (c : ShellNetworkDetector.ShellChain) :
  ringsAgree st -> ringsAgree (addShellChain st c).
Proof.
  intros Hst. unfold addShellChain.
  match goal with
  | |- ringsAgree (mkBuildRings _ (_ ++ [?ring]) (fold_left ?U _ _)) =>
      refine (@ringsAgree_step st ring U _ Hst)
  end.
  intros m a. apply (@addAccountSuspicion_touches _ _ _ m a).
Qed.

Lemma addSmurfGroup_agree (st : BuildRings)
  (g : SmurfingDetector.SmurfGroup) :
  smurfType g -> ringsAgree st -> ringsAgree (addSmurfGroup st g).
Proof.
  intros Hty Hst. unfold addSmurfGroup.
  match goal with
  | |- ringsAgree (mkBuildRings _ (_ ++ [?ring]) (fold_left ?U _ _)) =>
      refine (@ringsAgree_step st ring U _ Hst)
  end.
  cbn [ring_id]. apply touches_patterns.
  destruct Hty as [-> | [-> | ->]]; discriminate.
Qed.

Lemma rawFindings_agree (getHours : Z -> Z) (txs : list Transaction) :
  ringsAgree (rawFindings getHours txs).
Proof.
  unfold rawFindings.
  apply fold_left_invariant; [intros; now apply addShellChain_agree |].
  apply fold_left_invariant.
  { intros acc g Hg Hacc. apply addSmurfGroup_agree; [| exact Hacc].
    eapply smurf_detect_types, Hg. }
  apply fold_left_invariant; [intros; now apply addCycle_agree |].
  split; [constructor |]. split.
  - intros a d H. discriminate.
  - intros r a [].
Qed.

End RawFindings.

Section FinalRingIds.

Import ForensicsEngine.

Lemma members_fold_mset (id : string) (members : list string)
  (m : Map string) (a : string) :
  (In a members ->
   mget (fold_left (fun m' member => mset m' member id) members m) a = Some id)
  /\ (~ In a members ->
      mget (fold_left (fun m' member => mset m' member id) members m) a
      = mget m a).
Proof.
  revert m. induction members as [| x members IH]; intros m; simpl.
  - split; [intros [] | reflexivity].
  - destruct (IH (mset m x id)) as [IH1 IH2]. split.
    + intros [-> | Hin].
      * destruct (in_dec string_dec a members) as [Hmem | Hnmem]; [auto |].
        rewrite IH2 by assumption. now rewrite mget_mset, String.eqb_refl.
      * auto.
    + intros Hnot. rewrite IH2 by tauto. rewrite mget_mset.
      destruct (String.eqb x a) eqn:E; [| reflexivity].
      apply String.eqb_eq in E. tauto.
Qed.

Lemma ringMapping_fold (rings : list Ring) (m : Map string) (a : string) :
  let m' := fold_left
              (fun m0 ring =>
                 fold_left (fun m1 member => mset m1 member (ring_id ring))
                   (member_accounts ring) m0) rings m in
  (forall r, lastRingWith rings a r -> mget m' a = Some (ring_id r))
  /\ ((forall r, In r rings -> ~ In a (member_accounts r)) ->
      mget m' a = mget m a).
Proof.
  revert m. induction rings as [| x rings IH]; intros m; cbn [fold_left].
  - split; [| reflexivity].
    intros r [pre [post [Heq _]]]. destruct pre; discriminate.
  - set (m1 := fold_left (fun m1 member => mset m1 member (ring_id x))
                 (member_accounts x) m).
    destruct (IH m1) as [IH1 IH2].
    destruct (members_fold_mset (ring_id x) (member_accounts x) m a)
      as [M1 M2]. fold m1 in M1, M2.
    split.
    + intros r [pre [post [Heq [Hin Hpost]]]]. destruct pre as [| y pre].
      * simpl in Heq. injection Heq as -> ->.
        rewrite IH2 by exact Hpost. now apply M1.
      * simpl in Heq. injection Heq as -> ->.
        apply IH1. exists pre, post. now split.
    + intros Hnone. rewrite IH2.
      * apply M2. apply Hnone. now left.
      * intros r Hr. apply Hnone. now right.
Qed.

Lemma ringIdOf_not_empty (k : nat) : String.eqb (ringIdOf k) EmptyString = false.
Proof. reflexivity. Qed.

Lemma reassignIds_ids (idx : nat) (rings : list Ring) (r : Ring) :
  In r (reassignIds idx rings) -> exists k, ring_id r = ringIdOf k.
Proof.
  revert idx. induction rings as [| x rings IH]; intros idx; simpl; [intros [] |].
  intros [<- | Hin]; [now exists (S idx) | eapply IH, Hin].
Qed.

Lemma scoreAccountsLoop_source (metas : Map NodeMeta) (accounts : list Account)
  (seen : list string) (acc : Account) :
  In acc (ScoringEngine.scoreAccountsLoop metas accounts seen) ->
  exists acc0, In acc0 accounts
               /\ account_id acc = account_id acc0
               /\ acc_ring_id acc = acc_ring_id acc0.
Proof.
  revert seen. induction accounts as [| a accounts IH]; intros seen;
    cbn [ScoringEngine.scoreAccountsLoop]; [intros [] |].
  destruct (shas seen (account_id a)).
  - intros H. destruct (IH _ H) as [acc0 [H1 H2]]. exists acc0.
    split; [now right | exact H2].
  - intros [<- | H].
    + exists a. split; [now left | split; reflexivity].
    + destruct (IH _ H) as [acc0 [H1 H2]]. exists acc0.
      split; [now right | exact H2].
Qed.

Lemma lastRingWith_map (f : Ring -> Ring) (rings : list Ring) (a : string)
  (r : Ring) :
  (forall x, ring_id (f x) = ring_id x
             /\ member_accounts (f x) = member_accounts x) ->
  lastRingWith (map f rings) a r ->
  exists r0, lastRingWith rings a r0 /\ ring_id r0 = ring_id r.
Proof.
  intros Hf [pre [post [Heq [Hin Hpost]]]].
  apply map_eq_app in Heq. destruct Heq as [pre0 [rest [-> [Hpre Hrest]]]].
  apply map_eq_cons in Hrest. destruct Hrest as [r0 [post0 [-> [Hr0 Hpost0]]]].
  exists r0. destruct (Hf r0) as [Hid Hmem]. rewrite Hr0 in Hid, Hmem.
  split; [| now symmetry]. exists pre0, post0. split; [reflexivity |].
  split; [now rewrite <- Hmem |].
  intros r' Hr' Hin'. apply (Hpost (f r')).
  - rewrite <- Hpost0. now apply in_map.
  - destruct (Hf r') as [_ ->]. exact Hin'.
Qed.

Lemma scoreAllRings_last (txs : list Transaction) (adj rev : Map (list AdjEdge))
  (metas : Map NodeMeta) (rings : list Ring) (scored : list Account)
  (a : string) (r : Ring) :
  lastRingWith (ScoringEngine.scoreAllRings txs adj rev metas rings scored) a r ->
  exists r0, lastRingWith rings a r0 /\ ring_id r0 = ring_id r.
Proof.
  unfold ScoringEngine.scoreAllRings. apply lastRingWith_map.
  intros x. split; reflexivity.
Qed.

Lemma scoreAllRings_member (txs : list Transaction)
  (adj rev : Map (list AdjEdge)) (metas : Map NodeMeta) (rings : list Ring)
  (scored : list Account) (r0 : Ring) :
  In r0 rings ->
  exists r, In r (ScoringEngine.scoreAllRings txs adj rev metas rings scored)
            /\ member_accounts r = member_accounts r0.
Proof.
  intros Hin. unfold ScoringEngine.scoreAllRings. eexists. split.
  - apply in_map. exact Hin.
  - reflexivity.
Qed.

End FinalRingIds.

(* ================================================================== *)
(** * The graph that [GraphBuilder.build] returns *)
(* ================================================================== *)

Section BuiltGraph.

Import GraphBuilder.

Lemma shas_mhas {V} (m : Map V) (k : string) : shas (mkeys m) k = mhas m k.
Proof.
  destruct (mhas m k) eqn:E.
  - apply shas_In, mhas_In, E.
  - apply shas_false. intros H. apply mhas_In in H. congruence.
Qed.

Lemma mkeys_ensureKey (m : AdjList) (k : string) :
  mkeys (ensureKey m k) = sadd (mkeys m) k.
Proof.
  unfold ensureKey, sadd. rewrite shas_mhas.
  destruct (mhas m k) eqn:E; [reflexivity |].
  now rewrite mkeys_mset, E.
Qed.

Lemma mkeys_pushEdge (m : AdjList) (k : string) (e : AdjEdge) :
  mkeys (pushEdge m k e) = mkeys m.
Proof.
  unfold pushEdge. destruct (mget m k) eqn:E; [| reflexivity].
  rewrite mkeys_mset. unfold mhas. now rewrite E.
Qed.

Lemma edgesOf_ensureKey (m : AdjList) (k n : string) :
  edgesOf (ensureKey m k) n = edgesOf m n.
Proof.
  unfold ensureKey, edgesOf. destruct (mhas m k) eqn:E; [reflexivity |].
  rewrite mget_mset. destruct (String.eqb k n) eqn:Ek; [| reflexivity].
  apply String.eqb_eq in Ek. subst n. unfold mhas in E.
  now destruct (mget m k).
Qed.

Lemma mhas_ensureKey (m : AdjList) (k : string) : mhas (ensureKey m k) k = true.
Proof.
  unfold ensureKey. destruct (mhas m k) eqn:E; [exact E |].
  unfold mhas. now rewrite mget_mset, String.eqb_refl.
Qed.

Lemma edgesOf_pushEdge (m : AdjList) (k n : string) (e : AdjEdge) :
  mhas m k = true ->
  edgesOf (pushEdge m k e) n
  = edgesOf m n ++ (if String.eqb k n then [e] else []).
Proof.
  unfold mhas, pushEdge, edgesOf. destruct (mget m k) as [l |] eqn:E;
    [intros _ | discriminate].
  rewrite mget_mset. destruct (String.eqb k n) eqn:Ek.
  - apply String.eqb_eq in Ek. subst n. now rewrite E.
  - now rewrite app_nil_r.
Qed.

Lemma addTransaction_adj (st : BuildState) (tx : Transaction) (n : string) :
  edgesOf (bs_adj (addTransaction st tx)) n
  = edgesOf (bs_adj st) n ++ sentEdges n [tx].
Proof.
  unfold addTransaction, sentEdges. cbn [bs_adj List.filter].
  rewrite edgesOf_ensureKey, edgesOf_pushEdge by apply mhas_ensureKey.
  rewrite edgesOf_ensureKey. now destruct (String.eqb (sender_id tx) n).
Qed.

Lemma addTransaction_rev (st : BuildState) (tx : Transaction) (n : string) :
  edgesOf (bs_rev (addTransaction st tx)) n
  = edgesOf (bs_rev st) n ++ receivedEdges n [tx].
Proof.
  unfold addTransaction, receivedEdges. cbn [bs_rev List.filter].
  rewrite edgesOf_ensureKey, edgesOf_pushEdge by apply mhas_ensureKey.
  rewrite edgesOf_ensureKey. now destruct (String.eqb (receiver_id tx) n).
Qed.

Lemma sentEdges_cons (n : string) (tx : Transaction) (txs : list Transaction) :
  sentEdges n (tx :: txs) = sentEdges n [tx] ++ sentEdges n txs.
Proof.
  unfold sentEdges. cbn [List.filter].
  now destruct (String.eqb (sender_id tx) n).
Qed.

Lemma receivedEdges_cons (n : string) (tx : Transaction)
  (txs : list Transaction) :
  receivedEdges n (tx :: txs) = receivedEdges n [tx] ++ receivedEdges n txs.
Proof.
  unfold receivedEdges. cbn [List.filter].
  now destruct (String.eqb (receiver_id tx) n).
Qed.

Lemma fold_addTransaction (txs : list Transaction) (st : BuildState) :
  let st' := fold_left addTransaction txs st in
  (forall n, edgesOf (bs_adj st') n = edgesOf (bs_adj st) n ++ sentEdges n txs)
  /\ (forall n,
        edgesOf (bs_rev st') n = edgesOf (bs_rev st) n ++ receivedEdges n txs)
  /\ mkeys (bs_adj st') = fold_left sadd (parties txs) (mkeys (bs_adj st))
  /\ mkeys (bs_rev st')
     = fold_left sadd
         (flat_map (fun tx => [receiver_id tx; sender_id tx]) txs)
         (mkeys (bs_rev st))
  /\ bs_edges st'
     = bs_edges st
       ++ map (fun tx => mkGraphEdge (sender_id tx) (receiver_id tx) (amount tx)
                           (timestamp tx) (transaction_id tx)) txs.
Proof.
  revert st. induction txs as [| tx txs IH]; intros st; cbn [fold_left].
  - cbn. repeat split; intros; now rewrite ?app_nil_r.
  - destruct (IH (addTransaction st tx)) as [H1 [H2 [H3 [H4 H5]]]].
    repeat split.
    + intros n. rewrite H1, addTransaction_adj, (sentEdges_cons n tx txs).
      now rewrite app_assoc.
    + intros n. rewrite H2, addTransaction_rev, (receivedEdges_cons n tx txs).
      now rewrite app_assoc.
    + rewrite H3. unfold addTransaction. cbn [bs_adj parties flat_map app fold_left].
      now rewrite mkeys_ensureKey, mkeys_pushEdge, mkeys_ensureKey.
    + rewrite H4. unfold addTransaction. cbn [bs_rev flat_map app fold_left].
      now rewrite mkeys_ensureKey, mkeys_pushEdge, mkeys_ensureKey.
    + rewrite H5. unfold addTransaction. cbn [bs_edges map].
      now rewrite <- app_assoc.
Qed.

Lemma fold_mset_keys {V} (f : string -> V) (keys : list string) (m0 : Map V) :
  NoDup (mkeys m0 ++ keys) ->
  mkeys (fold_left (fun m key => mset m key (f key)) keys m0) = mkeys m0 ++ keys.
Proof.
  revert m0. induction keys as [| k keys IH]; intros m0 Hnd; cbn [fold_left].
  - now rewrite app_nil_r.
  - assert (Hk : mhas m0 k = false).
    { destruct (mhas m0 k) eqn:E; [| reflexivity]. apply mhas_In in E.
      apply NoDup_remove_2 in Hnd. exfalso. apply Hnd, in_or_app. now left. }
    rewrite IH; rewrite mkeys_mset, Hk.
    + now rewrite <- app_assoc.
    + now rewrite <- app_assoc.
Qed.

Lemma fold_sadd_NoDup (l acc : list string) :
  NoDup acc -> NoDup (fold_left sadd l acc).
Proof.
  revert acc. induction l as [| x l IH]; intros acc H; cbn [fold_left].
  - exact H.
  - apply IH, sadd_NoDup, H.
Qed.

Lemma parties_In (txs : list Transaction) (n : string) :
  In n (setOf (parties txs))
  <-> exists tx, In tx txs /\ (sender_id tx = n \/ receiver_id tx = n).
Proof.
  rewrite setOf_In. unfold parties. rewrite in_flat_map.
  split; intros [tx [Hin H]]; exists tx; (split; [exact Hin |]).
  - destruct H as [H | [H | []]]; auto.
  - destruct H as [H | H]; [now left | right; now left].
Qed.

Lemma build_keys (txs : list Transaction) :
  mkeys (adjacencyList (build txs)) = setOf (parties txs)
  /\ mkeys (nodeMetadata (build txs)) = setOf (parties txs)
  /\ (forall n, In n (mkeys (reverseAdjList (build txs)))
                <-> In n (setOf (parties txs))).
Proof.
  destruct (fold_addTransaction txs (mkBuildState [] [] []))
    as [_ [_ [Hadj [Hrev _]]]].
  unfold build. cbn [adjacencyList nodeMetadata reverseAdjList].
  cbn [bs_adj bs_rev mkeys map] in Hadj, Hrev.
  assert (Hnodes : mkeys (bs_adj (fold_left addTransaction txs
                                    (mkBuildState [] [] [])))
                   = setOf (parties txs)) by exact Hadj.
  rewrite Hnodes. split; [reflexivity |]. split.
  - rewrite fold_mset_keys; [reflexivity |]. cbn [mkeys map app].
    apply setOf_NoDup.
  - intros n. rewrite Hrev, fold_sadd_In, parties_In. cbn [In].
    rewrite in_flat_map. split.
    + intros [[] | [tx [Hin H]]]. exists tx. split; [exact Hin |].
      destruct H as [H | [H | []]]; auto.
    + intros [tx [Hin H]]. right. exists tx. split; [exact Hin |].
      destruct H as [H | H]; [right; now left | now left].
Qed.

Lemma build_edgesOf (txs : list Transaction) (n : string) :
  edgesOf (adjacencyList (build txs)) n = sentEdges n txs
  /\ edgesOf (reverseAdjList (build txs)) n = receivedEdges n txs.
Proof.
  destruct (fold_addTransaction txs (mkBuildState [] [] []))
    as [Hadj [Hrev _]].
  unfold build. cbn [adjacencyList reverseAdjList].
  split; [now rewrite Hadj | now rewrite Hrev].
Qed.

Lemma buildMeta_timestamps (adj rev : AdjList) (n : string) :
  List.length (allTimestamps (buildMeta adj rev n)) = txCount (buildMeta adj rev n)
  /\ StronglySorted Z.le (allTimestamps (buildMeta adj rev n)).
Proof.
  unfold buildMeta. cbn [allTimestamps txCount]. split.
  - unfold sortZ. now rewrite sortWith_length, length_app, !length_map.
  - apply sortZ_sorted.
Qed.

End BuiltGraph.

(** X1: the node list of the graph is the list of the distinct account
    identifiers of the input in the order of their first appearance, the
    sender of a transaction before its receiver; the metadata has one record
    per node, in that order, and the reverse adjacency has the same keys. *)
Theorem build_nodes_are_the_parties (txs : list Transaction) :
  let g := GraphBuilder.build txs in
  nodes g = setOf (parties txs)
  /\ mkeys (nodeMetadata g) = nodes g
  /\ (forall n, In n (mkeys (reverseAdjList g)) <-> In n (nodes g))
  /\ NoDup (nodes g)
  /\ (forall n, In n (nodes g)
                <-> exists tx, In tx txs
                               /\ (sender_id tx = n \/ receiver_id tx = n)).
Proof.
  cbv zeta. destruct (build_keys txs) as [Hadj [Hmeta Hrev]].
  assert (Hnodes : nodes (GraphBuilder.build txs) = setOf (parties txs))
    by exact Hadj.
  rewrite Hnodes. split; [reflexivity |]. split; [exact Hmeta |].
  split; [exact Hrev |]. split; [apply setOf_NoDup |]. apply parties_In.
Qed.

(** X2: the forward adjacency of a node holds exactly the transactions it
    sent and the reverse adjacency exactly those it received, in input
    order, with their amounts, instants and identifiers; the edge list holds
    every input transaction once, in input order. *)
Theorem build_adjacency_is_the_input (txs : list Transaction) :
  let g := GraphBuilder.build txs in
  (forall n, GraphBuilder.edgesOf (adjacencyList g) n = sentEdges n txs)
  /\ (forall n, GraphBuilder.edgesOf (reverseAdjList g) n = receivedEdges n txs)
  /\ edges g
     = map (fun tx => mkGraphEdge (sender_id tx) (receiver_id tx) (amount tx)
                        (timestamp tx) (transaction_id tx)) txs.
Proof.
  cbv zeta. split; [intros n; apply build_edgesOf |].
  split; [intros n; apply build_edgesOf |].
  destruct (fold_addTransaction txs (GraphBuilder.mkBuildState [] [] []))
    as [_ [_ [_ [_ Hedges]]]].
  unfold GraphBuilder.build. cbn [edges]. now rewrite Hedges.
Qed.

Section BuiltMetadata.

Import GraphBuilder.

Lemma fold_sadd_length (l acc : list string) :
  (List.length (fold_left sadd l acc) <= List.length acc + List.length l)%nat.
Proof.
  revert acc. induction l as [| x l IH]; intros acc; cbn [fold_left List.length].
  - lia.
  - specialize (IH (sadd acc x)). unfold sadd in *.
    destruct (shas acc x); [lia |]. rewrite length_app in IH. cbn in IH. lia.
Qed.

Lemma setOf_length_le (l : list string) :
  (List.length (setOf l) <= List.length l)%nat.
Proof. unfold setOf. apply (fold_sadd_length l []). Qed.

Lemma fold_amounts_map {A : Type} (f : A -> AdjEdge) (l : list A) (init : Q) :
  fold_left (fun sum e => (sum + e_amount e)%Q) (map f l) init
  = fold_left Qplus (map (fun x => e_amount (f x)) l) init.
Proof.
  revert init. induction l as [| x l IH]; intros init; cbn; [reflexivity |].
  apply IH.
Qed.

Lemma filter_nonempty {A : Type} (f : A -> bool) (l : list A) (x : A) :
  In x l -> f x = true -> (1 <= List.length (List.filter f l))%nat.
Proof.
  induction l as [| y l IH]; cbn [In List.filter]; [intros [] |].
  intros [-> | Hin] Hf.
  - rewrite Hf. cbn. lia.
  - destruct (f y); cbn; [lia | now apply IH].
Qed.

Lemma deltasZ_nil (l : list Z) :
  deltasZ l = [] <-> (List.length l < 2)%nat.
Proof.
  destruct l as [| a [| b l]]; cbn; split; intros H; try reflexivity;
    try lia; discriminate.
Qed.

Lemma deltasZ_sorted (l : list Z) :
  StronglySorted Z.le l -> Forall (fun d => (0 <= d)%Z) (deltasZ l).
Proof.
  induction l as [| a l IH]; intros Hs; [constructor |].
  apply StronglySorted_inv in Hs. destruct Hs as [Hs Hall].
  destruct l as [| b l]; [constructor |].
  change (deltasZ (a :: b :: l)) with ((b - a)%Z :: deltasZ (b :: l)).
  constructor; [| now apply IH].
  inversion Hall; subst. lia.
Qed.

(** The loop for the smallest gap, from any running minimum. *)
Lemma minLoop_spec (deltas : list Z) (acc : option Z) :
  let step := fun (acc : option Z) (delta : Z) =>
                match acc with
                | None => Some delta
                | Some m => if (delta <? m)%Z then Some delta else Some m
                end in
  match fold_left step deltas acc with
  | None => acc = None /\ deltas = []
  | Some d =>
      (acc = Some d \/ In d deltas)
      /\ Forall (fun x => (d <= x)%Z) deltas
      /\ (forall m, acc = Some m -> (d <= m)%Z)
  end.
Proof.
  cbv zeta. revert acc. induction deltas as [| x deltas IH]; intros acc;
    cbn [fold_left].
  - destruct acc as [m |]; [| now split].
    split; [now left |]. split; [constructor |].
    intros m' H. injection H as <-. lia.
  - match goal with |- context [fold_left ?f deltas ?a] =>
      specialize (IH a); destruct (fold_left f deltas a) as [d |] end.
    + destruct IH as [Hsrc [Hall Hle]]. destruct acc as [m |].
      * destruct (x <? m)%Z eqn:E.
        -- apply Z.ltb_lt in E. specialize (Hle x eq_refl).
           split; [| split].
           ++ destruct Hsrc as [Hs | Hs]; [injection Hs as <-|];
                right; [now left | now right].
           ++ constructor; assumption.
           ++ intros m' H. injection H as <-. lia.
        -- apply Z.ltb_ge in E. specialize (Hle m eq_refl).
           split; [| split].
           ++ destruct Hsrc as [Hs | Hs]; [now left | right; now right].
           ++ constructor; [lia | assumption].
           ++ intros m' H. injection H as <-. exact Hle.
      * specialize (Hle x eq_refl). split; [| split].
        -- destruct Hsrc as [Hs | Hs]; [injection Hs as <-|];
             right; [now left | now right].
        -- constructor; assumption.
        -- intros m' H. discriminate.
    + destruct IH as [Hacc _]. destruct acc as [m |].
      * destruct (x <? m)%Z; discriminate.
      * discriminate.
Qed.

End BuiltMetadata.

(** X3: the metadata record of a node counts its transactions: the
    out-degree is the number of input transactions it sent, the in-degree
    the number it received, [txCount] their sum and at least 1; the totals
    are the sums of the amounts; there are no more distinct counterparties
    than edges; [allTimestamps] has [txCount] entries in ascending order. *)
Theorem build_metadata_counts (txs : list Transaction) (n : string)
  (meta : NodeMeta) :
  mget (nodeMetadata (GraphBuilder.build txs)) n = Some meta ->
  let sent := List.filter (fun tx => String.eqb (sender_id tx) n) txs in
  let received := List.filter (fun tx => String.eqb (receiver_id tx) n) txs in
  outDegree meta = List.length sent
  /\ inDegree meta = List.length received
  /\ txCount meta = (outDegree meta + inDegree meta)%nat
  /\ (1 <= txCount meta)%nat
  /\ totalSent meta = sumQ (map amount sent)
  /\ totalReceived meta = sumQ (map amount received)
  /\ (uniqueReceivers meta <= outDegree meta)%nat
  /\ (uniqueSenders meta <= inDegree meta)%nat
  /\ List.length (allTimestamps meta) = txCount meta
  /\ StronglySorted Z.le (allTimestamps meta).
Proof.
  intros Hget sent received.
  assert (Hnode : In n (setOf (parties txs))).
  { destruct (build_keys txs) as [_ [Hk _]]. rewrite <- Hk.
    apply mhas_In. unfold mhas. now rewrite Hget. }
  apply build_metadata_lookup in Hget. subst meta.
  destruct (build_edgesOf txs n) as [Hadj Hrev].
  unfold GraphBuilder.buildMeta.
  cbn [outDegree inDegree txCount totalSent totalReceived uniqueReceivers
         uniqueSenders allTimestamps].
  rewrite Hadj, Hrev. unfold sentEdges, receivedEdges. fold sent. fold received.
  rewrite !length_map, !fold_amounts_map. cbn [e_amount].
  repeat split.
  - apply parties_In in Hnode. destruct Hnode as [tx [Hin [H | H]]].
    + assert (1 <= List.length sent)%nat; [| lia].
      apply (filter_nonempty _ _ tx Hin). now apply String.eqb_eq.
    + assert (1 <= List.length received)%nat; [| lia].
      apply (filter_nonempty _ _ tx Hin). now apply String.eqb_eq.
  - etransitivity; [apply setOf_length_le |]. now rewrite !length_map.
  - etransitivity; [apply setOf_length_le |]. now rewrite !length_map.
  - unfold sortZ. rewrite sortWith_length, length_app, !length_map. reflexivity.
  - apply sortZ_sorted.
Qed.

Lemma build_metadata_counts_witness :
  exists meta,
    mget (nodeMetadata (GraphBuilder.build Samples.singleTransfer)) "A"%string
    = Some meta
    /\ outDegree meta = 1%nat /\ inDegree meta = 0%nat.
Proof.
  eexists. split; [vm_compute; reflexivity |].
  match goal with |- outDegree ?m = _ /\ _ =>
    destruct (@build_metadata_counts Samples.singleTransfer "A"%string m)
      as [Hout [Hin _]]; [vm_compute; reflexivity |] end.
  split; [exact Hout | exact Hin].
Defined.

(** X4: [minTimeDeltaMs] is unset exactly for a node with fewer than two
    transactions; otherwise it is the smallest gap between neighbouring
    entries of [allTimestamps], and not negative. *)
Theorem build_min_time_delta (txs : list Transaction) (n : string)
  (meta : NodeMeta) :
  mget (nodeMetadata (GraphBuilder.build txs)) n = Some meta ->
  (minTimeDeltaMs meta = None <-> (txCount meta < 2)%nat)
  /\ forall d, minTimeDeltaMs meta = Some d ->
       (0 <= d)%Z
       /\ In d (deltasZ (allTimestamps meta))
       /\ Forall (fun gap => (d <= gap)%Z) (deltasZ (allTimestamps meta)).
Proof.
  intros Hget.
  apply build_metadata_lookup in Hget. subst meta.
  destruct (buildMeta_timestamps (adjacencyList (GraphBuilder.build txs))
              (reverseAdjList (GraphBuilder.build txs)) n) as [Hlen Hsorted].
  unfold GraphBuilder.buildMeta in *.
  cbn [minTimeDeltaMs txCount allTimestamps] in *.
  set (ts := sortZ _) in *. unfold GraphBuilder.minTimeDelta.
  pose proof (minLoop_spec (deltasZ ts) None) as Hloop. cbv zeta in Hloop.
  pose proof (deltasZ_sorted Hsorted) as Hpos.
  rewrite <- Hlen.
  destruct (fold_left _ (deltasZ ts) None) as [d |].
  - destruct Hloop as [[Hsrc | Hsrc] [Hall _]]; [discriminate |].
    split.
    + split; [discriminate |]. intros Hlt. apply deltasZ_nil in Hlt.
      rewrite Hlt in Hsrc. destruct Hsrc.
    + intros d' Hd. injection Hd as <-. split; [| now split].
      rewrite Forall_forall in Hpos. now apply Hpos.
  - destruct Hloop as [_ Hnil]. split.
    + split; [intros _; now apply deltasZ_nil | reflexivity].
    + intros d Hd. discriminate.
Qed.

Lemma build_min_time_delta_witness :
  exists meta,
    mget (nodeMetadata (GraphBuilder.build Samples.passThrough)) "SH1"%string
    = Some meta
    /\ minTimeDeltaMs meta <> None.
Proof.
  eexists. split; [vm_compute; reflexivity |].
  match goal with |- minTimeDeltaMs ?m <> None =>
    destruct (@build_min_time_delta Samples.passThrough "SH1"%string m)
      as [[Hnone _] _]; [vm_compute; reflexivity |] end.
  intros H. apply Hnone in H. vm_compute in H. lia.
Defined.

(* ================================================================== *)
(** * Validation of the uploaded rows *)
(* ================================================================== *)

Section ValidatedRows.

Import Validation.

Variable dateParse : string -> option Z.

Lemma validateLoop_spec (rows : list Row) (i : nat)
  (errors : list (nat * RowError)) (valid : list Row) :
  validateLoop dateParse i rows errors valid
  = (errors ++ rowErrors dateParse i rows,
     valid ++ List.filter (rowOk dateParse) rows).
Proof.
  revert i errors valid. induction rows as [| tx rows IH];
    intros i errors valid; cbn [validateLoop rowErrors List.filter].
  - now rewrite !app_nil_r.
  - unfold rowOk at 1. destruct (checkRow dateParse tx) as [e |].
    + rewrite IH. now rewrite <- app_assoc.
    + rewrite IH. now rewrite <- app_assoc.
Qed.

Lemma rowErrors_length (rows : list Row) (i : nat) :
  (List.length (rowErrors dateParse i rows)
   + List.length (List.filter (rowOk dateParse) rows))%nat
  = List.length rows.
Proof.
  revert i. induction rows as [| tx rows IH]; intros i;
    cbn [rowErrors List.filter List.length]; [reflexivity |].
  unfold rowOk at 1. specialize (IH (S i)).
  destruct (checkRow dateParse tx); cbn [List.length]; lia.
Qed.

Lemma rowErrors_all_bad (rows : list Row) (i k : nat) :
  List.filter (rowOk dateParse) rows = [] ->
  (k < List.length rows)%nat ->
  exists tx e,
    nth_error rows k = Some tx
    /\ checkRow dateParse tx = Some e
    /\ nth_error (rowErrors dateParse i rows) k = Some ((i + k + 2)%nat, e).
Proof.
  revert i k. induction rows as [| tx rows IH]; intros i k Hnil Hk;
    cbn [List.length] in Hk; [lia |].
  cbn [List.filter rowErrors] in *. unfold rowOk in Hnil at 1.
  destruct (checkRow dateParse tx) as [e |] eqn:E; [| discriminate].
  destruct k as [| k].
  - exists tx, e. cbn [nth_error]. repeat split; try assumption.
    now rewrite Nat.add_0_r.
  - destruct (IH (S i) k Hnil) as [tx' [e' [H1 [H2 H3]]]]; [lia |].
    exists tx', e'. cbn [nth_error]. repeat split; try assumption.
    rewrite H3. do 2 f_equal. lia.
Qed.

End ValidatedRows.

(** X5: when [validateTransactions] accepts, it leaves in the array exactly
    the rows that pass every check, in their input order, and there is one
    at least; when it rejects, the array is unchanged and no row passes.  A
    row passes exactly when its three identifiers are non-empty strings,
    its amount is a positive number or [Infinity], its timestamp is a
    string that [Date.parse] reads, and sender and receiver differ. *)
Theorem validate_keeps_the_valid_rows (dateParse : string -> option Z) :
  (forall rows : list Validation.Row,
      match Validation.validateTransactions dateParse rows with
      | (Validation.Valid, kept) =>
          kept = List.filter (rowOk dateParse) rows /\ kept <> []
      | (Validation.Invalid _ _, kept) =>
          kept = rows /\ List.filter (rowOk dateParse) rows = []
      end)
  /\ (forall tx : Validation.Row,
        rowOk dateParse tx = true
        <-> exists id s r t,
              Validation.row_transaction_id tx = Some id
              /\ Validation.row_sender_id tx = Some s
              /\ Validation.row_receiver_id tx = Some r
              /\ Validation.row_timestamp tx = Some t
              /\ id <> EmptyString /\ s <> EmptyString /\ r <> EmptyString
              /\ t <> EmptyString /\ s <> r
              /\ dateParse t <> None
              /\ (Validation.row_amount tx = Validation.PosInfinity
                  \/ exists q, Validation.row_amount tx = Validation.Finite q
                               /\ (0 < q)%Q)).
Proof.
  split.
  - intros rows. unfold Validation.validateTransactions.
    destruct rows as [| tx rows]; [now split |].
    rewrite validateLoop_spec. cbn [app].
    destruct (List.filter (rowOk dateParse) (tx :: rows)) as [| k kept] eqn:E.
    + now split.
    + split; [reflexivity | discriminate].
  - intros [id s r a t]. unfold rowOk, Validation.checkRow, Validation.badTimestamp.
    cbn [Validation.row_transaction_id Validation.row_sender_id
           Validation.row_receiver_id Validation.row_amount
           Validation.row_timestamp].
    split.
    + destruct id as [id |]; cbn [Validation.falsy]; [| discriminate].
      destruct (String.eqb id EmptyString) eqn:Eid; [discriminate |].
      destruct s as [s |]; cbn [Validation.falsy]; [| discriminate].
      destruct (String.eqb s EmptyString) eqn:Es; [discriminate |].
      destruct r as [r |]; cbn [Validation.falsy]; [| discriminate].
      destruct (String.eqb r EmptyString) eqn:Er; [discriminate |].
      destruct (Validation.isNaN a || Validation.leZero a) eqn:Ea;
        [discriminate |].
      destruct t as [t |]; cbn [Validation.falsy orb]; [| discriminate].
      destruct (String.eqb t EmptyString) eqn:Et; [discriminate |].
      cbn [orb]. destruct (dateParse t) as [z |] eqn:Ez; [| discriminate].
      cbn [Validation.sameField].
      destruct (String.eqb s r) eqn:Esr; [discriminate |]. intros _.
      exists id, s, r, t. apply String.eqb_neq in Eid, Es, Er, Et, Esr.
      repeat split; try assumption; try (rewrite Ez; discriminate).
      destruct a as [| q | |]; cbn in Ea; try discriminate.
      * right. exists q. split; [reflexivity |]. now apply Qleb_gt.
      * now left.
    + intros [id' [s' [r' [t' [-> [-> [-> [-> H]]]]]]]].
      destruct H as [Hid [Hs [Hr [Ht [Hsr [Hd Ha]]]]]].
      apply String.eqb_neq in Hid, Hs, Hr, Ht, Hsr.
      cbn [Validation.falsy Validation.sameField]. rewrite Hid, Hs, Hr, Ht, Hsr.
      cbn [orb].
      assert (Ea : Validation.isNaN a || Validation.leZero a = false).
      { destruct Ha as [-> | [q [-> Hq]]]; [reflexivity |]. cbn.
        now apply Qleb_gt. }
      rewrite Ea. destruct (dateParse t'); [reflexivity | congruence].
Qed.

(** X6: the errors and the valid rows account for every row, and a
    rejection for lack of valid rows reports the first 20 rows: row [k]
    (from 0) of the input is reported as row number [k + 2] with the
    check it fails. *)
Theorem validate_error_report (dateParse : string -> option Z)
  (rows : list Validation.Row) :
  (let '(errors, valid) := Validation.validateLoop dateParse 0 rows [] [] in
   (List.length errors + List.length valid)%nat = List.length rows)
  /\ (rows = []
      -> fst (Validation.validateTransactions dateParse rows)
         = Validation.Invalid "CSV file is empty or has no valid rows" None)
  /\ (rows <> [] -> List.filter (rowOk dateParse) rows = [] ->
      exists details,
        fst (Validation.validateTransactions dateParse rows)
        = Validation.Invalid "No valid transactions found in CSV" (Some details)
        /\ List.length details = Nat.min 20 (List.length rows)
        /\ forall k, (k < List.length details)%nat ->
             exists tx e,
               nth_error rows k = Some tx
               /\ Validation.checkRow dateParse tx = Some e
               /\ nth_error details k = Some ((k + 2)%nat, e)).
Proof.
  split; [| split].
  - rewrite validateLoop_spec. cbn [app]. apply rowErrors_length.
  - intros ->. reflexivity.
  - intros Hne Hnil. unfold Validation.validateTransactions.
    destruct rows as [| tx rows]; [congruence |].
    rewrite validateLoop_spec. cbn [app]. rewrite Hnil. cbn [fst].
    eexists. split; [reflexivity |].
    pose proof (rowErrors_length dateParse (tx :: rows) 0) as Hlen.
    rewrite Hnil in Hlen. cbn [List.length] in Hlen.
    rewrite Nat.add_0_r in Hlen.
    split.
    + rewrite length_firstn, Hlen. reflexivity.
    + intros k Hk. rewrite length_firstn, Hlen in Hk.
      destruct (@rowErrors_all_bad dateParse (tx :: rows) 0 k Hnil)
        as [tx' [e [H1 [H2 H3]]]]; [cbn [List.length]; lia |].
      exists tx', e. repeat split; try assumption.
      rewrite nth_error_firstn.
      destruct (Nat.ltb_spec k 20) as [_ | Hge]; [exact H3 | lia].
Qed.

(* ================================================================== *)
(** * Ranges and order of the scores *)
(* ================================================================== *)

Section SortedOutput.

Variable A : Type.
Variable before : A -> A -> bool.
Variable le : A -> A -> Prop.
Hypothesis le_trans : forall x y z, le x y -> le y z -> le x z.
Hypothesis before_true : forall y x, before y x = true -> le y x.
Hypothesis before_false : forall y x, before y x = false -> le x y.



End SortedOutput.

Section SortedKeys.

Variables A B : Type.
Variable before : A -> A -> bool.
Variable f : A -> B.

Lemma insertSorted_map_NoDup (x : A) (l : list A) :
  NoDup (map f (x :: l)) -> NoDup (map f (insertSorted before x l)).
Proof.
  induction l as [| y l IH]; cbn [insertSorted]; [auto |].
  destruct (before y x); [| auto]. cbn [map]. intros Hnd.
  inversion Hnd as [| ? ? Hx Hnd']; subst.
  inversion Hnd' as [| ? ? Hy Hnd'']; subst.
  constructor.
  - intros Hin. apply in_map_iff in Hin. destruct Hin as [z [Hz Hin]].
    apply insertSorted_In in Hin. destruct Hin as [-> | Hin].
    + apply Hx. rewrite Hz. now left.
    + apply Hy. rewrite <- Hz. now apply in_map.
  - apply IH. cbn [map]. constructor; [| exact Hnd''].
    intros Hin. apply Hx. now right.
Qed.

Lemma sortWith_map_NoDup (l : list A) :
  NoDup (map f l) -> NoDup (map f (sortWith before l)).
Proof.
  induction l as [| x l IH]; cbn [sortWith]; [auto |].
  intros Hnd. apply insertSorted_map_NoDup. cbn [map] in *.
  inversion Hnd as [| ? ? Hx Hnd']; subst. constructor.
  - intros Hin. apply Hx. apply in_map_iff in Hin.
    destruct Hin as [z [Hz Hin]]. apply sortWith_In in Hin.
    rewrite <- Hz. now apply in_map.
  - now apply IH.
Qed.

End SortedKeys.

Section ScoreRanges.

Local Open Scope Q_scope.




(** The identifiers the loop of [scoreAllAccounts] emits: those of the
    input that are not in [seen], each once. *)
Lemma scoreAccountsLoop_ids (metas : Map NodeMeta) (accounts : list Account)
  (seen : list string) :
  let ids := map account_id
               (ScoringEngine.scoreAccountsLoop metas accounts seen) in
  NoDup ids
  /\ forall id, In id ids
                <-> In id (map account_id accounts) /\ ~ In id seen.
Proof.
  cbv zeta. revert seen. induction accounts as [| a accounts IH]; intros seen;
    cbn [ScoringEngine.scoreAccountsLoop map].
  - split; [constructor |]. intros id. cbn. tauto.
  - destruct (shas seen (account_id a)) eqn:E.
    + destruct (IH seen) as [Hnd Hiff]. split; [exact Hnd |].
      intros id. rewrite Hiff. cbn [In]. apply shas_In in E.
      split; [tauto |]. intros [[<- | H] Hn]; [contradiction | now split].
    + destruct (IH (sadd seen (account_id a))) as [Hnd Hiff].
      apply shas_false in E. cbn [map account_id]. split.
      * constructor; [| exact Hnd]. rewrite Hiff, sadd_In. tauto.
      * intros id. cbn [In]. rewrite Hiff, sadd_In.
        destruct (string_dec (account_id a) id) as [<- | Hne];
          [split; intros _; [split; [now left | exact E] | now left]
          | intuition congruence].
Qed.

Lemma velocityLoop_bounds (l : list Z) (m : nat) :
  (m <= ScoringEngine.velocityLoop l m <= Nat.max m (List.length l))%nat.
Proof.
  revert m. induction l as [| t l IH]; intros m;
    cbn [ScoringEngine.velocityLoop List.length]; [lia |].
  specialize (IH (Nat.max m
                    (ScoringEngine.windowAdvance
                       (t + ScoringEngine.window72h) (t :: l)))).
  assert (Hw : forall e l',
             (ScoringEngine.windowAdvance e l' <= List.length l')%nat).
  { intros e l'. induction l' as [| u l' IHl]; cbn; [lia |].
    destruct (u <=? e)%Z; cbn; lia. }
  specialize (Hw (t + ScoringEngine.window72h)%Z (t :: l)).
  cbn [List.length] in Hw. lia.
Qed.

Lemma scoreAllAccounts_ids (metas : Map NodeMeta) (accounts : list Account) :
  NoDup (map account_id (ScoringEngine.scoreAllAccounts metas accounts))
  /\ forall id,
       In id (map account_id (ScoringEngine.scoreAllAccounts metas accounts))
       <-> In id (map account_id accounts).
Proof.
  unfold ScoringEngine.scoreAllAccounts.
  destruct (scoreAccountsLoop_ids metas accounts []) as [Hnd Hiff].
  split; [apply sortWith_map_NoDup, Hnd |].
  intros id. split.
  - intros H. apply in_map_iff in H. destruct H as [a [H1 H2]].
    apply sortWith_In in H2. apply (Hiff id). apply in_map_iff.
    exists a. now split.
  - intros H. assert (H' : In id (map account_id
                                    (ScoringEngine.scoreAccountsLoop metas
                                       accounts [])))
      by (apply Hiff; split; [exact H | intros []]).
    apply in_map_iff in H'. destruct H' as [a [H1 H2]].
    apply in_map_iff. exists a. split; [exact H1 |]. now apply sortWith_In.
Qed.

End ScoreRanges.

(** X7: the velocity of an account is a fraction: positive and at most 1,
    and at least [1 / n] for [n] timestamps. *)
Theorem velocity_is_a_fraction (allTimestamps : list Z) :
  (0 < ScoringEngine._computeVelocity72h allTimestamps <= 1)%Q
  /\ (1 <= ScoringEngine._computeVelocity72h allTimestamps
           * nQ (List.length allTimestamps)
      \/ List.length allTimestamps = 0%nat)%Q.
Proof.
  unfold ScoringEngine._computeVelocity72h.
  destruct (List.length allTimestamps <=? 1)%nat eqn:E.
  - apply Nat.leb_le in E. split; [split; [reflexivity | apply Qle_refl] |].
    destruct (List.length allTimestamps) as [| [| n]]; [now right | | lia].
    left. cbn. apply Qle_refl.
  - apply Nat.leb_gt in E. cbv zeta.
    assert (Hlen : List.length (sortZ allTimestamps) = List.length allTimestamps)
      by (unfold sortZ; apply sortWith_length).
    pose proof (velocityLoop_bounds (sortZ allTimestamps) 1) as [Hlo Hhi].
    rewrite Hlen in *.
    set (k := ScoringEngine.velocityLoop (sortZ allTimestamps) 1) in *.
    set (n := List.length allTimestamps) in *.
    assert (Hn : (0 < nQ n)%Q).
    { unfold nQ. change 0%Q with (inject_Z 0). rewrite <- Zlt_Qlt. lia. }
    assert (Hk : (1 <= nQ k)%Q).
    { unfold nQ. change 1%Q with (inject_Z 1). rewrite <- Zle_Qle. lia. }
    assert (Hkn : (nQ k <= nQ n)%Q).
    { unfold nQ. rewrite <- Zle_Qle. lia. }
    split; [split |].
    + apply Qlt_shift_div_l; [exact Hn |]. lra.
    + apply Qle_shift_div_r; [exact Hn |]. lra.
    + left. unfold Qdiv. rewrite <- Qmult_assoc, (Qmult_comm (/ nQ n)),
        Qmult_inv_r, Qmult_1_r; [exact Hk | lra].
Qed.



(* ================================================================== *)
(** * The cycles that [CycleDetector.detect] returns *)
(* ================================================================== *)

Section DetectedCycles.

Import CycleDetector.

Variable adj : Map (list AdjEdge).

Lemma followsEdges_snoc (path : list string) (next : string) :
  followsEdges adj path ->
  (path <> [] -> hasEdge adj (last path EmptyString) next) ->
  followsEdges adj (path ++ [next]).
Proof.
  induction path as [| a path IH]; intros Hf Hl; [exact I |].
  destruct path as [| b path].
  - cbn. split; [| exact I]. apply Hl. discriminate.
  - change ((a :: b :: path) ++ [next]) with (a :: (b :: path) ++ [next]).
    destruct Hf as [Hab Hf]. cbn [followsEdges app]. split; [exact Hab |].
    apply IH; [exact Hf |]. intros _. apply Hl. discriminate.
Qed.

Lemma last_snoc_string (l : list string) (x d : string) : last (l ++ [x]) d = x.
Proof.
  induction l as [| a l IH]; [reflexivity |].
  cbn [app]. destruct (l ++ [x]) eqn:E; [destruct l; discriminate |].
  cbn [last]. exact IH.
Qed.

Lemma dfs_invariant (depth : nat) (maxResults : nat) :
  forall (startNode currentNode : string) (path visitedInPath : list string)
         (results : list (list string)),
    dfsState adj startNode currentNode path visitedInPath ->
    (List.length results <= maxResults)%nat ->
    Forall (simpleCycle adj) results ->
    let out := _dfs adj depth startNode currentNode path visitedInPath results
                 maxResults in
    (List.length out <= maxResults)%nat /\ Forall (simpleCycle adj) out.
Proof.
  induction depth as [| depth IH];
    intros startNode currentNode path visited results Hst Hlen Hres;
    cbn [_dfs]; [now split |].
  destruct (MAX_CYCLE <? List.length path)%nat eqn:Elen; [now split |].
  apply Nat.ltb_ge in Elen.
  destruct (maxResults <=? List.length results)%nat; [now split |].
  remember (GraphBuilder.edgesOf adj currentNode) as es eqn:Hes.
  assert (Hincl : forall e, In e es -> In e (GraphBuilder.edgesOf adj currentNode))
    by (subst es; auto).
  clear Hes. revert results Hlen Hres.
  induction es as [| edge es IHes]; intros results Hlen Hres; [now split |].
  assert (Hedge : In edge (GraphBuilder.edgesOf adj currentNode))
    by (apply Hincl; now left).
  assert (Hincl' : forall e, In e es -> In e (GraphBuilder.edgesOf adj currentNode))
    by (intros e He; apply Hincl; now right).
  specialize (IHes Hincl').
  destruct (maxResults <=? List.length results)%nat eqn:Emax; [now split |].
  apply Nat.leb_gt in Emax.
  destruct Hst as [Hhd [Hlast [Hne [Hnd [Hfol [Hmin Hvis]]]]]].
  destruct (String.eqb (peer edge) startNode
            && (MIN_CYCLE <=? List.length path)%nat) eqn:Ecyc.
  - apply andb_true_iff in Ecyc. destruct Ecyc as [Eback Emin].
    apply String.eqb_eq in Eback. apply Nat.leb_le in Emin.
    apply IHes.
    + rewrite length_app. cbn. lia.
    + apply Forall_app. split; [exact Hres |]. constructor; [| constructor].
      unfold simpleCycle. unfold MIN_CYCLE, MAX_CYCLE in *.
      split; [lia |]. split; [exact Hnd |]. split; [exact Hfol |].
      split.
      * rewrite Hlast, Hhd. exists edge. now split.
      * now rewrite Hhd.
  - destruct (negb (shas visited (peer edge))
              && (List.length path <? MAX_CYCLE)%nat) eqn:Enew;
      [| now apply IHes].
    apply andb_true_iff in Enew. destruct Enew as [Evis Eroom].
    apply negb_true_iff, shas_false in Evis. apply Nat.ltb_lt in Eroom.
    destruct (String.leb startNode (peer edge)) eqn:Eord; [| now apply IHes].
    destruct (30 <? List.length (GraphBuilder.edgesOf adj (peer edge)))%nat;
      [now apply IHes |].
    assert (Hst' : dfsState adj startNode (peer edge) (path ++ [peer edge])
                     (sadd visited (peer edge))).
    { unfold dfsState. split; [| split; [| split; [| split; [| split; [| split]]]]].
      - destruct path; [congruence | exact Hhd].
      - apply last_snoc_string.
      - destruct path; discriminate.
      - apply NoDup_app; [exact Hnd | constructor; [intros [] | constructor] |].
        intros x Hx [<- | []]. apply Evis. now apply Hvis.
      - apply followsEdges_snoc; [exact Hfol |]. intros _. rewrite Hlast.
        exists edge. now split.
      - apply Forall_app. split; [exact Hmin |]. now constructor.
      - intros x. rewrite sadd_In, in_app_iff, Hvis. cbn [In].
        split.
        + intros [H | ->]; [now left | right; now left].
        + intros [H | [<- | []]]; [now left | now right]. }
    destruct (IH startNode (peer edge) (path ++ [peer edge])
                (sadd visited (peer edge)) results Hst' Hlen Hres)
      as [Hlen' Hres'].
    now apply IHes.
Qed.

Lemma seedLoop_invariant (seeds : list string) (allCycles : list (list string)) :
  (List.length allCycles <= MAX_RESULTS)%nat ->
  Forall (simpleCycle adj) allCycles ->
  (List.length (seedLoop adj seeds allCycles) <= MAX_RESULTS)%nat
  /\ Forall (simpleCycle adj) (seedLoop adj seeds allCycles).
Proof.
  revert allCycles. induction seeds as [| s seeds IH]; intros allCycles Hlen Hres;
    cbn [seedLoop]; [now split |].
  destruct (MAX_RESULTS <=? List.length allCycles)%nat; [now split |].
  destruct (MAX_OUT_DEGREE <? List.length (GraphBuilder.edgesOf adj s))%nat;
    [now apply IH |].
  assert (Hst : dfsState adj s s [s] [s]).
  { unfold dfsState. repeat split; try reflexivity; try discriminate; auto.
    - constructor; [intros [] | constructor].
    - constructor; [| constructor].
      destruct (String.leb_total s s); assumption. }
  destruct (@dfs_invariant (S MAX_CYCLE) MAX_RESULTS s s [s] [s] allCycles
              Hst Hlen Hres) as [Hlen' Hres'].
  now apply IH.
Qed.

Lemma cycle_dedupLoop_spec (cycles : list (list string)) (seen : list string) :
  let out := dedupLoop cycles seen in
  NoDup (map cycleKey out)
  /\ (forall c, In c out -> In c cycles /\ ~ In (cycleKey c) seen)
  /\ (forall c, In c cycles ->
                In (cycleKey c) seen \/ In (cycleKey c) (map cycleKey out))
  /\ (List.length out <= List.length cycles)%nat.
Proof.
  cbv zeta. revert seen. induction cycles as [| c cycles IH]; intros seen;
    cbn [dedupLoop].
  - split; [constructor |]. split; [intros c [] |].
    split; [intros c [] | apply Nat.le_refl].
  - fold (cycleKey c). destruct (shas seen (cycleKey c)) eqn:E.
    + destruct (IH seen) as [H1 [H2 [H3 H4]]]. apply shas_In in E.
      repeat split.
      * exact H1.
      * right. now apply H2.
      * now apply H2.
      * intros c' [<- | Hc']; [now left | now apply H3].
      * cbn [List.length]. lia.
    + destruct (IH (sadd seen (cycleKey c))) as [H1 [H2 [H3 H4]]].
      apply shas_false in E. repeat split.
      * cbn [map]. constructor; [| exact H1].
        intros Hin. apply in_map_iff in Hin. destruct Hin as [c' [Hk Hc']].
        apply H2 in Hc'. destruct Hc' as [_ Hns]. apply Hns.
        apply sadd_In. now right.
      * destruct H as [<- | H]; [now left | right; now apply H2].
      * destruct H as [<- | H]; [exact E |]. apply H2 in H.
        destruct H as [_ Hns]. intros Hin. apply Hns. apply sadd_In. now left.
      * intros c' [<- | Hc']; [right; now left |].
        destruct (H3 c' Hc') as [Hs | Ho].
        -- apply sadd_In in Hs. destruct Hs as [Hs | Hs]; [now left |].
           right. left. now symmetry.
        -- right. now right.
      * cbn [List.length]. lia.
Qed.

Lemma detect_simple (cyc : list string) :
  In cyc (detect adj) -> simpleCycle adj cyc.
Proof.
  unfold detect, _deduplicateCycles. intros Hin.
  destruct (cycle_dedupLoop_spec
              (seedLoop adj (sortStrings (mkeys adj)) []) [])
    as [_ [Hsub _]].
  apply Hsub in Hin. destruct Hin as [Hin _].
  destruct (@seedLoop_invariant (sortStrings (mkeys adj)) [])
    as [_ Hall]; [cbn; lia | constructor |].
  rewrite Forall_forall in Hall. now apply Hall.
Qed.

End DetectedCycles.

(** X10: every cycle that [CycleDetector.detect] returns has 3 to 5 nodes,
    all different; the adjacency list has an edge from each node to the
    next and from the last back to the first; and the first node is the
    smallest of the cycle in the order of the strings. *)
Theorem detected_cycles_are_simple (adj : Map (list AdjEdge))
  (cyc : list string) :
  In cyc (CycleDetector.detect adj) ->
  (3 <= List.length cyc <= 5)%nat
  /\ NoDup cyc
  /\ followsEdges adj cyc
  /\ hasEdge adj (last cyc EmptyString) (hd EmptyString cyc)
  /\ Forall (fun x => String.leb (hd EmptyString cyc) x = true) cyc.
Proof. intros Hin. exact (@detect_simple adj cyc Hin). Qed.

Lemma detected_cycles_are_simple_witness :
  In ["M"; "X"; "Y"]%string
    (CycleDetector.detect
       (adjacencyList (GraphBuilder.build Samples.merchantCycle)))
  /\ followsEdges (adjacencyList (GraphBuilder.build Samples.merchantCycle))
       ["M"; "X"; "Y"]%string.
Proof.
  assert (Hin : In ["M"; "X"; "Y"]%string
                  (CycleDetector.detect
                     (adjacencyList (GraphBuilder.build Samples.merchantCycle)))).
  { vm_compute. left. reflexivity. }
  split; [exact Hin |].
  destruct (@detected_cycles_are_simple _ _ Hin) as [_ [_ [H _]]]. exact H.
Defined.

(** X11: [CycleDetector.detect] returns at most 500 cycles, and no two of
    them have the same canonical rotation: no cycle is reported twice. *)
Theorem detected_cycles_bounded_and_distinct (adj : Map (list AdjEdge)) :
  (List.length (CycleDetector.detect adj) <= 500)%nat
  /\ NoDup (map cycleKey (CycleDetector.detect adj))
  /\ NoDup (CycleDetector.detect adj).
Proof.
  unfold CycleDetector.detect, CycleDetector._deduplicateCycles.
  destruct (cycle_dedupLoop_spec
              (CycleDetector.seedLoop adj (sortStrings (mkeys adj)) []) [])
    as [Hnd [_ [_ Hlen]]].
  destruct (@seedLoop_invariant adj (sortStrings (mkeys adj)) [])
    as [Hmax _]; [cbn; lia | constructor |].
  unfold CycleDetector.MAX_RESULTS in Hmax.
  split; [lia |]. split; [exact Hnd |].
  eapply NoDup_map_inv, Hnd.
Qed.

(** X12: the score of a cycle is between 55 and 100, whatever the graph:
    the base of 50, 5 to 15 for the length, and the bonuses for similar
    amounts, closeness in time and low activity, capped at 100. *)
Theorem scoreCycle_between_55_and_100 (adj : Map (list AdjEdge))
  (metas : Map NodeMeta) (cyc : list string) :
  (55 <= CycleDetector.scoreCycle adj metas cyc <= 100)%Q.
Proof.
  unfold CycleDetector.scoreCycle. cbv zeta.
  repeat match goal with
    | |- context [if ?c then _ else _] => destruct c
    end;
    match goal with
    | |- context [Math_min 100 ?x] =>
        destruct (Math_min_cases 100 x) as [[? ->] | [? ->]]; lra
    end.
Qed.

Section CanonicalCycles.

Import CycleDetector.

Lemma ltb_of_leb (a b : string) :
  String.leb a b = true -> String.ltb b a = false.
Proof.
  unfold String.leb, String.ltb. rewrite (String.compare_antisym a b).
  destruct (String.compare b a); cbn; congruence.
Qed.

Lemma minIndex_head (cyc rest : list string) (i : nat) :
  Forall (fun x => String.ltb x (nth 0 cyc EmptyString) = false) rest ->
  minIndex cyc i 0 rest = 0%nat.
Proof.
  revert i. induction rest as [| x rest IH]; intros i Hall; [reflexivity |].
  inversion Hall as [| ? ? Hx Hall']; subst. cbn [minIndex].
  rewrite Hx. now apply IH.
Qed.

End CanonicalCycles.

(** X13: every cycle that [CycleDetector.detect] returns is in canonical
    form already: [_canonicalize] leaves it as it is. *)
Theorem detected_cycles_are_canonical (adj : Map (list AdjEdge))
  (cyc : list string) :
  In cyc (CycleDetector.detect adj) -> CycleDetector._canonicalize cyc = cyc.
Proof.
  intros Hin. destruct (@detect_simple adj cyc Hin) as [Hlen [_ [_ [_ Hmin]]]].
  unfold CycleDetector._canonicalize.
  destruct cyc as [| a cyc]; [reflexivity |].
  cbn [hd tl] in *. inversion Hmin as [| ? ? _ Hrest]; subst.
  rewrite minIndex_head.
  - cbn [skipn firstn]. apply app_nil_r.
  - cbn [nth]. apply Forall_forall. intros x Hx.
    rewrite Forall_forall in Hrest. apply ltb_of_leb. now apply Hrest.
Qed.

Lemma detected_cycles_are_canonical_witness :
  In ["M"; "X"; "Y"]%string
    (CycleDetector.detect
       (adjacencyList (GraphBuilder.build Samples.merchantCycle)))
  /\ CycleDetector._canonicalize ["M"; "X"; "Y"]%string
     = ["M"; "X"; "Y"]%string.
Proof.
  assert (Hin : In ["M"; "X"; "Y"]%string
                  (CycleDetector.detect
                     (adjacencyList (GraphBuilder.build Samples.merchantCycle)))).
  { vm_compute. left. reflexivity. }
  split; [exact Hin |].
  exact (@detected_cycles_are_canonical _ _ Hin).
Defined.

(* ================================================================== *)
(** * The groups that [SmurfingDetector.detect] returns *)
(* ================================================================== *)

Section SmurfSignals.

Local Open Scope Z_scope.

Import SmurfingDetector.

Ltac split_ifs :=
  repeat match goal with
    | |- context [if ?c then _ else _] => destruct c
    end.

Lemma scoreStructural_range (d : nat) : 10 <= _scoreStructural d <= 25.
Proof. unfold _scoreStructural. split_ifs; lia. Qed.

Lemma scoreTemporalBurst_range (ts : list Z) : 0 <= _scoreTemporalBurst ts <= 25.
Proof. unfold _scoreTemporalBurst. cbv zeta. split_ifs; lia. Qed.

Lemma scoreOffHours_range (getHours : Z -> Z) (ts : list Z) :
  0 <= _scoreOffHours getHours ts <= 15.
Proof. unfold _scoreOffHours. cbv zeta. split_ifs; lia. Qed.

Lemma scoreVelocity_range (amounts : list Q) (ts : list Z) :
  0 <= _scoreVelocity amounts ts <= 20.
Proof. unfold _scoreVelocity. cbv zeta. split_ifs; lia. Qed.

Lemma scoreBehavioralAmounts_range (amounts : list Q) :
  0 <= _scoreBehavioralAmounts amounts <= 15.
Proof. unfold _scoreBehavioralAmounts. cbv zeta. split_ifs; lia. Qed.

Lemma scoreThroughput_range (metas : Map NodeMeta) (node : string) :
  0 <= _scoreThroughput metas node <= 10.
Proof.
  unfold _scoreThroughput. destruct (mget metas node) as [meta |]; [| lia].
  destruct (throughputRatio meta); [| lia]. split_ifs; lia.
Qed.

Lemma legitimacyPenalty_range (getHours : Z -> Z) (adj rev : Map (list AdjEdge))
  (metas : Map NodeMeta) (node : string) (ts : list Z) (amounts : list Q)
  (p : PatternType) :
  0 <= _legitimacyPenalty getHours adj rev metas node ts amounts p <= 85.
Proof.
  unfold _legitimacyPenalty, regularIntervalPenalty.
  destruct (mget metas node) as [meta |]; [| lia]. cbv zeta.
  destruct p; split_ifs; lia.
Qed.

Lemma computeSmurfScore_range (getHours : Z -> Z) (adj rev : Map (list AdjEdge))
  (metas : Map NodeMeta) (node : string) (txs : list SmurfTx) (p : PatternType) :
  0 <= _computeSmurfScore getHours adj rev metas node txs p <= 100.
Proof.
  unfold _computeSmurfScore. destruct txs; [lia |]. cbv zeta. lia.
Qed.

End SmurfSignals.

(** X14: the six signals of the smurfing score stay in their ranges:
    structural 10 to 25, temporal burst 0 to 25, off-hours 0 to 15, velocity
    0 to 20, behavioural 0 to 15 and throughput 0 to 10, so that they add up
    to 110 at most; the legitimacy penalty is between 0 and 85; and the
    score, after the penalty, is between 0 and 100. *)
Theorem smurf_signals_in_range (getHours : Z -> Z)
  (adj rev : Map (list AdjEdge)) (metas : Map NodeMeta) (node : string)
  (txs : list SmurfingDetector.SmurfTx) (p : PatternType) :
  let amounts := map SmurfingDetector.s_amount txs in
  let timestamps := sortZ (map SmurfingDetector.s_timestamp txs) in
  (10 <= SmurfingDetector._scoreStructural
           (List.length (setOf (map SmurfingDetector.counterparty txs)))
   <= 25)%Z
  /\ (0 <= SmurfingDetector._scoreTemporalBurst timestamps <= 25)%Z
  /\ (0 <= SmurfingDetector._scoreOffHours getHours timestamps <= 15)%Z
  /\ (0 <= SmurfingDetector._scoreVelocity amounts timestamps <= 20)%Z
  /\ (0 <= SmurfingDetector._scoreBehavioralAmounts amounts <= 15)%Z
  /\ (0 <= SmurfingDetector._scoreThroughput metas node <= 10)%Z
  /\ (10 <= SmurfingDetector.signalSum getHours metas node txs <= 110)%Z
  /\ (0 <= SmurfingDetector._legitimacyPenalty getHours adj rev metas node
             timestamps amounts p <= 85)%Z
  /\ (0 <= SmurfingDetector._computeSmurfScore getHours adj rev metas node txs p
      <= 100)%Z.
Proof.
  cbv zeta.
  pose proof (scoreStructural_range
                (List.length (setOf (map SmurfingDetector.counterparty txs)))).
  pose proof (scoreTemporalBurst_range
                (sortZ (map SmurfingDetector.s_timestamp txs))).
  pose proof (scoreOffHours_range getHours
                (sortZ (map SmurfingDetector.s_timestamp txs))).
  pose proof (scoreVelocity_range (map SmurfingDetector.s_amount txs)
                (sortZ (map SmurfingDetector.s_timestamp txs))).
  pose proof (scoreBehavioralAmounts_range (map SmurfingDetector.s_amount txs)).
  pose proof (scoreThroughput_range metas node).
  repeat (split; [assumption |]).
  split; [unfold SmurfingDetector.signalSum; cbv zeta; lia |].
  split; [apply legitimacyPenalty_range | apply computeSmurfScore_range].
Qed.

Section SmurfGroups.

Variable getHours : Z -> Z.
Variable txs : list Transaction.

Let g0 := GraphBuilder.build txs.

Lemma peers_of_received (n : string) :
  map peer (receivedEdges n txs)
  = map sender_id (List.filter (fun tx => String.eqb (receiver_id tx) n) txs).
Proof. unfold receivedEdges. rewrite map_map. reflexivity. Qed.

Lemma peers_of_sent (n : string) :
  map peer (sentEdges n txs)
  = map receiver_id (List.filter (fun tx => String.eqb (sender_id tx) n) txs).
Proof. unfold sentEdges. rewrite map_map. reflexivity. Qed.

Lemma entry_edgesOf (m : Map (list AdjEdge)) (node : string)
  (es : list AdjEdge) :
  NoDup (mkeys m) -> In (node, es) m -> GraphBuilder.edgesOf m node = es.
Proof.
  intros Hnd Hin. unfold GraphBuilder.edgesOf.
  now rewrite (In_mget _ _ _ Hnd Hin).
Qed.

Lemma detect_hubGroup (g : SmurfingDetector.SmurfGroup) :
  In g (SmurfingDetector.detect getHours (adjacencyList g0)
          (reverseAdjList g0) (nodeMetadata g0)) ->
  hubGroup txs g.
Proof.
  unfold SmurfingDetector.detect, SmurfingDetector._detectCombinedFanInFanOut,
    SmurfingDetector._detectFanOut, SmurfingDetector._detectFanIn.
  destruct (build_adjacency_NoDup txs) as [Hadj Hrev]. fold g0 in Hadj, Hrev.
  pose proof (build_metadata_NoDup txs) as Hmeta. fold g0 in Hmeta.
  intros Hin. apply combined_fold in Hin; [| exact Hmeta].
  destruct Hin as [Hin | [node [meta [Hent [Hs [Hr [_ [_ ->]]]]]]]].
  - apply fanOut_fold in Hin.
    destruct Hin as [Hin | [node [es [Hent [Hn [_ ->]]]]]].
    + apply fanIn_fold in Hin.
      destruct Hin as [[] | [node [es [Hent [Hn [_ ->]]]]]].
      pose proof (@entry_edgesOf _ _ _ Hrev Hent) as He.
      destruct (build_edgesOf txs node) as [_ Hrec]. fold g0 in Hrec.
      rewrite He in Hrec. clear He. subst es. rewrite peers_of_received in *.
      exists node. cbn. repeat split; try reflexivity. exact Hn.
    + pose proof (@entry_edgesOf _ _ _ Hadj Hent) as He.
      destruct (build_edgesOf txs node) as [Hsent _]. fold g0 in Hsent.
      rewrite He in Hsent. clear He. subst es. rewrite peers_of_sent in *.
      exists node. cbn. repeat split; try reflexivity. exact Hn.
  - apply (In_mget _ _ _ Hmeta) in Hent.
    apply build_metadata_lookup in Hent. fold g0 in Hent. subst meta.
    unfold GraphBuilder.buildMeta in Hs, Hr.
    cbn [uniqueSenders uniqueReceivers] in Hs, Hr.
    destruct (build_edgesOf txs node) as [Hsent Hrec]. fold g0 in Hsent, Hrec.
    rewrite Hsent, Hrec, ?peers_of_received, ?peers_of_sent in *.
    exists node. cbn. repeat split; try reflexivity; assumption.
Qed.

End SmurfGroups.

(** X15: every group the smurfing detector reports on the graph of an
    input is centred on one node: a fan-in group names it as aggregator and
    lists it first, then the distinct accounts that sent to it, ten or more;
    a fan-out group names it as disperser and lists the distinct accounts
    it sent to, ten or more; a combined group names it as both and lists
    its senders, then its receivers, ten or more of each.  The score of a
    reported group is between 40 and 100. *)
Theorem smurf_groups_are_hubs (getHours : Z -> Z) (txs : list Transaction)
  (g : SmurfingDetector.SmurfGroup) :
  In g (SmurfingDetector.detect getHours
          (adjacencyList (GraphBuilder.build txs))
          (reverseAdjList (GraphBuilder.build txs))
          (nodeMetadata (GraphBuilder.build txs))) ->
  hubGroup txs g /\ (40 <= SmurfingDetector.sg_score g <= 100)%Z.
Proof.
  intros Hin. split; [exact (@detect_hubGroup getHours txs g Hin) |].
  unfold SmurfingDetector.detect, SmurfingDetector._detectCombinedFanInFanOut,
    SmurfingDetector._detectFanOut, SmurfingDetector._detectFanIn in Hin.
  apply combined_fold in Hin; [| apply build_metadata_NoDup].
  destruct Hin as [Hin | [node [meta [_ [_ [_ [_ [Hs ->]]]]]]]].
  - apply fanOut_fold in Hin.
    destruct Hin as [Hin | [node [es [_ [_ [Hs ->]]]]]].
    + apply fanIn_fold in Hin.
      destruct Hin as [[] | [node [es [_ [_ [Hs ->]]]]]].
      cbn [SmurfingDetector.sg_score]. split; [exact Hs |].
      apply computeSmurfScore_range.
    + cbn [SmurfingDetector.sg_score]. split; [exact Hs |].
      apply computeSmurfScore_range.
  - cbn [SmurfingDetector.sg_score]. split; [exact Hs |].
    apply computeSmurfScore_range.
Qed.

Lemma smurf_groups_are_hubs_witness :
  exists g,
    In g (SmurfingDetector.detect Samples.utcHours
            (adjacencyList (GraphBuilder.build Samples.fanInSmurf))
            (reverseAdjList (GraphBuilder.build Samples.fanInSmurf))
            (nodeMetadata (GraphBuilder.build Samples.fanInSmurf)))
    /\ hubGroup Samples.fanInSmurf g.
Proof.
  eexists.
  assert (Hin : In (hd (SmurfingDetector.mkSmurfGroup fan_in None None [] 0 None)
                      (SmurfingDetector.detect Samples.utcHours
                         (adjacencyList (GraphBuilder.build Samples.fanInSmurf))
                         (reverseAdjList (GraphBuilder.build Samples.fanInSmurf))
                         (nodeMetadata (GraphBuilder.build Samples.fanInSmurf))))
                  (SmurfingDetector.detect Samples.utcHours
                     (adjacencyList (GraphBuilder.build Samples.fanInSmurf))
                     (reverseAdjList (GraphBuilder.build Samples.fanInSmurf))
                     (nodeMetadata (GraphBuilder.build Samples.fanInSmurf)))).
  { vm_compute. left. reflexivity. }
  split; [exact Hin |].
  destruct (@smurf_groups_are_hubs Samples.utcHours Samples.fanInSmurf _ Hin)
    as [H _].
  exact H.
Defined.

(* ================================================================== *)
(** * The chains that [ShellNetworkDetector.detect] returns *)
(* ================================================================== *)

Section BuiltEdges.

Variable txs : list Transaction.

Lemma sentEdges_transfer (n : string) (e : AdjEdge) :
  In e (GraphBuilder.edgesOf (adjacencyList (GraphBuilder.build txs)) n) ->
  isTransfer txs n (peer e) (e_amount e) (e_timestamp e).
Proof.
  destruct (build_edgesOf txs n) as [-> _]. unfold sentEdges.
  rewrite in_map_iff. intros [tx [<- Hin]]. apply filter_In in Hin.
  destruct Hin as [Hin Hs]. apply String.eqb_eq in Hs.
  exists tx. cbn. repeat split; assumption.
Qed.

Lemma receivedEdges_transfer (n : string) (e : AdjEdge) :
  In e (GraphBuilder.edgesOf (reverseAdjList (GraphBuilder.build txs)) n) ->
  isTransfer txs (peer e) n (e_amount e) (e_timestamp e).
Proof.
  destruct (build_edgesOf txs n) as [_ ->]. unfold receivedEdges.
  rewrite in_map_iff. intros [tx [<- Hin]]. apply filter_In in Hin.
  destruct Hin as [Hin Hs]. apply String.eqb_eq in Hs.
  exists tx. cbn. repeat split; assumption.
Qed.

End BuiltEdges.

Section ChainHops.

Import ShellNetworkDetector.

Variable txs : list Transaction.
Variable adj : Map (list AdjEdge).
Variable rev : Map (list AdjEdge).
Variable metas : Map NodeMeta.

Hypothesis adj_transfers :
  forall n e, In e (GraphBuilder.edgesOf adj n) ->
              isTransfer txs n (peer e) (e_amount e) (e_timestamp e).
Hypothesis rev_transfers :
  forall n e, In e (GraphBuilder.edgesOf rev n) ->
              isTransfer txs (peer e) n (e_amount e) (e_timestamp e).

Lemma hopsAre_snoc (path : list string) (amounts : list Q)
  (timestamps : list Z) (next : string) (x : Q) (t : Z) :
  hopsAre txs path amounts timestamps ->
  isTransfer txs (last path EmptyString) next x t ->
  hopsAre txs (path ++ [next]) (amounts ++ [x]) (timestamps ++ [t]).
Proof.
  revert amounts timestamps.
  induction path as [| a path IH]; intros amounts timestamps Hh Hl;
    [destruct Hh |].
  destruct path as [| b path].
  - destruct Hh as [-> ->]. cbn. split; [exact Hl | now split].
  - destruct amounts as [| y ys]; [destruct Hh |].
    destruct timestamps as [| u us]; [destruct Hh |].
    destruct Hh as [Hab Hh].
    change ((a :: b :: path) ++ [next]) with (a :: (b :: path) ++ [next]).
    cbn [hopsAre app]. split; [exact Hab |]. now apply IH.
Qed.

Lemma hopsAre_lengths (path : list string) (amounts : list Q)
  (timestamps : list Z) :
  hopsAre txs path amounts timestamps ->
  List.length path = S (List.length amounts)
  /\ List.length timestamps = List.length amounts.
Proof.
  revert amounts timestamps.
  induction path as [| a path IH]; intros amounts timestamps Hh;
    [destruct Hh |].
  destruct path as [| b path].
  - destruct Hh as [-> ->]. now split.
  - destruct amounts as [| y ys]; [destruct Hh |].
    destruct timestamps as [| u us]; [destruct Hh |].
    destruct Hh as [_ Hh]. destruct (IH _ _ Hh) as [H1 H2].
    cbn [List.length] in *. split; lia.
Qed.

Lemma traceShellChain_record (depth : nat) (shellNodes : list string)
  (startNode : string) :
  forall (currentNode : string) (path visited : list string)
         (amounts : list Q) (timestamps : list Z) (c : ShellChain),
    In c (_traceShellChain adj metas depth startNode currentNode path visited
            amounts timestamps shellNodes) ->
    last path EmptyString = currentNode ->
    NoDup path ->
    (forall x, In x path -> In x visited) ->
    hopsAre txs path amounts timestamps ->
    chainRecord txs metas shellNodes c.
Proof.
  induction depth as [| depth IH];
    intros currentNode path visited amounts timestamps c Hin Hlast Hnd Hvis Hh;
    [destruct Hin |].
  cbn [_traceShellChain] in Hin.
  destruct (MAX_CHAIN_LENGTH <=? List.length path)%nat; [destruct Hin |].
  apply in_flat_map in Hin. destruct Hin as [edge [Hedge Hin]].
  destruct (shas visited (peer edge)) eqn:Evis; [destruct Hin |].
  apply shas_false in Evis.
  destruct (mget metas (peer edge)) as [nextMeta |]; [| destruct Hin].
  destruct (Qltb AMOUNT_COHERENCE_MAX_DROP _); [destruct Hin |].
  destruct (Qltb (last amounts 0%Q) (e_amount edge)); [destruct Hin |].
  assert (Hnd' : NoDup (path ++ [peer edge])).
  { apply NoDup_app; [exact Hnd | constructor; [intros [] | constructor] |].
    intros x Hx [<- | []]. apply Evis. now apply Hvis. }
  assert (Hh' : hopsAre txs (path ++ [peer edge]) (amounts ++ [e_amount edge])
                  (timestamps ++ [e_timestamp edge])).
  { apply hopsAre_snoc; [exact Hh |]. rewrite Hlast.
    now apply adj_transfers. }
  destruct (shas shellNodes (peer edge)).
  - eapply IH; [exact Hin | | exact Hnd' | | exact Hh'].
    + apply last_last.
    + intros x Hx. apply sadd_In. apply in_app_iff in Hx.
      destruct Hx as [Hx | [<- | []]]; [left; now apply Hvis | now right].
  - destruct ((1 <=? _)%nat && (MIN_CHAIN_LENGTH <=? _)%nat) eqn:Emin;
      [| destruct Hin].
    destruct (forallb _ _); [| destruct Hin].
    destruct Hin as [<- | []]. unfold chainRecord.
    cbn [ShellNetworkDetector.chain ShellNetworkDetector.amounts
           ShellNetworkDetector.timestamps ShellNetworkDetector.shellAccounts
           ShellNetworkDetector.amountPattern ShellNetworkDetector.score].
    apply andb_true_iff in Emin. destruct Emin as [_ Emin].
    apply Nat.leb_le in Emin. unfold MIN_CHAIN_LENGTH in Emin.
    repeat split; assumption.
Qed.

Lemma tracedChains_record (shellNodes : list string) (c : ShellChain) :
  In c (tracedChains adj rev metas shellNodes) -> chainRecord txs metas shellNodes c.
Proof.
  unfold tracedChains. intros Hin. apply in_flat_map in Hin.
  destruct Hin as [shellNode [Hshell Hin]]. apply in_flat_map in Hin.
  destruct Hin as [edge [Hedge Hin]].
  destruct (mget metas (peer edge)); [| destruct Hin].
  destruct (shas shellNodes (peer edge)) eqn:Estart; [destruct Hin |].
  apply shas_false in Estart.
  eapply traceShellChain_record; [exact Hin | | | |].
  - reflexivity.
  - constructor; [| constructor; [intros [] | constructor]].
    intros [H | []]. apply Estart. now rewrite <- H.
  - intros x Hx. now apply setOf_In.
  - cbn. split; [| now split]. now apply rev_transfers.
Qed.

Lemma chain_dedupLoop_spec (chains : list ShellChain) (seen : list string) :
  let key := fun c : ShellChain => join "|" (chain c) in
  let out := dedupLoop chains seen in
  NoDup (map key out)
  /\ (forall c, In c out -> In c chains /\ ~ In (key c) seen).
Proof.
  cbv zeta. revert seen. induction chains as [| c chains IH]; intros seen;
    cbn [dedupLoop].
  - split; [constructor | intros c []].
  - destruct (shas seen (join "|" (chain c))) eqn:E.
    + destruct (IH seen) as [H1 H2]. split; [exact H1 |].
      intros c' Hc'. destruct (H2 c' Hc') as [H3 H4]. split; [now right | exact H4].
    + destruct (IH (sadd seen (join "|" (chain c)))) as [H1 H2].
      apply shas_false in E. split.
      * cbn [map]. constructor; [| exact H1].
        intros Hin. apply in_map_iff in Hin. destruct Hin as [c' [Hk Hc']].
        apply H2 in Hc'. destruct Hc' as [_ Hns]. apply Hns.
        apply sadd_In. now right.
      * intros c' [<- | Hc']; [split; [now left | exact E] |].
        destruct (H2 c' Hc') as [H3 H4]. split; [now right |].
        intros Hin. apply H4. apply sadd_In. now left.
Qed.

Lemma detect_record (c : ShellChain) :
  In c (detect adj rev metas) -> chainRecord txs metas (shellNodeSet metas) c.
Proof.
  unfold detect. intros Hin. destruct (shellNodeSet metas) eqn:E;
    [destruct Hin |]. rewrite <- E in *.
  unfold _deduplicateChains in Hin.
  destruct (chain_dedupLoop_spec
              (tracedChains adj rev metas (shellNodeSet metas)) [])
    as [_ Hsub].
  apply Hsub in Hin. destruct Hin as [Hin _].
  now apply tracedChains_record.
Qed.

End ChainHops.

Section ChainScore.

Local Open Scope Q_scope.

Lemma scoreChain_long (metas : Map NodeMeta) (chain : list string)
  (amounts : list Q) (timestamps : list Z) (shellNodes : list string) :
  (4 <= List.length chain)%nat -> (2 <= List.length amounts)%nat ->
  65 <= ShellNetworkDetector._scoreChain metas chain amounts timestamps
          shellNodes <= 100.
Proof.
  intros Hn Ha. unfold ShellNetworkDetector._scoreChain. cbv zeta.
  apply Nat.leb_le in Ha. rewrite Ha.
  destruct (6 <=? List.length chain)%nat;
    [| destruct (5 <=? List.length chain)%nat;
       [| apply Nat.leb_le in Hn; rewrite Hn]];
    repeat match goal with
      | |- context [if ?c then _ else _] => destruct c
      | |- context [match ?c with exact_passthrough => _ | gradual_decay => _
                                  | mixed => _ end] => destruct c
      | |- context [let '(a, b) := ?c in _] => destruct c
      end;
    match goal with
    | |- context [Math_min 100 ?x] =>
        destruct (Math_min_cases 100 x) as [[? ->] | [? ->]]; lra
    end.
Qed.

End ChainScore.

(** X16: every chain that the shell detector reports on the graph of an
    input visits no account twice, and each of its hops is a transaction of
    the input from the one account to the next, with the amount and the
    instant the chain records for the hop. *)
Theorem shell_chain_hops_are_transactions (txs : list Transaction)
  (c : ShellNetworkDetector.ShellChain) :
  In c (ShellNetworkDetector.detect
          (adjacencyList (GraphBuilder.build txs))
          (reverseAdjList (GraphBuilder.build txs))
          (nodeMetadata (GraphBuilder.build txs))) ->
  NoDup (ShellNetworkDetector.chain c)
  /\ hopsAre txs (ShellNetworkDetector.chain c)
       (ShellNetworkDetector.amounts c) (ShellNetworkDetector.timestamps c)
  /\ List.length (ShellNetworkDetector.timestamps c)
     = List.length (ShellNetworkDetector.amounts c).
Proof.
  intros Hin.
  destruct (@detect_record txs _ _ _ (sentEdges_transfer txs)
              (receivedEdges_transfer txs) c Hin) as [Hnd [Hh _]].
  split; [exact Hnd |]. split; [exact Hh |].
  now destruct (@hopsAre_lengths txs _ _ _ Hh).
Qed.

Lemma shell_chain_hops_are_transactions_witness :
  exists c,
    In c (ShellNetworkDetector.detect
            (adjacencyList (GraphBuilder.build Samples.passThrough))
            (reverseAdjList (GraphBuilder.build Samples.passThrough))
            (nodeMetadata (GraphBuilder.build Samples.passThrough)))
    /\ NoDup (ShellNetworkDetector.chain c).
Proof.
  eexists.
  assert (Hin : In (hd (ShellNetworkDetector.mkShellChain [] [] [] [] mixed 0)
                      (ShellNetworkDetector.detect
                         (adjacencyList (GraphBuilder.build Samples.passThrough))
                         (reverseAdjList (GraphBuilder.build Samples.passThrough))
                         (nodeMetadata (GraphBuilder.build Samples.passThrough))))
                  (ShellNetworkDetector.detect
                     (adjacencyList (GraphBuilder.build Samples.passThrough))
                     (reverseAdjList (GraphBuilder.build Samples.passThrough))
                     (nodeMetadata (GraphBuilder.build Samples.passThrough)))).
  { vm_compute. left. reflexivity. }
  split; [exact Hin |].
  destruct (@shell_chain_hops_are_transactions Samples.passThrough _ Hin)
    as [Hnd _].
  exact Hnd.
Defined.

(** X17: a chain reported on the graph of an input lists as
    [shellAccounts] its nodes without the first and the last, carries the
    classification of its own amounts, and its score is [_scoreChain] of its
    own fields, between 65 and 100. *)
Theorem shell_chain_fields_and_score (txs : list Transaction)
  (c : ShellNetworkDetector.ShellChain) :
  let metas := nodeMetadata (GraphBuilder.build txs) in
  In c (ShellNetworkDetector.detect
          (adjacencyList (GraphBuilder.build txs))
          (reverseAdjList (GraphBuilder.build txs)) metas) ->
  ShellNetworkDetector.shellAccounts c
  = ShellNetworkDetector.interior (ShellNetworkDetector.chain c)
  /\ ShellNetworkDetector.amountPattern c
     = ShellNetworkDetector._classifyAmountPattern (ShellNetworkDetector.amounts c)
  /\ ShellNetworkDetector.score c
     = ShellNetworkDetector._scoreChain metas (ShellNetworkDetector.chain c)
         (ShellNetworkDetector.amounts c) (ShellNetworkDetector.timestamps c)
         (ShellNetworkDetector.shellNodeSet metas)
  /\ (65 <= ShellNetworkDetector.score c <= 100)%Q.
Proof.
  intros metas Hin.
  destruct (@detect_record txs _ _ _ (sentEdges_transfer txs)
              (receivedEdges_transfer txs) c Hin)
    as [_ [Hh [Hlen [Hacc [Hpat Hscore]]]]].
  split; [exact Hacc |]. split; [exact Hpat |]. split; [exact Hscore |].
  rewrite Hscore. destruct (@hopsAre_lengths txs _ _ _ Hh) as [Hl _].
  apply scoreChain_long; lia.
Qed.

Lemma shell_chain_fields_and_score_witness :
  exists c,
    In c (ShellNetworkDetector.detect
            (adjacencyList (GraphBuilder.build Samples.passThrough))
            (reverseAdjList (GraphBuilder.build Samples.passThrough))
            (nodeMetadata (GraphBuilder.build Samples.passThrough)))
    /\ (65 <= ShellNetworkDetector.score c <= 100)%Q.
Proof.
  eexists.
  assert (Hin : In (hd (ShellNetworkDetector.mkShellChain [] [] [] [] mixed 0)
                      (ShellNetworkDetector.detect
                         (adjacencyList (GraphBuilder.build Samples.passThrough))
                         (reverseAdjList (GraphBuilder.build Samples.passThrough))
                         (nodeMetadata (GraphBuilder.build Samples.passThrough))))
                  (ShellNetworkDetector.detect
                     (adjacencyList (GraphBuilder.build Samples.passThrough))
                     (reverseAdjList (GraphBuilder.build Samples.passThrough))
                     (nodeMetadata (GraphBuilder.build Samples.passThrough)))).
  { vm_compute. left. reflexivity. }
  split; [exact Hin |].
  destruct (@shell_chain_fields_and_score Samples.passThrough _ Hin)
    as [_ [_ [_ Hrange]]].
  exact Hrange.
Defined.

(** X18: the shell detector reports no node sequence twice. *)
Theorem shell_chains_are_distinct (adj rev : Map (list AdjEdge))
  (metas : Map NodeMeta) :
  NoDup (map ShellNetworkDetector.chain
           (ShellNetworkDetector.detect adj rev metas)).
Proof.
  unfold ShellNetworkDetector.detect.
  destruct (ShellNetworkDetector.shellNodeSet metas) eqn:E; [constructor |].
  rewrite <- E. unfold ShellNetworkDetector._deduplicateChains.
  destruct (chain_dedupLoop_spec
              (ShellNetworkDetector.tracedChains adj rev metas
                 (ShellNetworkDetector.shellNodeSet metas)) [])
    as [Hnd _].
  rewrite <- (map_map ShellNetworkDetector.chain (join "|")) in Hnd.
  eapply NoDup_map_inv, Hnd.
Qed.

(* ================================================================== *)
(** * The false-positive filter *)
(* ================================================================== *)

Section LegitimateSets.

Import FalsePositiveFilter.

Variable getHours : Z -> Z.
Variable adj : Map (list AdjEdge).
Variable rev : Map (list AdjEdge).
Variable metas : Map NodeMeta.

Lemma markHub_state (st : Legit) (node : string) (meta : NodeMeta) :
  In (node, meta) metas ->
  (10 <= uniqueSenders meta)%nat \/ (10 <= uniqueReceivers meta)%nat ->
  legitState adj rev metas st -> legitState adj rev metas (markHub st node).
Proof.
  intros Hin Hdeg [H1 [H2 [H3 [H4 H5]]]]. unfold legitState, markHub.
  cbn [legitimateAccounts legitimateHubs].
  split; [now apply sadd_NoDup |]. split; [now apply sadd_NoDup |].
  split; [| split].
  - intros x Hx. apply sadd_In in Hx. apply sadd_In.
    destruct Hx as [Hx | ->]; [left; now apply H3 | now right].
  - intros h Hh. apply sadd_In in Hh. destruct Hh as [Hh | ->].
    + now apply H4.
    + exists meta. now split.
  - intros a Ha. apply sadd_In in Ha. destruct Ha as [Ha | ->].
    + destruct (H5 a Ha) as [Hh | [m [h [e [Hm [Ht [Hh [He Hp]]]]]]]].
      * left. apply sadd_In. now left.
      * right. exists m, h, e. repeat split; try assumption.
        apply sadd_In. now left.
    + left. apply sadd_In. now right.
Qed.

Lemma merchantStep_state (st : Legit) (entry : string * NodeMeta) :
  In entry metas -> legitState adj rev metas st ->
  legitState adj rev metas (merchantStep getHours adj rev st entry).
Proof.
  destruct entry as [node meta]. intros Hin Hst. unfold merchantStep.
  destruct ((10 <=? uniqueSenders meta)%nat && _) eqn:E; [| exact Hst].
  apply andb_true_iff in E. destruct E as [E _]. apply Nat.leb_le in E.
  destruct (Qltb _ _); [| exact Hst].
  destruct (40 <=? _)%Z; [| exact Hst].
  apply (@markHub_state st node meta Hin); [now left | exact Hst].
Qed.

Lemma payrollStep_state (st : Legit) (entry : string * NodeMeta) :
  In entry metas -> legitState adj rev metas st ->
  legitState adj rev metas (payrollStep getHours adj rev st entry).
Proof.
  destruct entry as [node meta]. intros Hin Hst. unfold payrollStep.
  destruct ((10 <=? uniqueReceivers meta)%nat && _) eqn:E; [| exact Hst].
  apply andb_true_iff in E. destruct E as [E _]. apply Nat.leb_le in E.
  destruct (_ <? 10)%nat; [exact Hst |].
  destruct (0 <? _)%nat; [exact Hst |].
  destruct (40 <=? _)%Z; [| exact Hst].
  apply (@markHub_state st node meta Hin); [now right | exact Hst].
Qed.

Lemma exchangeStep_state (st : Legit) (entry : string * NodeMeta) :
  In entry metas -> legitState adj rev metas st ->
  legitState adj rev metas (exchangeStep adj rev st entry).
Proof.
  destruct entry as [node meta]. intros Hin Hst. unfold exchangeStep.
  destruct ((20 <=? uniqueSenders meta)%nat && _) eqn:E; [| exact Hst].
  apply andb_true_iff in E. destruct E as [E _]. apply Nat.leb_le in E.
  cbv zeta. destruct (Qltb _ _); [| exact Hst].
  destruct (2 <=? _)%nat; [| exact Hst].
  destruct (Qltb 48 _); [| exact Hst].
  apply (@markHub_state st node meta Hin); [left; lia | exact Hst].
Qed.

(** The accounts during the sweep over the hubs [hubs]: no repeats, the
    earlier ones kept, each new one a low-activity counterparty of a hub. *)
Let swept (hubs accs0 accs : list string) : Prop :=
  NoDup accs
  /\ incl accs0 accs
  /\ forall a, In a accs ->
       In a accs0
       \/ exists meta h e,
            mget metas a = Some meta
            /\ (txCount meta <= 5)%nat
            /\ In h hubs
            /\ (In e (GraphBuilder.edgesOf adj h)
                \/ In e (GraphBuilder.edgesOf rev h))
            /\ peer e = a.

Lemma sweepSide_swept (back : Map (list AdjEdge)) (hubs accs0 : list string)
  (h : string) (edges : list AdjEdge) (accs : list string) :
  In h hubs ->
  (forall e, In e edges ->
             In e (GraphBuilder.edgesOf adj h) \/ In e (GraphBuilder.edgesOf rev h)) ->
  swept hubs accs0 accs ->
  swept hubs accs0 (sweepSide metas back h edges accs).
Proof.
  intros Hh Hedges Hs. unfold sweepSide.
  apply fold_left_invariant; [| exact Hs].
  intros acc edge Hedge [S1 [S2 S3]].
  destruct (mget metas (peer edge)) as [cpMeta |] eqn:Em; [| now split].
  destruct ((_ <=? 3)%nat || _); [| now split].
  destruct (txCount cpMeta <=? 5)%nat eqn:Et; [| now split].
  apply Nat.leb_le in Et. split; [now apply sadd_NoDup |]. split.
  - intros x Hx. apply sadd_In. left. now apply S2.
  - intros a Ha. apply sadd_In in Ha. destruct Ha as [Ha | ->];
      [now apply S3 |].
    right. exists cpMeta, h, edge. repeat split; try assumption.
    now apply Hedges.
Qed.

Lemma markCounterparties_state (st : Legit) :
  legitState adj rev metas st ->
  legitState adj rev metas (_markCounterpartiesOfLegitimateHubs adj rev metas st).
Proof.
  intros [H1 [H2 [H3 [H4 H5]]]]. unfold _markCounterpartiesOfLegitimateHubs.
  assert (Hs : swept (legitimateHubs st) (legitimateAccounts st)
                 (fold_left
                    (fun accs hubNode =>
                       sweepSide metas rev hubNode
                         (GraphBuilder.edgesOf adj hubNode)
                         (sweepSide metas adj hubNode
                            (GraphBuilder.edgesOf rev hubNode) accs))
                    (legitimateHubs st) (legitimateAccounts st))).
  { apply fold_left_invariant.
    - intros accs h Hh Hacc. apply sweepSide_swept; [exact Hh | auto |].
      apply sweepSide_swept; [exact Hh | auto | exact Hacc].
    - split; [exact H1 |]. split; [apply incl_refl |]. intros a Ha. now left. }
  destruct Hs as [S1 [S2 S3]]. unfold legitState.
  cbn [legitimateAccounts legitimateHubs].
  split; [exact S1 |]. split; [exact H2 |]. split; [| split; [exact H4 |]].
  - intros x Hx. apply S2. now apply H3.
  - intros a Ha. destruct (S3 a Ha) as [Hold | Hnew]; [| now right].
    now apply H5.
Qed.

Lemma detectLegitimate_state :
  legitState adj rev metas (detectLegitimate getHours adj rev metas).
Proof.
  unfold detectLegitimate, _detectExchangePlatforms, _detectPayroll,
    _detectMerchants.
  apply markCounterparties_state.
  apply fold_left_invariant; [intros; now apply exchangeStep_state |].
  apply fold_left_invariant; [intros; now apply payrollStep_state |].
  apply fold_left_invariant; [intros; now apply merchantStep_state |].
  unfold legitState. cbn [legitimateAccounts legitimateHubs].
  split; [constructor |]. split; [constructor |].
  split; [apply incl_refl |]. split; intros x [].
Qed.

End LegitimateSets.

Section FilteredOutput.

Import FalsePositiveFilter.

Lemma centralNode_withMembers (ring : Ring) (members : list string) :
  centralNode (withMembers ring members) = centralNode ring.
Proof. reflexivity. Qed.

Lemma filterRing_spec (st : Legit) (ring r : Ring) :
  filterRing st ring = Some r ->
  r = withMembers ring
        (List.filter (fun id => negb (shas (legitimateAccounts st) id))
           (member_accounts ring))
  /\ (3 <= List.length (member_accounts r))%nat
  /\ (forall m, In m (member_accounts ring) -> ~ In m (legitimateHubs st))
  /\ (forall c, centralNode ring = Some c -> ~ In c (legitimateHubs st)).
Proof.
  unfold filterRing. intros H.
  destruct (match centralNode ring with
            | Some c => shas (legitimateHubs st) c
            | None => false
            end) eqn:Ec; [discriminate |].
  destruct (existsb (shas (legitimateHubs st)) (member_accounts ring)) eqn:Eh;
    [discriminate |].
  destruct (3 <=? _)%nat eqn:El; [| discriminate].
  injection H as <-. apply Nat.leb_le in El. split; [reflexivity |].
  split; [exact El |]. split.
  - intros m Hm Hhub.
    assert (existsb (shas (legitimateHubs st)) (member_accounts ring) = true).
    { apply existsb_exists. exists m. split; [exact Hm | now apply shas_In]. }
    congruence.
  - intros c Hc Hhub. rewrite Hc in Ec. apply shas_In in Hhub. congruence.
Qed.

End FilteredOutput.

(** X19: [filterResults] keeps exactly the accounts that are not
    legitimate, in their order.  A ring it keeps comes from an input ring
    that has no legitimate hub among its members or as its centre; it has
    the members of that ring that are not legitimate, in their order, three
    at least, and the other fields of that ring.  No ring is added. *)
Theorem filterResults_contract (st : FalsePositiveFilter.Legit)
  (accounts : list Account) (rings : list Ring) :
  let legit := fun id => shas (FalsePositiveFilter.legitimateAccounts st) id in
  let out := FalsePositiveFilter.filterResults st accounts rings in
  fst out = List.filter (fun acc => negb (legit (account_id acc))) accounts
  /\ Forall
       (fun r =>
          (3 <= List.length (member_accounts r))%nat
          /\ (forall m, In m (member_accounts r) ->
                ~ In m (FalsePositiveFilter.legitimateAccounts st))
          /\ exists r0,
               In r0 rings
               /\ r = FalsePositiveFilter.withMembers r0
                        (List.filter (fun id => negb (legit id))
                           (member_accounts r0))
               /\ (forall m, In m (member_accounts r0) ->
                     ~ In m (FalsePositiveFilter.legitimateHubs st))
               /\ (forall c, FalsePositiveFilter.centralNode r0 = Some c ->
                     ~ In c (FalsePositiveFilter.legitimateHubs st)))
       (snd out)
  /\ (List.length (snd out) <= List.length rings)%nat.
Proof.
  cbv zeta. unfold FalsePositiveFilter.filterResults. cbn [fst snd].
  split; [reflexivity |]. split.
  - apply Forall_forall. intros r Hr. apply in_flat_map in Hr.
    destruct Hr as [r0 [Hr0 Hr]].
    destruct (FalsePositiveFilter.filterRing st r0) as [r' |] eqn:E;
      [| destruct Hr].
    destruct Hr as [<- | []].
    destruct (filterRing_spec _ _ E) as [Heq [Hlen [Hhub Hc]]].
    split; [exact Hlen |]. split.
    + intros m Hm. rewrite Heq in Hm. cbn [FalsePositiveFilter.withMembers
                                             member_accounts] in Hm.
      apply filter_In in Hm. destruct Hm as [_ Hm].
      apply negb_true_iff in Hm. now apply shas_false.
    + exists r0. repeat split; assumption.
  - induction rings as [| r rings IH]; [apply Nat.le_refl |].
    cbn [flat_map List.length]. rewrite length_app.
    destruct (FalsePositiveFilter.filterRing st r); cbn [List.length]; lia.
Qed.

(** X20: the two sets [detectLegitimate] returns repeat no account; every
    legitimate hub is a legitimate account and a node with ten or more
    distinct senders or ten or more distinct receivers; every other
    legitimate account has at most five transactions and is a counterparty
    of a legitimate hub. *)
Theorem detectLegitimate_sets (getHours : Z -> Z)
  (adj rev : Map (list AdjEdge)) (metas : Map NodeMeta) :
  let st := FalsePositiveFilter.detectLegitimate getHours adj rev metas in
  NoDup (FalsePositiveFilter.legitimateAccounts st)
  /\ NoDup (FalsePositiveFilter.legitimateHubs st)
  /\ incl (FalsePositiveFilter.legitimateHubs st)
       (FalsePositiveFilter.legitimateAccounts st)
  /\ (forall h, In h (FalsePositiveFilter.legitimateHubs st) ->
        exists meta, In (h, meta) metas
                     /\ ((10 <= uniqueSenders meta)%nat
                         \/ (10 <= uniqueReceivers meta)%nat))
  /\ (forall a, In a (FalsePositiveFilter.legitimateAccounts st) ->
        In a (FalsePositiveFilter.legitimateHubs st)
        \/ exists meta h e,
             mget metas a = Some meta
             /\ (txCount meta <= 5)%nat
             /\ In h (FalsePositiveFilter.legitimateHubs st)
             /\ (In e (GraphBuilder.edgesOf adj h)
                 \/ In e (GraphBuilder.edgesOf rev h))
             /\ peer e = a).
Proof. cbv zeta. exact (detectLegitimate_state getHours adj rev metas). Qed.

Section AmountGroups.

Import FalsePositiveFilter.

Lemma amount_groupLoop_spec (tolerance : Q) (rest currentGroup : list Q)
  (groups : list (list Q)) :
  currentGroup <> [] -> Forall (fun g => g <> []) groups ->
  List.concat (groupLoop tolerance rest currentGroup groups)
  = List.concat groups ++ currentGroup ++ rest
  /\ Forall (fun g => g <> []) (groupLoop tolerance rest currentGroup groups).
Proof.
  revert currentGroup groups.
  induction rest as [| x rest IH]; intros cur groups Hne Hall; cbn [groupLoop].
  - rewrite concat_app. cbn. rewrite !app_nil_r. split; [reflexivity |].
    apply Forall_app. split; [exact Hall | now constructor].
  - destruct (Qleb _ tolerance).
    + destruct (IH (cur ++ [x]) groups) as [H1 H2];
        [destruct cur; discriminate | exact Hall |].
      split; [| exact H2]. rewrite H1, <- app_assoc. reflexivity.
    + destruct (IH [x] (groups ++ [cur])) as [H1 H2];
        [discriminate | apply Forall_app; split; [exact Hall | now constructor] |].
      split; [| exact H2]. rewrite H1, concat_app. cbn.
      rewrite app_nil_r, <- app_assoc. reflexivity.
Qed.

End AmountGroups.

(** X21: [_groupAmounts] cuts the amounts, sorted in ascending order, into
    consecutive groups: the groups concatenated are the sorted amounts, and
    no group is empty. *)
Theorem groupAmounts_partition (amounts : list Q) (tolerance : Q) :
  List.concat (FalsePositiveFilter._groupAmounts amounts tolerance) = sortQ amounts
  /\ Forall (fun g => g <> [])
       (FalsePositiveFilter._groupAmounts amounts tolerance).
Proof.
  unfold FalsePositiveFilter._groupAmounts.
  destruct (sortQ amounts) as [| first rest]; [split; [reflexivity | constructor] |].
  destruct (@amount_groupLoop_spec tolerance rest [first] [])
    as [H1 H2]; [discriminate | constructor |].
  split; [exact H1 | exact H2].
Qed.

(* ================================================================== *)
(** * The disjoint sets and the identifiers of the ring merger *)
(* ================================================================== *)

(** X22: on a [parent] map in which every index has a root, [find]
    returns the root of its argument, within as many rounds as the map has
    entries; the halving of the path it leaves behind changes the root of
    no index, makes no index a root or a non-root, and keeps the map a
    forest of the same size. *)
Theorem find_returns_the_root (parent : list nat) (x : nat) :
  forest parent -> (x < List.length parent)%nat ->
  let parent' := fst (ForensicsEngine.find parent x) in
  let r := snd (ForensicsEngine.find parent x) in
  (exists k, rootAt parent x r k)
  /\ ForensicsEngine.getNth parent r = r
  /\ List.length parent' = List.length parent
  /\ forest parent'
  /\ keepsRoots parent parent'
  /\ (forall z, ForensicsEngine.getNth parent' z = z
                <-> ForensicsEngine.getNth parent z = z).
Proof.
  intros Hf Hx. cbv zeta.
  destruct (find_spec Hf Hx) as [k [H1 [H2 [H3 [H4 [H5 _]]]]]].
  split; [now exists k |]. split.
  - clear - H1. induction H1; assumption.
  - repeat split; try assumption; apply H5.
Qed.

Lemma find_returns_the_root_witness :
  snd (ForensicsEngine.find [1; 2; 2]%nat 0) = 2%nat
  /\ fst (ForensicsEngine.find [1; 2; 2]%nat 0) = [2; 2; 2]%nat
  /\ exists k, rootAt [1; 2; 2]%nat 0
                 (snd (ForensicsEngine.find [1; 2; 2]%nat 0)) k.
Proof.
  split; [reflexivity |]. split; [reflexivity |].
  assert (R2 : rootAt [1; 2; 2]%nat 2 2 0)
    by (apply root_here; [cbn; lia | reflexivity]).
  assert (R1 : rootAt [1; 2; 2]%nat 1 2 1)
    by (apply root_up; [cbn; lia | cbn; lia | exact R2]).
  assert (R0 : rootAt [1; 2; 2]%nat 0 2 2)
    by (apply root_up; [cbn; lia | cbn; lia | exact R1]).
  assert (Hf : forest [1; 2; 2]%nat).
  { intros y Hy. cbn in Hy.
    destruct y as [| [| [| y]]]; [| | | lia].
    - exists 2%nat, 2%nat. split; [exact R0 | cbn; lia].
    - exists 2%nat, 1%nat. split; [exact R1 | cbn; lia].
    - exists 2%nat, 0%nat. split; [exact R2 | cbn; lia]. }
  assert (Hx : (0 < List.length [1; 2; 2]%nat)%nat) by (cbn; lia).
  destruct (@find_returns_the_root [1; 2; 2]%nat 0%nat Hf Hx) as [H _].
  exact H.
Defined.

(** X23: on such a map, [union a b] puts [a] and [b] under one root,
    separates no two indices that had one root, and keeps the map a forest
    of the same size. *)
Theorem union_joins_the_components (parent : list nat) (a b : nat) :
  forest parent ->
  (a < List.length parent)%nat -> (b < List.length parent)%nat ->
  let parent' := ForensicsEngine.union parent a b in
  sameRoot parent' a b
  /\ (forall z w, sameRoot parent z w -> sameRoot parent' z w)
  /\ forest parent'
  /\ List.length parent' = List.length parent.
Proof.
  intros Hf Ha Hb. cbv zeta.
  destruct (union_spec Hf Ha Hb) as [H1 [H2 [H3 [H4 _]]]].
  repeat split; assumption.
Qed.

Lemma union_joins_the_components_witness :
  ForensicsEngine.union (seq 0 3) 0 1 = [1; 1; 2]%nat
  /\ sameRoot (ForensicsEngine.union (seq 0 3) 0 1) 0 1.
Proof.
  split; [reflexivity |].
  destruct (initial_parent_forest 3) as [Hf _].
  assert (H0 : (0 < List.length (seq 0 3))%nat) by (cbn; lia).
  assert (H1 : (1 < List.length (seq 0 3))%nat) by (cbn; lia).
  destruct (@union_joins_the_components (seq 0 3) 0%nat 1%nat Hf H0 H1)
    as [H _].
  exact H.
Defined.

Section MergedMembers.

Import ForensicsEngine.

Lemma mergeOne_members (g : list Ring) (x : Ring) :
  In x g ->
  (forall y z, In y g -> In z g -> pattern_type y = pattern_type z) ->
  exists r', In r' (mergeOne g)
             /\ incl (member_accounts x) (member_accounts r')
             /\ pattern_type r' = pattern_type x.
Proof.
  intros Hx Hty. destruct g as [| first [| second rest]]; [destruct Hx | |].
  - destruct Hx as [<- | []]. exists first.
    split; [now left |]. split; [apply incl_refl | reflexivity].
  - exists (mergeGroup first (first :: second :: rest)).
    split; [now left |]. split.
    + intros m Hm. unfold mergeGroup. cbn [member_accounts].
      apply setOf_In, in_flat_map. now exists x.
    + unfold mergeGroup. cbn [pattern_type]. apply Hty; [now left | exact Hx].
Qed.

Lemma mergeOne_sources (g : list Ring) (r' : Ring) (m : string) :
  In r' (mergeOne g) -> In m (member_accounts r') ->
  (forall y z, In y g -> In z g -> pattern_type y = pattern_type z) ->
  exists x, In x g /\ In m (member_accounts x)
            /\ pattern_type x = pattern_type r'.
Proof.
  intros Hr Hm Hty. destruct g as [| first [| second rest]]; [destruct Hr | |].
  - destruct Hr as [<- | []]. exists first. split; [now left | now split].
  - destruct Hr as [<- | []]. unfold mergeGroup in *.
    cbn [member_accounts pattern_type] in *.
    apply setOf_In, in_flat_map in Hm. destruct Hm as [x [Hx Hm]].
    exists x. split; [exact Hx |]. split; [exact Hm |].
    apply Hty; [exact Hx | now left].
Qed.

Lemma mergeOne_length (g : list Ring) : (List.length (mergeOne g) <= 1)%nat.
Proof. destruct g as [| first [| second rest]]; cbn; lia. Qed.

Lemma groupPush_total (groups : list (nat * list Ring)) (root : nat) (r : Ring) :
  List.length (List.concat (map snd (groupPush groups root r)))
  = S (List.length (List.concat (map snd groups))).
Proof.
  induction groups as [| [k g] groups IH]; [reflexivity |].
  cbn [groupPush]. destruct (k =? root)%nat; cbn [map snd List.concat].
  - rewrite !length_app. cbn. lia.
  - rewrite !length_app, IH. lia.
Qed.

Lemma groupLoop_total (fromI : list Ring) (i : nat) (parent : list nat)
  (groups : list (nat * list Ring)) :
  List.length (List.concat (map snd (groupLoop i fromI parent groups)))
  = (List.length (List.concat (map snd groups)) + List.length fromI)%nat.
Proof.
  revert i parent groups. induction fromI as [| r fromI IH];
    intros i parent groups; cbn [groupLoop List.length]; [lia |].
  destruct (find parent i) as [parent' root]. rewrite IH, groupPush_total. lia.
Qed.

Lemma nonempty_groups_count (gs : list (list Ring)) :
  Forall (fun g => g <> []) gs ->
  (List.length gs <= List.length (List.concat gs))%nat.
Proof.
  induction 1 as [| g gs Hg _ IH]; [apply Nat.le_refl |].
  cbn [List.concat List.length]. rewrite length_app.
  destruct g; [congruence |]. cbn [List.length]. lia.
Qed.

Lemma flat_map_mergeOne_length (gs : list (list Ring)) :
  (List.length (flat_map mergeOne gs) <= List.length gs)%nat.
Proof.
  induction gs as [| g gs IH]; [apply Nat.le_refl |].
  cbn [flat_map List.length]. rewrite length_app.
  pose proof (mergeOne_length g). lia.
Qed.

Lemma mergeOverlappingRings_sources (rings : list Ring) (r' : Ring)
  (m : string) :
  In r' (_mergeOverlappingRings rings) -> In m (member_accounts r') ->
  exists r, In r rings /\ In m (member_accounts r)
            /\ pattern_type r = pattern_type r'.
Proof.
  destruct (ringGroups_spec rings) as [_ [Hgroups _]].
  unfold _mergeOverlappingRings.
  destruct (List.length rings <=? 1)%nat.
  - intros Hr Hm. exists r'. now split.
  - intros Hr Hm. apply in_flat_map in Hr. destruct Hr as [g [Hg Hr]].
    destruct (Hgroups g Hg) as [_ [Hsub Hty]].
    destruct (@mergeOne_sources g r' m Hr Hm Hty) as [x [H1 H2]].
    exists x. split; [now apply Hsub | exact H2].
Qed.

End MergedMembers.

(** X24: the merger loses no account and invents none: every input ring
    has its members in an output ring of its pattern type, and every member
    of an output ring is a member of an input ring of that pattern type.
    It returns at most as many rings as it is given, and its input when
    that has at most one ring. *)
Theorem merge_keeps_every_member (rings : list Ring) :
  ((List.length rings <= 1)%nat ->
   ForensicsEngine._mergeOverlappingRings rings = rings)
  /\ (forall r, In r rings ->
        exists r', In r' (ForensicsEngine._mergeOverlappingRings rings)
                   /\ incl (member_accounts r) (member_accounts r')
                   /\ pattern_type r' = pattern_type r)
  /\ (forall r' m,
        In r' (ForensicsEngine._mergeOverlappingRings rings) ->
        In m (member_accounts r') ->
        exists r, In r rings /\ In m (member_accounts r)
                  /\ pattern_type r = pattern_type r')
  /\ (List.length (ForensicsEngine._mergeOverlappingRings rings)
      <= List.length rings)%nat.
Proof.
  destruct (ringGroups_spec rings) as [_ [Hgroups Hcover]].
  unfold ForensicsEngine._mergeOverlappingRings.
  destruct (List.length rings <=? 1)%nat eqn:E.
  - split; [reflexivity |]. split; [| split; [| apply Nat.le_refl]].
    + intros r Hr. exists r. split; [exact Hr |].
      split; [apply incl_refl | reflexivity].
    + intros r' m Hr Hm. exists r'. now split.
  - apply Nat.leb_gt in E. split; [lia |]. split; [| split].
    + intros r Hr. apply In_nth_error in Hr. destruct Hr as [t Ht].
      destruct (Hcover t r Ht) as [g [Hg Hin]].
      destruct (Hgroups g Hg) as [_ [_ Hty]].
      destruct (@mergeOne_members g r Hin Hty) as [r' [H1 H2]].
      exists r'. split; [| exact H2]. apply in_flat_map. now exists g.
    + intros r' m Hr Hm. apply in_flat_map in Hr. destruct Hr as [g [Hg Hr]].
      destruct (Hgroups g Hg) as [_ [Hsub Hty]].
      destruct (@mergeOne_sources g r' m Hr Hm Hty) as [x [H1 H2]].
      exists x. split; [now apply Hsub | exact H2].
    + etransitivity; [apply flat_map_mergeOne_length |].
      etransitivity; [apply nonempty_groups_count |].
      * apply Forall_forall. intros g Hg. now destruct (Hgroups g Hg).
      * unfold ForensicsEngine.ringGroups. rewrite groupLoop_total. cbn. lia.
Qed.

Section RingIdentifiers.

Import ForensicsEngine.

Lemma uint_of_string_zero (s : string) (d : Decimal.uint) :
  NilEmpty.uint_of_string s = Some d ->
  NilEmpty.uint_of_string (String "0" s) = Some (Decimal.D0 d).
Proof. intros H. cbn [NilEmpty.uint_of_string]. rewrite H. reflexivity. Qed.

Lemma padStart3_value (s : string) (d : Decimal.uint) :
  NilEmpty.uint_of_string s = Some d ->
  option_map Nat.of_uint (NilEmpty.uint_of_string (padStart3 s))
  = Some (Nat.of_uint d).
Proof.
  intros H. unfold padStart3.
  destruct (String.length s) as [| [| [| n]]].
  - change (String.append "000" s) with (String "0" (String "0" (String "0" s))).
    now rewrite (uint_of_string_zero _ (uint_of_string_zero _
                   (uint_of_string_zero _ H))).
  - change (String.append "00" s) with (String "0" (String "0" s)).
    now rewrite (uint_of_string_zero _ (uint_of_string_zero _ H)).
  - change (String.append "0" s) with (String "0" s).
    now rewrite (uint_of_string_zero _ H).
  - now rewrite H.
Qed.

Lemma ringIndexOf_ringIdOf (n : nat) : ringIndexOf (ringIdOf n) = Some n.
Proof.
  unfold ringIndexOf.
  assert (Hsub : forall s : string, substring 0 (String.length s) s = s).
  { induction s as [| c s IH]; [reflexivity |]. cbn. now rewrite IH. }
  assert (Hp : String.prefix "RING_" (ringIdOf n) = true).
  { unfold ringIdOf. destruct (padStart3 (natToString n)); reflexivity. }
  assert (Hs : substring 5 (String.length (ringIdOf n) - 5) (ringIdOf n)
               = padStart3 (natToString n)).
  { unfold ringIdOf. set (digits := padStart3 (natToString n)).
    change (String.append "RING_" digits)
      with (String "R" (String "I" (String "N" (String "G"
              (String "_" digits))))).
    cbn [String.length Nat.sub substring]. rewrite Nat.sub_0_r. apply Hsub. }
  rewrite Hp, Hs. unfold natToString.
  rewrite (padStart3_value _ (NilEmpty.usu (Nat.to_uint n))).
  now rewrite DecimalNat.Unsigned.of_to.
Qed.

Lemma map_injective_NoDup {A B : Type} (f : A -> B) (l : list A) :
  (forall x y, f x = f y -> x = y) -> NoDup l -> NoDup (map f l).
Proof.
  intros Hinj. induction 1 as [| x l Hx _ IH]; cbn [map]; constructor.
  - intros Hin. apply in_map_iff in Hin. destruct Hin as [y [Hy Hin]].
    apply Hinj in Hy. now subst.
  - exact IH.
Qed.

Lemma reassignIds_map (rings : list Ring) (idx : nat) :
  map ring_id (reassignIds idx rings)
  = map ringIdOf (seq (S idx) (List.length rings))
  /\ map member_accounts (reassignIds idx rings) = map member_accounts rings.
Proof.
  revert idx. induction rings as [| r rings IH]; intros idx; [now split |].
  cbn [reassignIds map List.length seq]. destruct (IH (S idx)) as [H1 H2].
  now rewrite H1, H2.
Qed.

End RingIdentifiers.

(** X25: a ring identifier determines the number it was made of, so
    different numbers give different identifiers; the rings in the output
    of [analyze] carry the identifiers of 1, 2, 3, ... in their order, and
    no identifier twice. *)
Theorem output_ring_ids_are_sequential :
  (forall n, ringIndexOf (ForensicsEngine.ringIdOf n) = Some n)
  /\ (forall n m, ForensicsEngine.ringIdOf n = ForensicsEngine.ringIdOf m ->
                  n = m)
  /\ forall (getHours : Z -> Z) (startTime endTime : Z)
            (txs : list Transaction),
       let rings :=
         ForensicsEngine.fraud_rings
           (ForensicsEngine.analyze getHours startTime endTime txs) in
       map ring_id rings
       = map ForensicsEngine.ringIdOf (seq 1 (List.length rings))
       /\ NoDup (map ring_id rings).
Proof.
  assert (Hinj : forall n m,
             ForensicsEngine.ringIdOf n = ForensicsEngine.ringIdOf m -> n = m).
  { intros n m H. apply (f_equal ringIndexOf) in H.
    rewrite !ringIndexOf_ringIdOf in H. congruence. }
  split; [exact ringIndexOf_ringIdOf |]. split; [exact Hinj |].
  intros getHours startTime endTime txs. cbv zeta.
  unfold ForensicsEngine.analyze.
  destruct (ForensicsEngine.filteredFindings getHours txs) as [accs rings]
    eqn:E.
  cbn [ForensicsEngine.fraud_rings].
  unfold ForensicsEngine.filteredFindings in E.
  destruct (FalsePositiveFilter.filterResults _ _ _) as [accs0 rings0] in E.
  injection E as _ <-.
  unfold ScoringEngine.scoreAllRings. rewrite map_map, length_map.
  cbn [ring_id].
  destruct (reassignIds_map
              (ForensicsEngine._mergeOverlappingRings rings0) 0) as [Hids _].
  assert (Hlen : List.length (ForensicsEngine.reassignIds 0
                                (ForensicsEngine._mergeOverlappingRings rings0))
                 = List.length (ForensicsEngine._mergeOverlappingRings rings0)).
  { rewrite <- (length_map ring_id), Hids, length_map, length_seq. reflexivity. }
  rewrite Hlen.
  change (map (fun x : Ring => ring_id x)) with (map ring_id).
  rewrite Hids. split; [reflexivity |].
  apply map_injective_NoDup; [exact Hinj | apply seq_NoDup].
Qed.

Section SuspicionMap.

Import ForensicsEngine.

Lemma mset_same {V} (m : Map V) (k : string) (v : V) :
  mget m k = Some v -> mset m k v = m.
Proof.
  induction m as [| [k0 v0] m IH]; cbn [mget mset]; [discriminate |].
  destruct (String.eqb k0 k); [intros H; congruence |].
  intros H. now rewrite IH.
Qed.

Lemma Math_max_idem (x s : Q) : Math_max (Math_max x s) s = Math_max x s.
Proof.
  unfold Math_max. destruct (Qleb x s) eqn:E; [| now rewrite E].
  destruct (Qleb s s); reflexivity.
Qed.

Lemma Math_max_ge (x s : Q) : (s <= Math_max x s)%Q.
Proof.
  destruct (Math_max_cases x s) as [[H ->] | [H ->]]; [apply Qle_refl |].
  now apply Qlt_le_weak.
Qed.

End SuspicionMap.

(** X26: [_addAccountSuspicion] changes the entry of its account only and
    leaves one that has the pattern, the ring identifier and a maximum
    score no smaller than the score; an account that is new goes to the end
    of the map; and a second call with the same arguments changes
    nothing. *)
Theorem addAccountSuspicion_accumulates (m : Map ForensicsEngine.Suspicion)
  (a : string) (score : Q) (pattern ringId : string) :
  let m1 := ForensicsEngine._addAccountSuspicion m a score pattern ringId in
  ForensicsEngine._addAccountSuspicion m1 a score pattern ringId = m1
  /\ (forall a', a' <> a -> mget m1 a' = mget m a')
  /\ (exists d, mget m1 a = Some d
                /\ In pattern (ForensicsEngine.patterns d)
                /\ In ringId (ForensicsEngine.ringIds d)
                /\ (score <= ForensicsEngine.maxScore d)%Q)
  /\ mkeys m1 = (if mhas m a then mkeys m else mkeys m ++ [a]).
Proof.
  cbv zeta.
  assert (Hstep : forall m0 d0,
             mget m0 a = Some d0 ->
             ForensicsEngine._addAccountSuspicion m0 a score pattern ringId
             = mset m0 a
                 {| ForensicsEngine.maxScore :=
                      Math_max (ForensicsEngine.maxScore d0) score;
                    ForensicsEngine.patterns :=
                      sadd (ForensicsEngine.patterns d0) pattern;
                    ForensicsEngine.ringIds :=
                      if shas (ForensicsEngine.ringIds d0) ringId
                      then ForensicsEngine.ringIds d0
                      else ForensicsEngine.ringIds d0 ++ [ringId] |}).
  { intros m0 d0 H. unfold ForensicsEngine._addAccountSuspicion, mhas.
    now rewrite H, H. }
  assert (Hids : forall ids : list string,
             shas (if shas ids ringId then ids else ids ++ [ringId]) ringId
             = true).
  { intros ids. destruct (shas ids ringId) eqn:E; [exact E |].
    apply shas_In, in_or_app. right. now left. }
  assert (Hcore : forall m0 d0,
             mget m0 a = Some d0 ->
             let m1 := ForensicsEngine._addAccountSuspicion m0 a score pattern
                         ringId in
             ForensicsEngine._addAccountSuspicion m1 a score pattern ringId = m1
             /\ (forall a', a' <> a -> mget m1 a' = mget m0 a')
             /\ (exists d, mget m1 a = Some d
                           /\ In pattern (ForensicsEngine.patterns d)
                           /\ In ringId (ForensicsEngine.ringIds d)
                           /\ (score <= ForensicsEngine.maxScore d)%Q)
             /\ mkeys m1 = mkeys m0).
  { intros m0 d0 H. cbv zeta. rewrite (Hstep m0 d0 H).
    set (d1 := {| ForensicsEngine.maxScore := _ |}).
    assert (H1 : mget (mset m0 a d1) a = Some d1)
      by now rewrite mget_mset, String.eqb_refl.
    split; [| split; [| split]].
    - rewrite (Hstep _ _ H1). unfold d1 at 2 3 4.
      cbn [ForensicsEngine.maxScore ForensicsEngine.patterns
             ForensicsEngine.ringIds].
      rewrite Math_max_idem, Hids.
      assert (Hp : sadd (sadd (ForensicsEngine.patterns d0) pattern) pattern
                   = sadd (ForensicsEngine.patterns d0) pattern).
      { unfold sadd at 1.
        assert (Hin : shas (sadd (ForensicsEngine.patterns d0) pattern) pattern
                      = true) by (apply shas_In, sadd_In; now right).
        now rewrite Hin. }
      rewrite Hp. fold d1. now apply mset_same.
    - intros a' Hne. rewrite mget_mset.
      apply not_eq_sym, String.eqb_neq in Hne. now rewrite Hne.
    - exists d1. split; [exact H1 |]. unfold d1.
      cbn [ForensicsEngine.maxScore ForensicsEngine.patterns
             ForensicsEngine.ringIds].
      split; [apply sadd_In; now right |].
      split; [apply shas_In, Hids | apply Math_max_ge].
    - rewrite mkeys_mset. unfold mhas. now rewrite H. }
  destruct (mget m a) as [d0 |] eqn:Eget.
  - destruct (Hcore m d0 Eget) as [C1 [C2 [C3 C4]]].
    unfold mhas. rewrite Eget. repeat split; assumption.
  - set (d0 := ForensicsEngine.mkSuspicion score [] []).
    assert (Hfirst : ForensicsEngine._addAccountSuspicion m a score pattern ringId
                     = ForensicsEngine._addAccountSuspicion (mset m a d0) a score
                         pattern ringId).
    { unfold ForensicsEngine._addAccountSuspicion at 1 2. unfold mhas.
      rewrite Eget. fold d0. rewrite mget_mset, String.eqb_refl. cbn iota.
      now rewrite mget_mset, String.eqb_refl. }
    rewrite Hfirst.
    assert (H0 : mget (mset m a d0) a = Some d0)
      by now rewrite mget_mset, String.eqb_refl.
    destruct (Hcore (mset m a d0) d0 H0) as [C1 [C2 [C3 C4]]].
    split; [exact C1 |]. split; [| split; [exact C3 |]].
    + intros a' Hne. rewrite (C2 a' Hne), mget_mset.
      apply not_eq_sym, String.eqb_neq in Hne. now rewrite Hne.
    + rewrite C4, mkeys_mset. reflexivity.
Qed.

(** In the output for [merchantCycle] the account [X] carries the ring id
    of its raw cycle ring, which the filter discarded: no ring is
    emitted. *)
Lemma stale_ring_id_example :
  ForensicsEngine.fraud_rings
    (ForensicsEngine.analyze Samples.utcHours 0 1000 Samples.merchantCycle)
  = []
  /\ map (fun acc => (account_id acc, acc_ring_id acc))
       (ForensicsEngine.suspicious_accounts
          (ForensicsEngine.analyze Samples.utcHours 0 1000
             Samples.merchantCycle))
     = [("X"%string, Some "RING_001"%string)]
  /\ map (fun r => (ring_id r, member_accounts r))
       (ForensicsEngine.fraudRings
          (ForensicsEngine.rawFindings Samples.utcHours Samples.merchantCycle))
     = [("RING_001"%string, ["M"; "X"; "Y"]%string)].
Proof. split; [| split]; vm_compute; reflexivity. Qed.

(** X27: for every suspicious account of the output: if some emitted
    ring has it as a member, its [ring_id] is that of the last emitted ring
    that has it as a member; if no emitted ring has it as a member, its
    [ring_id] is that of the first raw ring, before the filter, that has it
    as a member. *)
Theorem account_ring_id_rule (getHours : Z -> Z) (startTime endTime : Z)
  (txs : list Transaction) (acc : Account) :
  let result := ForensicsEngine.analyze getHours startTime endTime txs in
  let raw :=
    ForensicsEngine.fraudRings (ForensicsEngine.rawFindings getHours txs) in
  In acc (ForensicsEngine.suspicious_accounts result) ->
  (forall pre r post,
      ForensicsEngine.fraud_rings result = pre ++ r :: post ->
      In (account_id acc) (member_accounts r) ->
      (forall r', In r' post -> ~ In (account_id acc) (member_accounts r')) ->
      acc_ring_id acc = Some (ring_id r))
  /\ ((forall r, In r (ForensicsEngine.fraud_rings result) ->
                 ~ In (account_id acc) (member_accounts r)) ->
      exists pre r post,
        raw = pre ++ r :: post
        /\ In (account_id acc) (member_accounts r)
        /\ (forall r', In r' pre -> ~ In (account_id acc) (member_accounts r'))
        /\ acc_ring_id acc = Some (ring_id r)).
Proof.
  intros result raw Hin.
  unfold result, ForensicsEngine.analyze in *.
  destruct (ForensicsEngine.filteredFindings getHours txs) as [accs rings]
    eqn:Efind.
  cbn [ForensicsEngine.suspicious_accounts ForensicsEngine.fraud_rings] in *.
  set (metas := nodeMetadata (GraphBuilder.build txs)) in *.
  set (mapping := ForensicsEngine.ringMappingOf rings) in *.
  set (scored := ScoringEngine.scoreAllAccounts metas
                   (map (ForensicsEngine.withMappedRing mapping) accs)) in *.
  assert (Hin' := Hin). unfold scored in Hin'. clearbody scored.
  (* where the account comes from *)
  unfold ScoringEngine.scoreAllAccounts in Hin'. apply sortWith_In in Hin'.
  apply scoreAccountsLoop_source in Hin'.
  destruct Hin' as [acc1 [Hin1 [Hid1 Hring1]]].
  apply in_map_iff in Hin1. destruct Hin1 as [acc0 [<- Hin0]].
  cbn [ForensicsEngine.withMappedRing account_id acc_ring_id] in Hid1, Hring1.
  (* the rings and their ids *)
  unfold ForensicsEngine.filteredFindings in Efind.
  destruct (FalsePositiveFilter.filterResults _ _ _) as [accs0 rings0]
    eqn:Efilter in Efind.
  injection Efind as <- <-.
  apply sortWith_In in Hin0.
  unfold FalsePositiveFilter.filterResults in Efilter.
  injection Efilter as <- _.
  apply filter_In in Hin0. destruct Hin0 as [Hraw _].
  unfold ForensicsEngine.rawAccounts in Hraw. apply in_map_iff in Hraw.
  destruct Hraw as [[a d] [<- Hentry]]. cbn [fst snd] in *.
  cbn [account_id acc_ring_id] in Hid1, Hring1.
  destruct (rawFindings_agree getHours txs) as [Hnd [Hfirst _]].
  apply (In_mget _ _ _ Hnd) in Hentry.
  destruct (Hfirst a d Hentry) as [r1 [Hr1 Hd]].
  set (final := ForensicsEngine.reassignIds 0
                  (ForensicsEngine._mergeOverlappingRings rings0)) in *.
  destruct (ringMapping_fold final [] (account_id acc)) as [Hlast Hnone].
  fold (ForensicsEngine.ringMappingOf final) in Hlast, Hnone.
  fold mapping in Hlast, Hnone. rewrite Hid1 in Hlast, Hnone.
  split.
  + intros pre r post Heq Hmem Hpost.
    assert (HL : lastRingWith
                   (ScoringEngine.scoreAllRings txs
                      (adjacencyList (GraphBuilder.build txs))
                      (reverseAdjList (GraphBuilder.build txs)) metas final
                      scored) (account_id acc) r).
    { exists pre, post. now split. }
    destruct (@scoreAllRings_last _ _ _ _ _ _ _ _ HL) as [r0 [HL0 Hid0]].
    rewrite Hid1 in HL0. rewrite (Hlast r0 HL0) in Hring1.
    destruct HL0 as [pre0 [post0 [Hsplit _]]].
    assert (Hr0 : In r0 final).
    { rewrite Hsplit. apply in_or_app. right. now left. }
    destruct (@reassignIds_ids _ _ _ Hr0) as [k Hk].
    rewrite Hk, ringIdOf_not_empty in Hring1. congruence.
  + intros Habsent.
    assert (Hno : forall r, In r final -> ~ In a (member_accounts r)).
    { intros r Hr Hmem.
      destruct (@scoreAllRings_member txs
                  (adjacencyList (GraphBuilder.build txs))
                  (reverseAdjList (GraphBuilder.build txs)) metas final
                  scored r Hr) as [r' [Hr' Hm']].
      apply (Habsent r' Hr'). rewrite Hm', Hid1. exact Hmem. }
    rewrite (Hnone Hno) in Hring1. cbn [mget] in Hring1.
    destruct Hr1 as [pre [post [Hsplit [Hmem Hpre]]]].
    exists pre, r1, post. rewrite Hid1.
    split; [exact Hsplit |]. split; [exact Hmem |]. split; [exact Hpre |].
    congruence.
Qed.

Lemma account_ring_id_rule_witness :
  exists acc,
    In acc (ForensicsEngine.suspicious_accounts
              (ForensicsEngine.analyze Samples.utcHours 0 1000
                 Samples.passThrough))
    /\ forall pre r post,
         ForensicsEngine.fraud_rings
           (ForensicsEngine.analyze Samples.utcHours 0 1000 Samples.passThrough)
         = pre ++ r :: post ->
         In (account_id acc) (member_accounts r) ->
         (forall r', In r' post -> ~ In (account_id acc) (member_accounts r')) ->
         acc_ring_id acc = Some (ring_id r).
Proof.
  eexists.
  assert (Hin : In (hd (mkAccount EmptyString 0 [] None None None)
                      (ForensicsEngine.suspicious_accounts
                         (ForensicsEngine.analyze Samples.utcHours 0 1000
                            Samples.passThrough)))
                  (ForensicsEngine.suspicious_accounts
                     (ForensicsEngine.analyze Samples.utcHours 0 1000
                        Samples.passThrough))).
  { vm_compute. left. reflexivity. }
  split; [exact Hin |].
  destruct (@account_ring_id_rule Samples.utcHours 0%Z 1000%Z
              Samples.passThrough _ Hin) as [H _].
  exact H.
Defined.

(* ================================================================== *)
(** * The output of [analyze] as a whole *)
(* ================================================================== *)

Section RawRings.

Import ForensicsEngine.

Variable getHours : Z -> Z.
Variable txs : list Transaction.

Lemma rawFindings_origin (r : Ring) :
  In r (fraudRings (rawFindings getHours txs)) -> rawRingOrigin getHours txs r.
Proof.
  unfold rawFindings.
  set (g := GraphBuilder.build txs).
  set (P := fun st : BuildRings =>
              forall r0, In r0 (fraudRings st) -> rawRingOrigin getHours txs r0).
  revert r. change (P (fold_left addShellChain
                         (ShellNetworkDetector.detect (adjacencyList g)
                            (reverseAdjList g) (nodeMetadata g))
                         (fold_left addSmurfGroup
                            (SmurfingDetector.detect getHours (adjacencyList g)
                               (reverseAdjList g) (nodeMetadata g))
                            (fold_left
                               (addCycle (CycleDetector.scoreCycle
                                            (adjacencyList g) (nodeMetadata g)))
                               (CycleDetector.detect (adjacencyList g))
                               (mkBuildRings 1 [] []))))).
  apply fold_left_invariant.
  { intros st c Hc Hst r Hr. unfold addShellChain in Hr.
    cbn [fraudRings] in Hr. apply in_app_iff in Hr.
    destruct Hr as [Hr | [<- | []]]; [now apply Hst |].
    right. right. exists c. cbn. now split. }
  apply fold_left_invariant.
  { intros st grp Hg Hst r Hr. unfold addSmurfGroup in Hr.
    cbn [fraudRings] in Hr. apply in_app_iff in Hr.
    destruct Hr as [Hr | [<- | []]]; [now apply Hst |].
    right. left. exists grp. cbn. now split. }
  apply fold_left_invariant.
  { intros st cyc Hc Hst r Hr. unfold addCycle in Hr.
    cbn [fraudRings] in Hr. apply in_app_iff in Hr.
    destruct Hr as [Hr | [<- | []]]; [now apply Hst |].
    left. exists cyc. cbn. now split. }
  intros r [].
Qed.

Lemma transfer_parties (a b : string) (x : Q) (t : Z) :
  isTransfer txs a b x t -> isParty txs a /\ isParty txs b.
Proof.
  intros [tx [Hin [Hs [Hr _]]]]. split; exists tx; auto.
Qed.

Lemma followsEdges_parties (adj : Map (list AdjEdge)) (path : list string)
  (back : string) :
  (forall a b, hasEdge adj a b -> isParty txs a) ->
  followsEdges adj path -> hasEdge adj (last path EmptyString) back ->
  path <> [] ->
  forall x, In x path -> isParty txs x.
Proof.
  intros Hedge. induction path as [| a path IH]; intros Hf Hl Hne x Hx;
    [destruct Hx |].
  destruct path as [| b path].
  - destruct Hx as [<- | []]. cbn in Hl. eapply Hedge, Hl.
  - destruct Hf as [Hab Hf]. destruct Hx as [<- | Hx].
    + eapply Hedge, Hab.
    + apply IH; [exact Hf | exact Hl | discriminate | exact Hx].
Qed.

Lemma hopsAre_parties (path : list string) (amounts : list Q)
  (timestamps : list Z) :
  hopsAre txs path amounts timestamps -> (2 <= List.length path)%nat ->
  forall x, In x path -> isParty txs x.
Proof.
  revert amounts timestamps.
  induction path as [| a path IH]; intros amounts timestamps Hh Hlen x Hx;
    [destruct Hx |].
  destruct path as [| b path]; [cbn in Hlen; lia |].
  destruct amounts as [| y ys]; [destruct Hh |].
  destruct timestamps as [| u us]; [destruct Hh |].
  destruct Hh as [Hab Hh]. destruct (transfer_parties Hab) as [Pa Pb].
  destruct Hx as [<- | Hx]; [exact Pa |].
  destruct path as [| c path].
  - destruct Hx as [<- | []]. exact Pb.
  - apply (IH _ _ Hh); [cbn [List.length]; lia | exact Hx].
Qed.

Lemma nonempty_setOf_filter (f : Transaction -> string)
  (p : Transaction -> bool) :
  (1 <= List.length (setOf (map f (List.filter p txs))))%nat ->
  exists tx, In tx txs /\ p tx = true.
Proof.
  destruct (setOf (map f (List.filter p txs))) as [| s l] eqn:E;
    [cbn; lia |].
  intros _. assert (Hin : In s (setOf (map f (List.filter p txs))))
    by (rewrite E; now left).
  apply setOf_In, in_map_iff in Hin. destruct Hin as [tx [_ Hin]].
  apply filter_In in Hin. now exists tx.
Qed.

Lemma hubGroup_parties (grp : SmurfingDetector.SmurfGroup) :
  hubGroup txs grp ->
  forall x, In x (SmurfingDetector.sg_members grp) -> isParty txs x.
Proof.
  assert (Hs : forall node x, In x (sendersTo node txs) -> isParty txs x).
  { intros node x Hx. apply setOf_In, in_map_iff in Hx.
    destruct Hx as [tx [<- Hin]]. apply filter_In in Hin.
    exists tx. split; [apply Hin | now left]. }
  assert (Hr : forall node x, In x (receiversFrom node txs) -> isParty txs x).
  { intros node x Hx. apply setOf_In, in_map_iff in Hx.
    destruct Hx as [tx [<- Hin]]. apply filter_In in Hin.
    exists tx. split; [apply Hin | now right]. }
  assert (Hin : forall node,
             (1 <= List.length (sendersTo node txs))%nat -> isParty txs node).
  { intros node H. apply nonempty_setOf_filter in H.
    destruct H as [tx [Hin Hp]]. apply String.eqb_eq in Hp.
    exists tx. split; [exact Hin | now right]. }
  assert (Hout : forall node,
             (1 <= List.length (receiversFrom node txs))%nat ->
             isParty txs node).
  { intros node H. apply nonempty_setOf_filter in H.
    destruct H as [tx [Hin' Hp]]. apply String.eqb_eq in Hp.
    exists tx. split; [exact Hin' | now left]. }
  intros [node H] x Hx. destruct (SmurfingDetector.sg_type grp);
    try contradiction.
  - destruct H as [_ [_ [Hm Hn]]]. rewrite Hm in Hx.
    destruct Hx as [<- | Hx]; [apply Hin; lia | eapply Hs, Hx].
  - destruct H as [_ [_ [Hm Hn]]]. rewrite Hm in Hx.
    destruct Hx as [<- | Hx]; [apply Hout; lia | eapply Hr, Hx].
  - destruct H as [_ [_ [Hm [Hn _]]]]. rewrite Hm in Hx.
    destruct Hx as [<- | Hx]; [apply Hin; lia |].
    apply in_app_iff in Hx. destruct Hx as [Hx | Hx];
      [eapply Hs, Hx | eapply Hr, Hx].
Qed.

Lemma rawRing_parties (r : Ring) :
  rawRingOrigin getHours txs r ->
  forall x, In x (member_accounts r) -> isParty txs x.
Proof.
  intros [[cyc [Hc [Hm _]]] | [[grp [Hg Hm]] | [c [Hc [Hm _]]]]] x Hx;
    rewrite Hm in Hx.
  - destruct (@detect_simple _ cyc Hc) as [Hlen [_ [Hf [Hl _]]]].
    apply (@followsEdges_parties (adjacencyList (GraphBuilder.build txs)) cyc
             (hd EmptyString cyc)); try assumption.
    + intros a b [e [He _]]. apply sentEdges_transfer in He.
      now destruct (transfer_parties He).
    + destruct cyc; [cbn in Hlen; lia | discriminate].
  - apply (proj1 (setOf_In _ _)) in Hx. eapply hubGroup_parties; [| exact Hx].
    eapply detect_hubGroup, Hg.
  - destruct (@detect_record txs _ _ _ (sentEdges_transfer txs)
                (receivedEdges_transfer txs) c Hc) as [_ [Hh [Hlen _]]].
    apply (@hopsAre_parties _ _ _ Hh); [lia | exact Hx].
Qed.

End RawRings.

Section PipelineOutput.

Import ForensicsEngine.

Variable getHours : Z -> Z.
Variable startTime endTime : Z.
Variable txs : list Transaction.

Let g := GraphBuilder.build txs.
Let legit :=
  FalsePositiveFilter.detectLegitimate getHours (adjacencyList g)
    (reverseAdjList g) (nodeMetadata g).
Let raw := rawFindings getHours txs.
Let result := analyze getHours startTime endTime txs.

Lemma rawAccounts_ids (m : Map Suspicion) : map account_id (rawAccounts m) = mkeys m.
Proof. unfold rawAccounts, mkeys. rewrite map_map. reflexivity. Qed.

Lemma filtered_ids (l : list Account) (id : string) :
  In id (map account_id
           (List.filter
              (fun acc => negb (shas (FalsePositiveFilter.legitimateAccounts legit)
                                  (account_id acc))) l))
  <-> In id (map account_id l)
      /\ ~ In id (FalsePositiveFilter.legitimateAccounts legit).
Proof.
  rewrite !in_map_iff. split.
  - intros [acc [<- Hin]]. apply filter_In in Hin. destruct Hin as [Hin Hn].
    apply negb_true_iff, shas_false in Hn. split; [now exists acc | exact Hn].
  - intros [[acc [<- Hin]] Hn]. exists acc. split; [reflexivity |].
    apply filter_In. split; [exact Hin |].
    now apply negb_true_iff, shas_false.
Qed.

(** The identifiers of the suspicious accounts of the output: the accounts
    of the suspicion map that are not legitimate, each once. *)
Lemma output_account_ids :
  NoDup (map account_id (suspicious_accounts result))
  /\ forall id,
       In id (map account_id (suspicious_accounts result))
       <-> In id (mkeys (accountSuspicionMap raw))
           /\ ~ In id (FalsePositiveFilter.legitimateAccounts legit).
Proof.
  unfold result, analyze, filteredFindings, FalsePositiveFilter.filterResults.
  cbn [suspicious_accounts]. fold g. fold legit. fold raw.
  match goal with
  | |- NoDup (map account_id (ScoringEngine.scoreAllAccounts ?metas ?accs)) /\ _ =>
      destruct (scoreAllAccounts_ids metas accs) as [Hnd Hiff]
  end.
  split; [exact Hnd |]. intros id. rewrite Hiff, map_map.
  change (map (fun x => account_id (withMappedRing _ x))) with (map account_id).
  rewrite <- rawAccounts_ids, <- filtered_ids.
  rewrite !in_map_iff. split; intros [a [H1 H2]]; exists a;
    (split; [exact H1 |]); [apply sortWith_In in H2 | apply sortWith_In];
    exact H2.
Qed.

Lemma reassignIds_members (rings : list Ring) (idx : nat) (r : Ring) :
  In r (reassignIds idx rings) ->
  exists r0, In r0 rings /\ member_accounts r = member_accounts r0.
Proof.
  revert idx. induction rings as [| x rings IH]; intros idx; [intros [] |].
  cbn [reassignIds]. intros [<- | Hin].
  - exists x. split; [now left | reflexivity].
  - destruct (IH _ Hin) as [r0 [H1 H2]]. exists r0. split; [now right | exact H2].
Qed.

(** A member of a ring of the output is not legitimate, and is a member of
    a raw ring. *)
Lemma output_ring_members (r : Ring) (m : string) :
  In r (fraud_rings result) -> In m (member_accounts r) ->
  ~ In m (FalsePositiveFilter.legitimateAccounts legit)
  /\ exists r0, In r0 (fraudRings raw) /\ In m (member_accounts r0).
Proof.
  unfold result, analyze, filteredFindings, FalsePositiveFilter.filterResults.
  cbn [fraud_rings]. fold g. fold legit. fold raw.
  intros Hr Hm. unfold ScoringEngine.scoreAllRings in Hr.
  apply in_map_iff in Hr. destruct Hr as [r1 [<- Hr1]].
  cbn [member_accounts] in Hm.
  apply reassignIds_members in Hr1. destruct Hr1 as [r2 [Hr2 Heq]].
  rewrite Heq in Hm.
  destruct (@mergeOverlappingRings_sources _ _ _ Hr2 Hm) as [r3 [Hr3 [Hm3 _]]].
  apply in_flat_map in Hr3. destruct Hr3 as [r4 [Hr4 Hr3]].
  destruct (FalsePositiveFilter.filterRing legit r4) as [r5 |] eqn:E;
    [| destruct Hr3].
  destruct Hr3 as [<- | []].
  destruct (@filterRing_spec _ _ _ E) as [Heq5 _]. rewrite Heq5 in Hm3.
  cbn [FalsePositiveFilter.withMembers member_accounts] in Hm3.
  apply filter_In in Hm3. destruct Hm3 as [Hm4 Hn].
  apply negb_true_iff, shas_false in Hn. split; [exact Hn |].
  exists r4. now split.
Qed.

End PipelineOutput.

(** X28: no account that the false-positive filter holds legitimate is in
    the output of [analyze], neither as a suspicious account nor as a
    member of a ring. *)
Theorem analyze_excludes_legitimate_accounts (getHours : Z -> Z)
  (startTime endTime : Z) (txs : list Transaction) :
  let g := GraphBuilder.build txs in
  let legit :=
    FalsePositiveFilter.detectLegitimate getHours (adjacencyList g)
      (reverseAdjList g) (nodeMetadata g) in
  let result := ForensicsEngine.analyze getHours startTime endTime txs in
  Forall (fun acc =>
            ~ In (account_id acc) (FalsePositiveFilter.legitimateAccounts legit))
    (ForensicsEngine.suspicious_accounts result)
  /\ Forall (fun r =>
               Forall (fun m =>
                         ~ In m (FalsePositiveFilter.legitimateAccounts legit))
                 (member_accounts r))
       (ForensicsEngine.fraud_rings result).
Proof.
  cbv zeta. split; apply Forall_forall.
  - intros acc Hacc.
    destruct (output_account_ids getHours startTime endTime txs) as [_ Hiff].
    apply (Hiff (account_id acc)). now apply in_map.
  - intros r Hr. apply Forall_forall. intros m Hm.
    now destruct (output_ring_members getHours startTime endTime txs r m Hr Hm).
Qed.

(** X29: every suspicious account and every ring member of the output is
    an account of the input, the sender or the receiver of a transaction;
    no account is listed twice, so the number of accounts flagged is at most
    the number of accounts analysed. *)
Theorem analyze_reports_input_accounts (getHours : Z -> Z)
  (startTime endTime : Z) (txs : list Transaction) :
  let result := ForensicsEngine.analyze getHours startTime endTime txs in
  Forall (fun acc => isParty txs (account_id acc))
    (ForensicsEngine.suspicious_accounts result)
  /\ Forall (fun r => Forall (isParty txs) (member_accounts r))
       (ForensicsEngine.fraud_rings result)
  /\ NoDup (map account_id (ForensicsEngine.suspicious_accounts result))
  /\ (ForensicsEngine.suspicious_accounts_flagged
        (ForensicsEngine.summary result)
      <= ForensicsEngine.total_accounts_analyzed
           (ForensicsEngine.summary result))%nat.
Proof.
  cbv zeta.
  destruct (output_account_ids getHours startTime endTime txs) as [Hnd Hiff].
  assert (Hacc : forall id,
             In id (map account_id
                      (ForensicsEngine.suspicious_accounts
                         (ForensicsEngine.analyze getHours startTime endTime txs))) ->
             isParty txs id).
  { intros id Hid. apply Hiff in Hid. destruct Hid as [Hkey _].
    apply mhas_In in Hkey. unfold mhas in Hkey.
    destruct (mget _ id) as [d |] eqn:Eget; [| discriminate].
    destruct (rawFindings_agree getHours txs) as [_ [Hfirst _]].
    destruct (Hfirst id d Eget) as [r [[pre [post [Hsplit [Hmem _]]]] _]].
    apply (@rawRing_parties getHours txs r); [| exact Hmem].
    apply rawFindings_origin. rewrite Hsplit. apply in_or_app. right. now left. }
  split; [| split; [| split]].
  - apply Forall_forall. intros acc Hin. apply Hacc. now apply in_map.
  - apply Forall_forall. intros r Hr. apply Forall_forall. intros m Hm.
    destruct (output_ring_members getHours startTime endTime txs r m Hr Hm)
      as [_ [r0 [Hr0 Hm0]]].
    apply (@rawRing_parties getHours txs r0); [| exact Hm0].
    now apply rawFindings_origin.
  - exact Hnd.
  - unfold ForensicsEngine.analyze at 1 2.
    destruct (ForensicsEngine.filteredFindings getHours txs) as [accs rings]
      eqn:E.
    cbn [ForensicsEngine.summary ForensicsEngine.suspicious_accounts_flagged
           ForensicsEngine.total_accounts_analyzed].
    unfold ForensicsEngine.analyze in Hnd, Hacc. rewrite E in Hnd, Hacc.
    cbn [ForensicsEngine.suspicious_accounts] in Hnd, Hacc.
    rewrite <- (length_map account_id).
    apply NoDup_incl_length; [exact Hnd |].
    intros id Hid. apply Hacc in Hid.
    destruct (build_keys txs) as [Hk _].
    change (nodes (GraphBuilder.build txs))
      with (mkeys (adjacencyList (GraphBuilder.build txs))).
    rewrite Hk. now apply parties_In.
Qed.

(** X30: every member of a ring of the output is one of its suspicious
    accounts. *)
Theorem ring_members_are_suspicious_accounts (getHours : Z -> Z)
  (startTime endTime : Z) (txs : list Transaction) (r : Ring) (m : string) :
  let result := ForensicsEngine.analyze getHours startTime endTime txs in
  In r (ForensicsEngine.fraud_rings result) -> In m (member_accounts r) ->
  exists acc, In acc (ForensicsEngine.suspicious_accounts result)
              /\ account_id acc = m.
Proof.
  cbv zeta. intros Hr Hm.
  destruct (output_ring_members getHours startTime endTime txs r m Hr Hm)
    as [Hlegit [r0 [Hr0 Hm0]]].
  destruct (output_account_ids getHours startTime endTime txs) as [_ Hiff].
  assert (Hin : In m (map account_id
                        (ForensicsEngine.suspicious_accounts
                           (ForensicsEngine.analyze getHours startTime endTime
                              txs)))).
  { apply Hiff. split; [| exact Hlegit].
    destruct (rawFindings_agree getHours txs) as [_ [_ Hall]].
    apply mhas_In. unfold mhas.
    destruct (mget _ m) eqn:Eget; [reflexivity |].
    exfalso. exact (Hall r0 m Hr0 Hm0 Eget). }
  apply in_map_iff in Hin. destruct Hin as [acc [H1 H2]]. now exists acc.
Qed.

Lemma ring_members_are_suspicious_accounts_witness :
  exists acc,
    In acc (ForensicsEngine.suspicious_accounts
              (ForensicsEngine.analyze Samples.utcHours 0 1000
                 Samples.passThrough))
    /\ account_id acc = "SH1"%string.
Proof.
  assert (Hr : In (hd (ForensicsEngine.plainRing EmptyString [] cycle 0)
                     (ForensicsEngine.fraud_rings
                        (ForensicsEngine.analyze Samples.utcHours 0 1000
                           Samples.passThrough)))
                 (ForensicsEngine.fraud_rings
                    (ForensicsEngine.analyze Samples.utcHours 0 1000
                       Samples.passThrough))).
  { vm_compute. left. reflexivity. }
  refine (@ring_members_are_suspicious_accounts Samples.utcHours 0%Z 1000%Z
            Samples.passThrough _ "SH1"%string Hr _).
  vm_compute. right. left. reflexivity.
Defined.
